(** * Tomasulo-Softcore: a shallow embedding of the simulator core

    The development follows the Python sources:
    - [MemoryUnit]          from src/MemoryUnit.py,
    - [ReservationStation]  from src/ReservationStation.py,
    - [LdStQueue]           from src/ld_st_queue.py,
    - [Tomasulo]            from Tomasulo.py (the per-cycle orchestrator).

    Python objects are mutable; every method is embedded as a function from
    the object's state to its next state (explicit state passing).  A method
    that can raise returns the exception next to (or instead of) the state. *)

From Stdlib Require Import ZArith String Ascii Bool Lia DecimalString.
From Stdlib Require Import Floats.SpecFloat.
From stdpp Require Import base option list gmap strings pretty.

Open Scope Z_scope.

(** ** Python values and built-ins used by the simulator *)

Module Py.

(** Numeric objects: [int], [float] (IEEE-754 binary64) and [bool]. *)
Inductive num : Type :=
| NInt (z : Z)
| NFloat (f : spec_float)
| NBool (b : bool).

(** The exceptions the embedded code can raise. *)
Inductive exn : Type :=
| ValueError (msg : string)
| IndexError
| KeyError (key : Z)
| NameError (name : string)
| TypeError
| OverflowError.

(** Result of a call that does not mutate its receiver. *)
Inductive outcome (A : Type) : Type :=
| Ok (a : A)
| Raise (e : exn).
Arguments Ok {A} a.
Arguments Raise {A} e.

#[global] Instance spec_float_eq_dec : EqDecision spec_float.
Proof. solve_decision. Defined.
#[global] Instance num_eq_dec : EqDecision num.
Proof. solve_decision. Defined.
#[global] Instance exn_eq_dec : EqDecision exn.
Proof. solve_decision. Defined.

(** [isinstance(v, int)]: [bool] is a subclass of [int]. *)
Definition isinstance_int (v : num) : bool :=
  match v with NInt _ | NBool _ => true | NFloat _ => false end.

(** [isinstance(v, float)]. *)
Definition isinstance_float (v : num) : bool :=
  match v with NFloat _ => true | _ => false end.

(** [isinstance(v, bool)]. *)
Definition isinstance_bool (v : num) : bool :=
  match v with NBool _ => true | _ => false end.

(** Position denoted by a Python subscript [i] on a sequence of length [n]:
    negative subscripts count from the end; outside [-n .. n-1] the
    subscript is an [IndexError]. *)
Definition resolve_index (n : nat) (i : Z) : option nat :=
  if (0 <=? i) && (i <? Z.of_nat n) then Some (Z.to_nat i)
  else if (- Z.of_nat n <=? i) && (i <? 0) then Some (Z.to_nat (Z.of_nat n + i))
  else None.

(** [l[i]] *)
Definition getitem {A} (l : list A) (i : Z) : option A :=
  k ← resolve_index (length l) i; l !! k.

(** [l[i] = v] *)
Definition setitem {A} (l : list A) (i : Z) (v : A) : option (list A) :=
  k ← resolve_index (length l) i; Some (<[k := v]> l).

(** [int(x)] on a numeric object: truncation towards zero for floats,
    [ValueError]/[OverflowError] (here [None]) on nan and infinities. *)
Definition py_int (x : num) : option Z :=
  match x with
  | NInt z => Some z
  | NBool b => Some (if b then 1 else 0)
  | NFloat (S754_zero _) => Some 0
  | NFloat (S754_finite s m e) =>
      let a := if 0 <=? e then Z.pos m * 2 ^ e else Z.pos m / 2 ^ (- e) in
      Some (if s then - a else a)
  | NFloat _ => None
  end.

(** [float(x)] on a numeric object: round to nearest even for ints,
    [OverflowError] (here [None]) when the int is out of the binary64 range. *)
Definition py_float (x : num) : option spec_float :=
  match x with
  | NFloat f => Some f
  | NBool b => Some (binary_normalize 53 1024 (if b then 1 else 0) 0 false)
  | NInt z =>
      match binary_normalize 53 1024 z 0 false with
      | S754_infinity _ => None
      | f => Some f
      end
  end.

(** [int(addr/4)] for an integer [addr] whose quotient fits a float.  The
    true division of two ints is the correctly rounded quotient, so it is
    exact below 2^53 in magnitude, where [int] truncates it towards zero.
    (Above, the quotient is rounded before it is truncated; it then lies far
    outside every list the simulator indexes, as this value does.) *)
Definition int_div4 (addr : Z) : Z := Z.quot addr 4.

(** [addr/4] raises [OverflowError] ("integer division result too large for
    a float") when the rounded quotient reaches 2^1024, that is when
    [|addr| / 4 >= 2^1024 - 2^970]. *)
Definition true_div4_overflows (addr : Z) : bool :=
  2 ^ 1026 - 2 ^ 972 <=? Z.abs addr.

(** The white space [int()] strips from both ends of an ASCII string:
    space, [\t], [\n], [\v], [\f], [\r]. *)
Definition is_space (a : ascii) : bool :=
  match nat_of_ascii a with
  | 9%nat | 10%nat | 11%nat | 12%nat | 13%nat | 32%nat => true
  | _ => false
  end.

Definition is_digit (a : ascii) : bool :=
  (48 <=? nat_of_ascii a)%nat && (nat_of_ascii a <=? 57)%nat.

Fixpoint lstrip (l : list ascii) : list ascii :=
  match l with
  | a :: rest => if is_space a then lstrip rest else l
  | [] => []
  end.

Definition strip (l : list ascii) : list ascii := rev (lstrip (rev (lstrip l))).

(** The digits of an integer literal as [int()] reads it: at least one
    digit, single underscores allowed between two digits.  Returns the
    digits without the underscores. *)
Fixpoint literal_digits (l : list ascii) (after_digit : bool) : option (list ascii) :=
  match l with
  | [] => if after_digit then Some [] else None
  | a :: rest =>
      if is_digit a then cons a <$> literal_digits rest true
      else if bool_decide (a = "_"%char) && after_digit then
        match rest with
        | d :: _ => if is_digit d then literal_digits rest false else None
        | [] => None
        end
      else None
  end.

(** [int(s)] on an ASCII string, base 10: surrounding white space is
    stripped, one sign [+] or [-] may come first, then the digits.  Anything
    else raises [ValueError] (here [None]).  Digits and spaces outside ASCII,
    which [int()] also accepts, are not read. *)
Definition py_int_of_string (s : string) : option Z :=
  let body := strip (list_ascii_of_string s) in
  let '(negative, digits) :=
    match body with
    | a :: rest =>
        if bool_decide (a = "-"%char) then (true, rest)
        else if bool_decide (a = "+"%char) then (false, rest)
        else (false, body)
    | [] => (false, [])
    end in
  ds ← literal_digits digits false;
  u ← DecimalString.NilZero.uint_of_string (string_of_list_ascii ds);
  Some (if negative then - Z.of_uint u else Z.of_uint u).

End Py.

Import Py.

(** ** src/MemoryUnit.py *)

Module MemoryUnit.

(** The object state: [self.memory], [self.flag], [self.memory_max_length]. *)
Record MemoryUnit : Type := mkMemoryUnit {
  memory : list num;
  flag : list Z;
  memory_max_length : Z
}.

(** [__init__]: 64 zeroed words, 64 zeroed flags. *)
Definition init : MemoryUnit :=
  {| memory := replicate 64 (NInt 0);
     flag := replicate 64 0;
     memory_max_length := 256 |}.

Definition set_memory (m : list num) (self : MemoryUnit) : MemoryUnit :=
  {| memory := m; flag := flag self; memory_max_length := memory_max_length self |}.

Definition set_flag (f : list Z) (self : MemoryUnit) : MemoryUnit :=
  {| memory := memory self; flag := f; memory_max_length := memory_max_length self |}.

(** The diagnostic of the range check:
    ["Address value [ {} ] outrange in memory unit".format(addr)]. *)
Definition outrange_msg (addr : Z) : string :=
  "Address value [ " +:+ pretty addr +:+ " ] outrange in memory unit".

(** First [if] of [mem_write]: [isinstance(value, int)], a 4-byte word.
    The state is returned together with the exception that ended the call,
    if any: Python keeps the assignments made before a raise.

    The source line [elif self.flag[int(addr/4)] != 0] lacks its colon; the
    embedding follows the indentation.  In that branch the name [init] is
    unbound (the neighbouring lines spell [int]), so after
    [self.memory[int(addr/4)] = value] the evaluation of the next subscript
    raises [NameError]. *)
Definition mem_write_int (addr : Z) (value : num) (self : MemoryUnit)
  : MemoryUnit * option exn :=
  if (addr >? 256) || (addr <? 0) then
    (self, Some (ValueError (outrange_msg addr)))
  else
    match getitem (flag self) (int_div4 addr) with
    | None => (self, Some IndexError)
    | Some fl =>
        if negb (fl =? 0) then
          match setitem (memory self) (int_div4 addr) value with
          | None => (self, Some IndexError)
          | Some m' => (set_memory m' self, Some (NameError "init"))
          end
        else
          match setitem (memory self) (int_div4 addr) value with
          | None => (self, Some IndexError)
          | Some m' => (set_memory m' self, None)
          end
    end.

(** Second [if] of [mem_write]: [isinstance(value, float)], 8 bytes.  The
    flag of the addressed word is assigned twice, first 1 and then -1. *)
Definition mem_write_float (addr : Z) (value : num) (self : MemoryUnit)
  : MemoryUnit * option exn :=
  if (addr >? 252) || (addr <? 0) then
    (self, Some (ValueError (outrange_msg addr)))
  else
    match setitem (memory self) (int_div4 addr) value with
    | None => (self, Some IndexError)
    | Some m' =>
        let self1 := set_memory m' self in
        match setitem (flag self1) (int_div4 addr) 1 with
        | None => (self1, Some IndexError)
        | Some f1 =>
            match setitem f1 (int_div4 addr) (-1) with
            | None => (set_flag f1 self1, Some IndexError)
            | Some f2 => (set_flag f2 self1, None)
            end
        end
    end.

(** [mem_write(addr, value)]: the two [if] statements in sequence. *)
Definition mem_write (addr : Z) (value : num) (self : MemoryUnit)
  : MemoryUnit * option exn :=
  let '(self1, e1) :=
    if isinstance_int value then mem_write_int addr value self else (self, None) in
  match e1 with
  | Some e => (self1, Some e)
  | None =>
      if isinstance_float value then mem_write_float addr value self1
      else (self1, None)
  end.

(** [mem_read(addr)]: [return self.memory[int(addr/4)]], no range check:
    the division raises [OverflowError] for an address beyond the float
    range, the subscript [IndexError] outside the list.  ([mem_write] only
    divides addresses that passed its range check.) *)
Definition mem_read (addr : Z) (self : MemoryUnit) : outcome num :=
  if true_div4_overflows addr then Raise OverflowError
  else
    match getitem (memory self) (int_div4 addr) with
    | Some v => Ok v
    | None => Raise IndexError
    end.

(** The shape [__init__] gives the object and every method keeps: 64 words
    and 64 flags. *)
Definition wf (self : MemoryUnit) : Prop :=
  length (memory self) = 64%nat ∧ length (flag self) = 64%nat.

(** The word addressed by byte address [addr]: [int(addr/4)] as a list
    position (for the addresses that pass the subscript). *)
Definition word (addr : Z) : nat := Z.to_nat (int_div4 addr).

End MemoryUnit.

(** ** src/ReservationStation.py *)

Module ReservationStation.

(** One entry of [self.q]: the list
    [[instructionID, op, Qi, Qj, Vi, Vj]], read through the index constants
    [ID], [OPERATION], [TAG_I], [TAG_J], [VALUE_I], [VALUE_J].  A tag is a
    string or [None]; a value is a number or [None]. *)
Record entry : Type := mkEntry {
  ID : Z;
  OPERATION : string;
  TAG_I : option string;
  TAG_J : option string;
  VALUE_I : option num;
  VALUE_J : option num
}.

#[global] Instance entry_eq_dec : EqDecision entry.
Proof. solve_decision. Defined.

(** The object state: [self.size] and [self.q]. *)
Record ReservationStation : Type := mkRS {
  size : Z;
  q : list entry
}.

(** [__init__(size)] *)
Definition init (sz : Z) : ReservationStation := {| size := sz; q := [] |}.

(** [isFull]: [len(self.q) == self.size]. *)
Definition isFull (self : ReservationStation) : bool :=
  Z.of_nat (length (q self)) =? size self.

(** [add]: append a new entry to the end of the station. *)
Definition add (instructionID : Z) (op : string) (Qi Qj : option string)
    (Vi Vj : option num) (self : ReservationStation) : ReservationStation :=
  {| size := size self;
     q := q self ++ [mkEntry instructionID op Qi Qj Vi Vj] |}.

(** The loop of [remove]: pop the first entry whose ID matches. *)
Fixpoint remove_first (instructionID : Z) (l : list entry) : option (list entry) :=
  match l with
  | [] => None
  | e :: rest =>
      if ID e =? instructionID then Some rest
      else cons e <$> remove_first instructionID rest
  end.

(** [remove(instructionID)]: the new state and the returned flag. *)
Definition remove (instructionID : Z) (self : ReservationStation)
  : ReservationStation * bool :=
  match remove_first instructionID (q self) with
  | Some l => ({| size := size self; q := l |}, true)
  | None => (self, false)
  end.

(** Body of the loop of [update] for one entry: the two [if] statements in
    sequence.  [tag] and [value] are arbitrary objects of the field types,
    [None] included. *)
Definition update_entry (tag : option string) (value : option num) (e : entry) : entry :=
  let e1 :=
    if decide (TAG_I e = tag)
    then mkEntry (ID e) (OPERATION e) None (TAG_J e) value (VALUE_J e)
    else e in
  if decide (TAG_J e1 = tag)
  then mkEntry (ID e1) (OPERATION e1) (TAG_I e1) None (VALUE_I e1) value
  else e1.

(** [update(tag, value)] *)
Definition update (tag : option string) (value : option num)
    (self : ReservationStation) : ReservationStation :=
  {| size := size self; q := update_entry tag value <$> q self |}.

(** The convention of the docstrings: exactly one of [Qi], [Vi] is [None]
    and exactly one of [Qj], [Vj] is [None]. *)
Definition one_set {A B} (t : option A) (v : option B) : Prop :=
  (t = None ∧ v ≠ None) ∨ (t ≠ None ∧ v = None).

Definition entry_ok (e : entry) : Prop :=
  one_set (TAG_I e) (VALUE_I e) ∧ one_set (TAG_J e) (VALUE_J e).

(** What [update] does to one entry, source by source. *)
Definition updated_by (t : string) (v : num) (e e' : entry) : Prop :=
  ID e' = ID e ∧ OPERATION e' = OPERATION e ∧
  (if decide (TAG_I e = Some t)
   then TAG_I e' = None ∧ VALUE_I e' = Some v
   else TAG_I e' = TAG_I e ∧ VALUE_I e' = VALUE_I e) ∧
  (if decide (TAG_J e = Some t)
   then TAG_J e' = None ∧ VALUE_J e' = Some v
   else TAG_J e' = TAG_J e ∧ VALUE_J e' = VALUE_J e).

(** A station with two entries waiting on [ROB1] and one on [ROB2]. *)
Definition station_example : ReservationStation :=
  add 2 "SUB" (Some "ROB2") None None (Some (NInt 4))
    (add 1 "ADD" (Some "ROB1") (Some "ROB1") None None
       (add 0 "ADDI" None (Some "ROB1") (Some (NInt 3)) None (init 5))).

End ReservationStation.

(** ** src/ld_st_queue.py *)

Module LdStQueue.

(** One entry of a store queue: the list [[instr, addr, value, value_tag]].
    The value is a number or [None], the tag a string or [None]. *)
Record st_entry : Type := mkStEntry {
  st_instr : Z;
  st_addr : Z;
  st_value : option num;
  st_value_tag : option string
}.

(** What [advanceTime] appends to the output buffer:
    [(entry[0], entry[1], entry[2])]. *)
Definition st_result : Type := (Z * Z * option num)%type.

Definition result_of (e : st_entry) : st_result := (st_instr e, st_addr e, st_value e).

(** The state of a [St_queue]: [self.size], [self.q], [self.time],
    [self.buffer]. *)
Record St_queue : Type := mkStQueue {
  st_size : Z;
  st_q : list st_entry;
  st_time : Z;
  st_buffer : list st_result
}.

(** [St_queue.__init__(size)] *)
Definition St_init (size : Z) : St_queue :=
  {| st_size := size; st_q := []; st_time := 0; st_buffer := [] |}.

(** [St_queue.isFull]: [len(self.q) == self.size]. *)
Definition St_isFull (self : St_queue) : bool :=
  Z.of_nat (length (st_q self)) =? st_size self.

(** [St_queue.add(instr, addr, value, value_tag)] *)
Definition St_add (instr addr : Z) (value : option num) (value_tag : option string)
    (self : St_queue) : St_queue :=
  {| st_size := st_size self;
     st_q := st_q self ++ [mkStEntry instr addr value value_tag];
     st_time := st_time self; st_buffer := st_buffer self |}.

(** [St_queue.remove(instr)]: the loop header [for i in len(self.q)]
    iterates over an [int], which raises [TypeError] before the body runs,
    whatever the queue holds. *)
Definition St_remove (instr : Z) (self : St_queue) : St_queue * option exn :=
  (self, Some TypeError).

(** [St_queue.update(value_tag, value)]: the condition of the loop body,
    [entry[3] == tag], reads the name [tag], which is bound nowhere (the
    parameter is [value_tag]): the first iteration raises [NameError]; on an
    empty queue the body never runs. *)
Definition St_update (value_tag : option string) (value : option num)
    (self : St_queue) : St_queue * option exn :=
  match st_q self with
  | [] => (self, None)
  | _ :: _ => (self, Some (NameError "tag"))
  end.

(** The loop of [St_queue.advanceTime] over [self.q]: an entry with a tag
    is skipped; for the first entry whose tag is [None] the result is
    appended to the buffer and the call [remove(entry[0])], a global name
    bound nowhere, raises [NameError]. *)
Fixpoint St_advance_loop (l : list st_entry) (buffer : list st_result)
  : list st_result * option exn :=
  match l with
  | [] => (buffer, None)
  | entry :: rest =>
      if decide (st_value_tag entry = None)
      then (buffer ++ [result_of entry], Some (NameError "remove"))
      else St_advance_loop rest buffer
  end.

(** [St_queue.advanceTime()]: [self.time += 1], then the loop. *)
Definition St_advanceTime (self : St_queue) : St_queue * option exn :=
  let '(buffer', e) := St_advance_loop (st_q self) (st_buffer self) in
  ({| st_size := st_size self; st_q := st_q self;
      st_time := st_time self + 1; st_buffer := buffer' |}, e).

(** [St_queue.isResultReady]: [len(self.buffer) > 0]. *)
Definition St_isResultReady (self : St_queue) : bool :=
  0 <? Z.of_nat (length (st_buffer self)).

(** [St_queue.getResult]: [self.buffer.pop(0)]; popping an empty list
    raises [IndexError]. *)
Definition St_getResult (self : St_queue) : St_queue * outcome st_result :=
  match st_buffer self with
  | r :: rest =>
      ({| st_size := st_size self; st_q := st_q self;
          st_time := st_time self; st_buffer := rest |}, Ok r)
  | [] => (self, Raise IndexError)
  end.

(** A call on a store queue by a client that goes on after an exception. *)
Inductive St_call : Type :=
| StAdd (instr addr : Z) (value : option num) (value_tag : option string)
| StRemove (instr : Z)
| StUpdate (value_tag : option string) (value : option num)
| StAdvanceTime
| StGetResult.

(** The store queue after one call. *)
Definition St_step (self : St_queue) (c : St_call) : St_queue :=
  match c with
  | StAdd instr addr value value_tag => St_add instr addr value value_tag self
  | StRemove instr => (St_remove instr self).1
  | StUpdate value_tag value => (St_update value_tag value self).1
  | StAdvanceTime => (St_advanceTime self).1
  | StGetResult => (St_getResult self).1
  end.

(** The store queue after a sequence of calls. *)
Definition St_run (cs : list St_call) (self : St_queue) : St_queue :=
  foldl St_step self cs.

(** The entries a sequence of calls adds, in order. *)
Definition St_added (cs : list St_call) : list st_entry :=
  omap (λ c, match c with
             | StAdd instr addr value value_tag =>
                 Some (mkStEntry instr addr value value_tag)
             | _ => None
             end) cs.

(** The state of a [Ld_queue]: [self.size], [self.q] (entries
    [[instr, addr]]), [self.time], [self.buffer].  No method of the class
    puts anything into the buffer, so the type [R] of its elements is left
    open. *)
Record Ld_queue (R : Type) : Type := mkLdQueue {
  ld_size : Z;
  ld_q : list (Z * Z);
  ld_time : Z;
  ld_buffer : list R
}.
Arguments mkLdQueue {R} _ _ _ _.
Arguments ld_size {R} _.
Arguments ld_q {R} _.
Arguments ld_time {R} _.
Arguments ld_buffer {R} _.

(** [Ld_queue.__init__(size)] *)
Definition Ld_init {R} (size : Z) : Ld_queue R :=
  {| ld_size := size; ld_q := []; ld_time := 0; ld_buffer := [] |}.

(** [Ld_queue.isFull] *)
Definition Ld_isFull {R} (self : Ld_queue R) : bool :=
  Z.of_nat (length (ld_q self)) =? ld_size self.

(** [Ld_queue.add(instr, addr)] *)
Definition Ld_add {R} (instr addr : Z) (self : Ld_queue R) : Ld_queue R :=
  {| ld_size := ld_size self; ld_q := ld_q self ++ [(instr, addr)];
     ld_time := ld_time self; ld_buffer := ld_buffer self |}.

(** [Ld_queue.remove(instr)]: [for i in len(self.q)], a [TypeError] as in
    the store queue. *)
Definition Ld_remove {R} (instr : Z) (self : Ld_queue R) : Ld_queue R * option exn :=
  (self, Some TypeError).

(** [Ld_queue.advanceTime()]: [self.time += 1] and nothing else. *)
Definition Ld_advanceTime {R} (self : Ld_queue R) : Ld_queue R :=
  {| ld_size := ld_size self; ld_q := ld_q self;
     ld_time := ld_time self + 1; ld_buffer := ld_buffer self |}.

(** [Ld_queue.isResultReady] *)
Definition Ld_isResultReady {R} (self : Ld_queue R) : bool :=
  0 <? Z.of_nat (length (ld_buffer self)).

(** [Ld_queue.getResult]: [self.buffer.pop(0)]. *)
Definition Ld_getResult {R} (self : Ld_queue R) : Ld_queue R * outcome R :=
  match ld_buffer self with
  | r :: rest =>
      ({| ld_size := ld_size self; ld_q := ld_q self;
          ld_time := ld_time self; ld_buffer := rest |}, Ok r)
  | [] => (self, Raise IndexError)
  end.

(** A call on a load queue, and the queue after it. *)
Inductive Ld_call : Type :=
| LdAdd (instr addr : Z)
| LdRemove (instr : Z)
| LdAdvanceTime
| LdGetResult.

Definition Ld_step {R} (self : Ld_queue R) (c : Ld_call) : Ld_queue R :=
  match c with
  | LdAdd instr addr => Ld_add instr addr self
  | LdRemove instr => (Ld_remove instr self).1
  | LdAdvanceTime => Ld_advanceTime self
  | LdGetResult => (Ld_getResult self).1
  end.

Definition Ld_run {R} (cs : list Ld_call) (self : Ld_queue R) : Ld_queue R :=
  foldl Ld_step self cs.

(** A store queue holding the store of instruction 1 with its data
    resolved behind the store of instruction 0 that waits for [ROB3]. *)
Definition st_example : St_queue :=
  St_add 1 16 (Some (NInt 7)) None
    (St_add 0 8 None (Some "ROB3") (St_init 4)).

End LdStQueue.

(** ** Tomasulo.py: data of the orchestrator and of its collaborators *)

Module Tomasulo.

(** An object held in a slot that may carry [None], a number or a string
    (register name, ROB tag, opcode). *)
Inductive pyval : Type :=
| PNone
| PNum (n : num)
| PStr (s : string).

#[global] Instance pyval_eq_dec : EqDecision pyval.
Proof. solve_decision. Defined.

(** [a == b] on the slots the orchestrator compares: register names and ROB
    tags (strings) against strings or [None]. *)
Definition py_eq (a b : pyval) : bool := bool_decide (a = b).

(** [x is not None] *)
Definition is_not_None (x : pyval) : bool :=
  match x with PNone => false | _ => true end.

(** [isinstance(x, int)] on a slot. *)
Definition slot_is_int (x : pyval) : bool :=
  match x with PNum n => isinstance_int n | _ => false end.

(** [isinstance(x, bool)] on a slot. *)
Definition slot_is_bool (x : pyval) : bool :=
  match x with PNum n => isinstance_bool n | _ => false end.

(** [int(x)] on a slot: numbers as [py_int]; a string is read as a decimal
    literal ([py_int_of_string]); [None] raises. *)
Definition int_of (x : pyval) : option Z :=
  match x with
  | PNum n => py_int n
  | PStr s => py_int_of_string s
  | PNone => None
  end.

(** [float(x)] on a slot holding a number ([None] raises; the orchestrator
    applies it to register and ROB values only). *)
Definition float_of (x : pyval) : option spec_float :=
  match x with
  | PNum n => py_float n
  | _ => None
  end.

(** [f"ROB{k}"] *)
Definition ROBtag (k : Z) : string := "ROB" +:+ pretty k.

(** A fetched instruction [nextInst = [ID, (op, f1, f2, f3)]]. *)
Record Inst : Type := mkInst {
  inst_ID : Z;
  inst_op : string;
  inst_1 : pyval;
  inst_2 : pyval;
  inst_3 : pyval
}.

(** The list [entry] built by [issueStage]:
    [[nextInst[0], ROBId, nextInst[1][0], None, None, None, None]],
    fields named by their index. *)
Record IssueEntry : Type := mkIssueEntry {
  e0 : Z;
  e1 : pyval;
  e2 : string;
  e3 : pyval;
  e4 : pyval;
  e5 : pyval;
  e6 : pyval
}.

(** Modelled from the spec: the reservation-station class the orchestrator
    instantiates ([ReservationStation(size, name)], entries of eight fields
    read as [x[0]], [x[2]], [x[5]], [x[6]], [x[7]]) is not the one under
    src/.  "RS entry. Fields: instruction ID, ROB slot index, opcode tag,
    source-1 ROB tag (or none), source-2 ROB tag (or none), source-1 value
    (or none), source-2 value (or none), executing flag." *)
Record RSEntry : Type := mkRSEntry {
  x0 : Z;
  x1 : pyval;
  x2 : string;
  x3 : pyval;
  x4 : pyval;
  x5 : pyval;
  x6 : pyval;
  x7 : bool
}.

Record RS : Type := mkRSt {
  RS_size : Z;
  RS_q : list RSEntry
}.

(** Modelled from the spec: the load/store queue module is missing.  The
    orchestrator reads [LDSTQ.q] and the fields [entry[0]] (ID), [entry[1]]
    (['LD'] or ['SD']), [entry[3]] (address slot) and [entry[5]] (address
    computed); [LDSTQ.add(ID, op, data, base, displacement)] fixes the first
    five positions.  The remaining state of the queue (memory port, buffers,
    the memory unit it shares with the orchestrator) is kept abstract. *)
Record LSQEntry : Type := mkLSQEntry {
  l0 : Z;
  l1 : string;
  l2 : pyval;
  l3 : pyval;
  l4 : pyval;
  l5 : bool
}.

(** Modelled from the spec: the ROB module is missing.  "ROB entry. Fields:
    instruction ID, destination register name, value, done flag, ROB slot
    index.  Slots form a circular queue; head commits, tail admits."  The
    orchestrator reads [ROB.q[ROB.head][0]], [[2]], [[3]] and the entry
    returned by [commit()] at [[1]], [[2]], [[4]].  A free slot holds
    [None]. *)
Record ROBEntry : Type := mkROBEntry {
  r0 : Z;
  r1 : pyval;
  r2 : pyval;
  r3 : bool;
  r4 : Z
}.

Record ROB_t : Type := mkROB {
  ROB_q : list (option ROBEntry);
  ROB_head : Z;
  ROB_tail : Z
}.

(** Modelled from the spec: the functional-unit modules are missing.  "Each
    unit runs a countdown; when it reaches zero the result is made visible
    via isResultReady/getResult which returns (id, value).  For the integer
    ALU, a branch comparison produces a boolean outcome exposed through
    isBranchOutcomePending/getResult (still (id, outcome))."  [FU_pipeline]
    holds the operations still counting down (ID, value, remaining cycles),
    [FU_buffer] the visible results, oldest first. *)
Record FU : Type := mkFU {
  FU_pipeline : list (Z * num * Z);
  FU_buffer : list (Z * num)
}.

(** *** Operations of the missing collaborators whose effect the spec fixes *)

(** Modelled from the spec: RS [isFull]. *)
Definition RS_isFull (rs : RS) : bool := Z.of_nat (length (RS_q rs)) =? RS_size rs.

(** Modelled from the spec: RS [add] on the unpacked [entry], the new entry is not executing. *)
Definition RS_add (e : IssueEntry) (rs : RS) : RS :=
  {| RS_size := RS_size rs;
     RS_q := RS_q rs ++ [mkRSEntry (e0 e) (e1 e) (e2 e) (e3 e) (e4 e) (e5 e) (e6 e) false] |}.

(** Modelled from the spec: RS [remove(id)], as in src/ReservationStation.py:
    the first entry with that ID is popped. *)
Fixpoint RS_remove_first (id : Z) (l : list RSEntry) : list RSEntry :=
  match l with
  | [] => []
  | e :: rest => if x0 e =? id then rest else e :: RS_remove_first id rest
  end.

Definition RS_remove (id : Z) (rs : RS) : RS :=
  {| RS_size := RS_size rs; RS_q := RS_remove_first id (RS_q rs) |}.

(** Modelled from the spec: RS [update(tag, value)] "sets any entry's source
    tag matching tag to none and fills its value". *)
Definition RS_update_entry (tag : string) (value : pyval) (e : RSEntry) : RSEntry :=
  let e' :=
    if py_eq (x3 e) (PStr tag)
    then mkRSEntry (x0 e) (x1 e) (x2 e) PNone (x4 e) value (x6 e) (x7 e)
    else e in
  if py_eq (x4 e') (PStr tag)
  then mkRSEntry (x0 e') (x1 e') (x2 e') (x3 e') PNone (x5 e') value (x7 e')
  else e'.

Definition RS_update (tag : string) (value : pyval) (rs : RS) : RS :=
  {| RS_size := RS_size rs; RS_q := RS_update_entry tag value <$> RS_q rs |}.

(** Modelled from the spec: RS [markAsExecuting(id)]. *)
Definition RS_markAsExecuting (id : Z) (rs : RS) : RS :=
  {| RS_size := RS_size rs;
     RS_q := (λ e, if x0 e =? id
                   then mkRSEntry (x0 e) (x1 e) (x2 e) (x3 e) (x4 e) (x5 e) (x6 e) true
                   else e) <$> RS_q rs |}.

(** Modelled from the spec: RS [purgeAfterMispredict(branchID)] "removes all
    entries with instruction ID > branchID". *)
Definition RS_purgeAfterMispredict (branchID : Z) (rs : RS) : RS :=
  {| RS_size := RS_size rs;
     RS_q := filter (λ e, x0 e ≤ branchID) (RS_q rs) |}.

(** Modelled from the spec: FU [isResultReady]. *)
Definition FU_isResultReady (fu : FU) : bool :=
  match FU_buffer fu with
  | (_, v) :: _ => negb (isinstance_bool v)
  | [] => false
  end.

(** Modelled from the spec: FU [isBranchOutcomePending]. *)
Definition FU_isBranchOutcomePending (fu : FU) : bool :=
  match FU_buffer fu with
  | (_, v) :: _ => isinstance_bool v
  | [] => false
  end.

(** Modelled from the spec: FU [getResultID], the ID of the visible result. *)
Definition FU_getResultID (fu : FU) : option Z :=
  match FU_buffer fu with
  | (id, _) :: _ => Some id
  | [] => None
  end.

(** Modelled from the spec: FU [getResult] "returns (id, value)" and
    releases the result. *)
Definition FU_getResult (fu : FU) : option (FU * (Z * num)) :=
  match FU_buffer fu with
  | r :: rest => Some ({| FU_pipeline := FU_pipeline fu; FU_buffer := rest |}, r)
  | [] => None
  end.

(** Modelled from the spec: FU [purgeAfterMispredict(branchID)] "drops any
    in-flight instruction with ID > branchID and frees the unit". *)
Definition FU_purgeAfterMispredict (branchID : Z) (fu : FU) : FU :=
  {| FU_pipeline := filter (λ o, o.1.1 ≤ branchID) (FU_pipeline fu);
     FU_buffer := filter (λ r, r.1 ≤ branchID) (FU_buffer fu) |}.

(** Modelled from the spec: ROB [isFull], every slot is occupied. *)
Definition ROB_isFull (rob : ROB_t) : bool :=
  forallb (λ s, match s with Some _ => true | None => false end) (ROB_q rob).

(** Modelled from the spec: ROB [add(id, dest) → slotIndex], the tail slot
    admits the entry and the tail advances around the circular queue. *)
Definition ROB_add (id : Z) (dest : pyval) (rob : ROB_t) : option (ROB_t * Z) :=
  let k := ROB_tail rob in
  q' ← setitem (ROB_q rob) k (Some (mkROBEntry id dest PNone false k));
  Some ({| ROB_q := q'; ROB_head := ROB_head rob;
           ROB_tail := (k + 1) `mod` Z.of_nat (length (ROB_q rob)) |}, k).

(** Slot of the first entry with the given instruction ID. *)
Fixpoint ROB_find (id : Z) (k : Z) (l : list (option ROBEntry)) : option (Z * ROBEntry) :=
  match l with
  | [] => None
  | Some e :: rest => if r0 e =? id then Some (k, e) else ROB_find id (k + 1) rest
  | None :: rest => ROB_find id (k + 1) rest
  end.

(** Modelled from the spec: ROB [findAndUpdateEntry(id, value) →
    (slotIndex, tagName)] "marks done and writes result".  Without such an
    entry nothing changes and there is no result. *)
Definition ROB_findAndUpdateEntry (id : Z) (value : pyval) (rob : ROB_t)
  : ROB_t * option (Z * string) :=
  match ROB_find id 0 (ROB_q rob) with
  | Some (k, e) =>
      ({| ROB_q := <[Z.to_nat k := Some (mkROBEntry (r0 e) (r1 e) value true (r4 e))]> (ROB_q rob);
          ROB_head := ROB_head rob; ROB_tail := ROB_tail rob |},
       Some (k, ROBtag k))
  | None => (rob, None)
  end.

(** Modelled from the spec: ROB [canCommit() → id|none] "returns head's ID
    when head is done". *)
Definition ROB_canCommit (rob : ROB_t) : option Z :=
  match getitem (ROB_q rob) (ROB_head rob) with
  | Some (Some e) => if r3 e then Some (r0 e) else None
  | _ => None
  end.

(** Modelled from the spec: ROB [commit() → entry] "pops head". *)
Definition ROB_commit (rob : ROB_t) : option (ROB_t * ROBEntry) :=
  s ← getitem (ROB_q rob) (ROB_head rob);
  e ← s;
  q' ← setitem (ROB_q rob) (ROB_head rob) None;
  Some ({| ROB_q := q'; ROB_tail := ROB_tail rob;
           ROB_head := (ROB_head rob + 1) `mod` Z.of_nat (length (ROB_q rob)) |}, e).

(** Modelled from the spec: ROB [purgeAfterMispredict(branchID)] "discards
    slots occupied by instructions with ID > branchID, adjusting the
    tail" (to the slot after the remaining entries). *)
Definition ROB_purgeAfterMispredict (branchID : Z) (rob : ROB_t) : ROB_t :=
  let q' := (λ s, match s with
                  | Some e => if r0 e <=? branchID then Some e else None
                  | None => None
                  end) <$> ROB_q rob in
  {| ROB_q := q'; ROB_head := ROB_head rob;
     ROB_tail := (ROB_head rob + Z.of_nat (length (omap id q')))
                   `mod` Z.of_nat (length q') |}.

(** [self.ROB.q[self.ROB.head]]; subscripting a free slot raises. *)
Definition ROB_head_entry (rob : ROB_t) : option ROBEntry :=
  s ← getitem (ROB_q rob) (ROB_head rob); s.

(** *** The collaborators kept abstract

    The instruction queue, the RAT, the ARF, the branch unit, the timing of
    the functional units and the algorithms of the load/store queue are
    classes of the repository that are not under src/.  The orchestrator
    only calls their methods, so they are parameters of the embedding: a
    type for the object's state and one function per method.  Methods that
    only read return a value; the others return the next state (and their
    result).  [LDSTQ_*] act on the queue together with the memory unit it
    shares with the orchestrator. *)
Class Collaborators : Type := {
  IQ_t : Type;
  RAT_t : Type;
  ARF_t : Type;
  BranchUnit : Type;
  LSQInternal : Type;
  (* InstructionQueue *)
  IQ_empty : Z → IQ_t → bool;
  IQ_peek_1 : Z → IQ_t → option string;
  IQ_fetch : Z → IQ_t → option (IQ_t * Inst);
  IQ_next : IQ_t → Z;
  IQ_setPC : Z → IQ_t → IQ_t;
  (* RAT *)
  RAT_get : pyval → RAT_t → pyval;
  RAT_set : pyval → pyval → RAT_t → RAT_t;
  RAT_getMapping : Inst → RAT_t → Inst;
  RAT_getState : RAT_t → RAT_t;
  (* ARF *)
  ARF_get : pyval → ARF_t → num;
  ARF_set : pyval → pyval → ARF_t → ARF_t;
  (* BranchUnit *)
  branch_predict : Z → BranchUnit → bool;
  branch_saveRAT : Z → RAT_t → BranchUnit → BranchUnit;
  branch_setMispredictTarget : Z → Z → BranchUnit → BranchUnit;
  branch_getMispredictTarget : Z → BranchUnit → Z;
  branch_rollBack : Z → BranchUnit → RAT_t;
  branch_update : Z → bool → BranchUnit → BranchUnit;
  (* functional units: timing *)
  FU_busy : FU → bool;
  FU_execute : Z → string → pyval → pyval → FU → FU;
  FU_advanceTime : FU → FU;
  (* load/store queue and memory port *)
  LSQ_checkMMU : list LSQEntry * LSQInternal → list LSQEntry * LSQInternal;
  LSQ_isFull : list LSQEntry * LSQInternal → bool;
  LSQ_add : Z → string → pyval → pyval → pyval →
            list LSQEntry * LSQInternal → list LSQEntry * LSQInternal;
  LSQ_busy : list LSQEntry * LSQInternal → bool;
  LSQ_executeStage : nat → list LSQEntry * LSQInternal → list LSQEntry * LSQInternal;
  LSQ_instructionReady : LSQEntry → list LSQEntry * LSQInternal → bool;
  LSQ_doForwards : list LSQEntry * LSQInternal → list LSQEntry * LSQInternal * Z;
  LSQ_issueReadyLoad : list LSQEntry * LSQInternal → list LSQEntry * LSQInternal * Z;
  LSQ_issueReadyStore : list LSQEntry * LSQInternal → list LSQEntry * LSQInternal * Z;
  LSQ_isResultReady : list LSQEntry * LSQInternal → bool;
  LSQ_getResult : list LSQEntry * LSQInternal → option (list LSQEntry * LSQInternal * (Z * num));
  LSQ_update : string → pyval → list LSQEntry * LSQInternal → list LSQEntry * LSQInternal;
  LSQ_cancelAfter : Z → LSQInternal → LSQInternal;
  LSQ_pending : LSQInternal → list Z;
  LSQ_advanceTime : list LSQEntry * LSQInternal → list LSQEntry * LSQInternal;
  memory_advanceTime : LSQInternal → LSQInternal
}.

Section Orchestrator.
Context `{Collaborators}.

(** The load/store queue object: its list [q] and the rest of its state. *)
Definition LdStQ : Type := (list LSQEntry * LSQInternal)%type.

(** [self.LDSTQ.q] *)
Definition LDSTQ_q (l : LdStQ) : list LSQEntry := l.1.

(** Modelled from the spec: LSQ [purgeAfterMispredict(branchID)] "drops every
    entry with ID > branchID and cancels any in-flight memory op belonging
    to a dropped entry".  The entries are dropped from [q]; the cancellation
    acts on the rest of the queue, see [LSQLaws]. *)
Definition LSQ_purgeAfterMispredict (branchID : Z) (l : LdStQ) : LdStQ :=
  (filter (λ e, l0 e ≤ branchID) l.1, LSQ_cancelAfter branchID l.2).

(** The instruction IDs a load/store queue holds: those of its entries and
    those pending in the rest of its state. *)
Definition LSQ_ids (l : LdStQ) : list Z := (l0 <$> l.1) ++ LSQ_pending l.2.

(** One call, by the orchestrator, of a method of the queue other than
    [add] and [purgeAfterMispredict]. *)
Inductive LSQ_step : LdStQ → LdStQ → Prop :=
| step_checkMMU l : LSQ_step l (LSQ_checkMMU l)
| step_advanceTime l : LSQ_step l (LSQ_advanceTime l)
| step_memory_advanceTime l : LSQ_step l (l.1, memory_advanceTime l.2)
| step_doForwards l : LSQ_step l (LSQ_doForwards l).1
| step_issueReadyLoad l : LSQ_step l (LSQ_issueReadyLoad l).1
| step_issueReadyStore l : LSQ_step l (LSQ_issueReadyStore l).1
| step_update name value l : LSQ_step l (LSQ_update name value l)
| step_executeStage i l : LSQ_step l (LSQ_executeStage i l)
| step_getResult l l' r : LSQ_getResult l = Some (l', r) → LSQ_step l l'.

(** Modelled from the spec: what the missing load/store queue keeps besides
    [q].  [LSQ_pending] lists the instruction IDs of the memory operation in
    flight and of the results waiting in the queue's buffer.  The purge
    "cancels any in-flight memory op belonging to a dropped entry": it keeps
    the pending IDs up to [branchID], and only those.  A result handed out by
    [getResult] ("returns (id, value)") belongs to a pending instruction.
    The queue is an "in-order queue of memory ops" that instructions enter
    through [add]: no other method brings in an ID the queue does not
    hold. *)
Class LSQLaws : Prop := {
  LSQ_cancelAfter_pending : ∀ branchID a,
    LSQ_pending (LSQ_cancelAfter branchID a)
    = filter (λ id, id ≤ branchID) (LSQ_pending a);
  LSQ_getResult_pending : ∀ (l l' : LdStQ) r,
    LSQ_getResult l = Some (l', r) → r.1 ∈ LSQ_pending l.2;
  LSQ_step_ids : ∀ l l', LSQ_step l l' → LSQ_ids l' ⊆ LSQ_ids l
}.

(** The state of the [Tomasulo] object (the attributes set by [__init__];
    [self.memory] is the memory unit inside [LDSTQ]). *)
Record Tomasulo : Type := mkTomasulo {
  output : gmap Z (list (option Z));
  IQ : IQ_t;
  LDSTQ : LdStQ;
  ROB : ROB_t;
  ARF : ARF_t;
  RAT : RAT_t;
  RS_ALUIs : RS;
  RS_ALUFPs : RS;
  RS_MULTFPs : RS;
  ALUIs : list FU;
  ALUFPs : list FU;
  MULTFPs : list FU;
  branch : BranchUnit;
  cycle : Z;
  fetchOffset : Z;
  done : bool;
  saveRAT : bool;
  RATBID : Z
}.

Definition set_output v (t : Tomasulo) : Tomasulo :=
  mkTomasulo v (IQ t) (LDSTQ t) (ROB t) (ARF t) (RAT t) (RS_ALUIs t) (RS_ALUFPs t)
    (RS_MULTFPs t) (ALUIs t) (ALUFPs t) (MULTFPs t) (branch t) (cycle t)
    (fetchOffset t) (done t) (saveRAT t) (RATBID t).
Definition set_IQ v (t : Tomasulo) : Tomasulo :=
  mkTomasulo (output t) v (LDSTQ t) (ROB t) (ARF t) (RAT t) (RS_ALUIs t) (RS_ALUFPs t)
    (RS_MULTFPs t) (ALUIs t) (ALUFPs t) (MULTFPs t) (branch t) (cycle t)
    (fetchOffset t) (done t) (saveRAT t) (RATBID t).
Definition set_LDSTQ v (t : Tomasulo) : Tomasulo :=
  mkTomasulo (output t) (IQ t) v (ROB t) (ARF t) (RAT t) (RS_ALUIs t) (RS_ALUFPs t)
    (RS_MULTFPs t) (ALUIs t) (ALUFPs t) (MULTFPs t) (branch t) (cycle t)
    (fetchOffset t) (done t) (saveRAT t) (RATBID t).
Definition set_ROB v (t : Tomasulo) : Tomasulo :=
  mkTomasulo (output t) (IQ t) (LDSTQ t) v (ARF t) (RAT t) (RS_ALUIs t) (RS_ALUFPs t)
    (RS_MULTFPs t) (ALUIs t) (ALUFPs t) (MULTFPs t) (branch t) (cycle t)
    (fetchOffset t) (done t) (saveRAT t) (RATBID t).
Definition set_ARF v (t : Tomasulo) : Tomasulo :=
  mkTomasulo (output t) (IQ t) (LDSTQ t) (ROB t) v (RAT t) (RS_ALUIs t) (RS_ALUFPs t)
    (RS_MULTFPs t) (ALUIs t) (ALUFPs t) (MULTFPs t) (branch t) (cycle t)
    (fetchOffset t) (done t) (saveRAT t) (RATBID t).
Definition set_RAT v (t : Tomasulo) : Tomasulo :=
  mkTomasulo (output t) (IQ t) (LDSTQ t) (ROB t) (ARF t) v (RS_ALUIs t) (RS_ALUFPs t)
    (RS_MULTFPs t) (ALUIs t) (ALUFPs t) (MULTFPs t) (branch t) (cycle t)
    (fetchOffset t) (done t) (saveRAT t) (RATBID t).
Definition set_RS_ALUIs v (t : Tomasulo) : Tomasulo :=
  mkTomasulo (output t) (IQ t) (LDSTQ t) (ROB t) (ARF t) (RAT t) v (RS_ALUFPs t)
    (RS_MULTFPs t) (ALUIs t) (ALUFPs t) (MULTFPs t) (branch t) (cycle t)
    (fetchOffset t) (done t) (saveRAT t) (RATBID t).
Definition set_RS_ALUFPs v (t : Tomasulo) : Tomasulo :=
  mkTomasulo (output t) (IQ t) (LDSTQ t) (ROB t) (ARF t) (RAT t) (RS_ALUIs t) v
    (RS_MULTFPs t) (ALUIs t) (ALUFPs t) (MULTFPs t) (branch t) (cycle t)
    (fetchOffset t) (done t) (saveRAT t) (RATBID t).
Definition set_RS_MULTFPs v (t : Tomasulo) : Tomasulo :=
  mkTomasulo (output t) (IQ t) (LDSTQ t) (ROB t) (ARF t) (RAT t) (RS_ALUIs t) (RS_ALUFPs t)
    v (ALUIs t) (ALUFPs t) (MULTFPs t) (branch t) (cycle t)
    (fetchOffset t) (done t) (saveRAT t) (RATBID t).
Definition set_ALUIs v (t : Tomasulo) : Tomasulo :=
  mkTomasulo (output t) (IQ t) (LDSTQ t) (ROB t) (ARF t) (RAT t) (RS_ALUIs t) (RS_ALUFPs t)
    (RS_MULTFPs t) v (ALUFPs t) (MULTFPs t) (branch t) (cycle t)
    (fetchOffset t) (done t) (saveRAT t) (RATBID t).
Definition set_ALUFPs v (t : Tomasulo) : Tomasulo :=
  mkTomasulo (output t) (IQ t) (LDSTQ t) (ROB t) (ARF t) (RAT t) (RS_ALUIs t) (RS_ALUFPs t)
    (RS_MULTFPs t) (ALUIs t) v (MULTFPs t) (branch t) (cycle t)
    (fetchOffset t) (done t) (saveRAT t) (RATBID t).
Definition set_MULTFPs v (t : Tomasulo) : Tomasulo :=
  mkTomasulo (output t) (IQ t) (LDSTQ t) (ROB t) (ARF t) (RAT t) (RS_ALUIs t) (RS_ALUFPs t)
    (RS_MULTFPs t) (ALUIs t) (ALUFPs t) v (branch t) (cycle t)
    (fetchOffset t) (done t) (saveRAT t) (RATBID t).
Definition set_branch v (t : Tomasulo) : Tomasulo :=
  mkTomasulo (output t) (IQ t) (LDSTQ t) (ROB t) (ARF t) (RAT t) (RS_ALUIs t) (RS_ALUFPs t)
    (RS_MULTFPs t) (ALUIs t) (ALUFPs t) (MULTFPs t) v (cycle t)
    (fetchOffset t) (done t) (saveRAT t) (RATBID t).
Definition set_cycle v (t : Tomasulo) : Tomasulo :=
  mkTomasulo (output t) (IQ t) (LDSTQ t) (ROB t) (ARF t) (RAT t) (RS_ALUIs t) (RS_ALUFPs t)
    (RS_MULTFPs t) (ALUIs t) (ALUFPs t) (MULTFPs t) (branch t) v
    (fetchOffset t) (done t) (saveRAT t) (RATBID t).
Definition set_fetchOffset v (t : Tomasulo) : Tomasulo :=
  mkTomasulo (output t) (IQ t) (LDSTQ t) (ROB t) (ARF t) (RAT t) (RS_ALUIs t) (RS_ALUFPs t)
    (RS_MULTFPs t) (ALUIs t) (ALUFPs t) (MULTFPs t) (branch t) (cycle t)
    v (done t) (saveRAT t) (RATBID t).
Definition set_done v (t : Tomasulo) : Tomasulo :=
  mkTomasulo (output t) (IQ t) (LDSTQ t) (ROB t) (ARF t) (RAT t) (RS_ALUIs t) (RS_ALUFPs t)
    (RS_MULTFPs t) (ALUIs t) (ALUFPs t) (MULTFPs t) (branch t) (cycle t)
    (fetchOffset t) v (saveRAT t) (RATBID t).
Definition set_saveRAT v (t : Tomasulo) : Tomasulo :=
  mkTomasulo (output t) (IQ t) (LDSTQ t) (ROB t) (ARF t) (RAT t) (RS_ALUIs t) (RS_ALUFPs t)
    (RS_MULTFPs t) (ALUIs t) (ALUFPs t) (MULTFPs t) (branch t) (cycle t)
    (fetchOffset t) (done t) v (RATBID t).
Definition set_RATBID v (t : Tomasulo) : Tomasulo :=
  mkTomasulo (output t) (IQ t) (LDSTQ t) (ROB t) (ARF t) (RAT t) (RS_ALUIs t) (RS_ALUFPs t)
    (RS_MULTFPs t) (ALUIs t) (ALUFPs t) (MULTFPs t) (branch t) (cycle t)
    (fetchOffset t) (done t) (saveRAT t) v.

(** *** Tomasulo.py: the methods of the orchestrator

    A method returns [None] when the Python code raises (a missing key, a
    subscript out of range, a failed conversion). *)

(** [updateOutput(ID, stage)] *)
Definition updateOutput (ID : Z) (stage : Z) (t : Tomasulo) : option Tomasulo :=
  match output t !! ID with
  | None =>
      Some (set_output (<[ID := [Some (cycle t); None; None; None; None]]> (output t)) t)
  | Some rec =>
      rec' ← setitem rec stage (Some (cycle t));
      Some (set_output (<[ID := rec']> (output t)) t)
  end.

(** The loop of [isNew]: [for i in range(5): stage = self.output[ID][4-i]],
    leaving at the first slot that is not [None]. *)
Fixpoint isNew_loop (rec : list (option Z)) (range : list Z) (stage : option Z)
  : option (option Z) :=
  match range with
  | [] => Some stage
  | i :: rest =>
      s ← getitem rec (4 - i);
      match s with
      | Some c => Some (Some c)
      | None => isNew_loop rec rest None
      end
  end.

(** [isNew(ID)] *)
Definition isNew (ID : Z) (t : Tomasulo) : option bool :=
  rec ← output t !! ID;
  stage ← isNew_loop rec [0; 1; 2; 3; 4] None;
  Some (bool_decide (stage = Some (cycle t))).

(** [sum([1 for x in self.output.values() if x[4] is None])] *)
Definition stillExecuting (t : Tomasulo) : option Z :=
  commits ← mapM (λ x : list (option Z), getitem x 4) (map_to_list (output t)).*2;
  Some (Z.of_nat (length (filter (λ c : option Z, c = None) commits))).

(** [updateExitConditions()] *)
Definition updateExitConditions (t : Tomasulo) : option Tomasulo :=
  let nothingToFetch := IQ_empty (fetchOffset t) (IQ t) in
  n ← stillExecuting t;
  if nothingToFetch && (n =? 0) then Some (set_done true t) else Some t.

(** [advanceTime()] *)
Definition advanceTime (t : Tomasulo) : Tomasulo :=
  let t1 := set_cycle (cycle t + 1) t in
  let t2 := set_ALUIs (FU_advanceTime <$> ALUIs t1) t1 in
  let t3 := set_ALUFPs (FU_advanceTime <$> ALUFPs t2) t2 in
  let t4 := set_MULTFPs (FU_advanceTime <$> MULTFPs t3) t3 in
  let t5 := set_LDSTQ (LSQ_advanceTime (LDSTQ t4)) t4 in
  set_LDSTQ ((LDSTQ t5).1, memory_advanceTime (LDSTQ t5).2) t5.

(** A call of the memory stage on the load/store queue, with the value it
    returned. *)
Inductive LSQCall : Type :=
| CallDoForwards (ret : Z)
| CallIssueReadyLoad (ret : Z).

(** [memoryStage()], together with the calls it made on the queue, in
    order. *)
Definition memoryStage_calls (t : Tomasulo) : option Tomasulo * list LSQCall :=
  let '(q1, ret) := LSQ_doForwards (LDSTQ t) in
  let t1 := set_LDSTQ q1 t in
  if 0 <=? ret then
    (updateOutput ret 2 t1, [CallDoForwards ret])
  else
    let '(q2, ret') := LSQ_issueReadyLoad (LDSTQ t1) in
    let t2 := set_LDSTQ q2 t1 in
    if 0 <=? ret' then
      (updateOutput ret' 2 t2, [CallDoForwards ret; CallIssueReadyLoad ret'])
    else
      (Some t2, [CallDoForwards ret; CallIssueReadyLoad ret']).

(** [memoryStage()] *)
Definition memoryStage (t : Tomasulo) : option Tomasulo := (memoryStage_calls t).1.

(** The unit elected by [writebackStage]: an integer ALU, an FP adder or an
    FP multiplier (by position in its list), or the load/store queue. *)
Inductive Winner : Type :=
| WinALUI (i : nat)
| WinALUFP (i : nat)
| WinMULTFP (i : nat)
| WinLDSTQ.

(** One of the three scanning loops of [writebackStage]:
    [for FU in units: if FU.isResultReady(): temp = FU.getResultID();
     if temp < oldestInst: oldestInst = temp; winningFU = FU].
    The state of the loop is [(winningFU, oldestInst)]; [i] is the position
    of the head of [units] in the whole list. *)
Fixpoint scanUnits (units : list FU) (i : nat) (st : option nat * Z)
  : option (option nat * Z) :=
  match units with
  | [] => Some st
  | fu :: rest =>
      if FU_isResultReady fu then
        temp ← FU_getResultID fu;
        if temp <? st.2 then scanUnits rest (S i) (Some i, temp)
        else scanUnits rest (S i) st
      else scanUnits rest (S i) st
  end.

(** The election of [writebackStage] (after [LDSTQ.checkMMU()]): the three
    loops, each but the first guarded by [if winningFU is None], then the
    load port. *)
Definition electWinner (t : Tomasulo) : option (option Winner) :=
  let oldestInst := 2 ^ 30 in
  '(w1, oldest1) ← scanUnits (ALUIs t) 0 (None, oldestInst);
  match w1 with
  | Some i => Some (Some (WinALUI i))
  | None =>
      '(w2, oldest2) ← scanUnits (ALUFPs t) 0 (None, oldest1);
      match w2 with
      | Some i => Some (Some (WinALUFP i))
      | None =>
          '(w3, oldest3) ← scanUnits (MULTFPs t) 0 (None, oldest2);
          match w3 with
          | Some i => Some (Some (WinMULTFP i))
          | None =>
              if LSQ_isResultReady (LDSTQ t) then Some (Some WinLDSTQ)
              else Some None
          end
      end
  end.

(** [winningFU.getResult()]: the result and the state with the unit
    updated. *)
Definition getWinnerResult (w : Winner) (t : Tomasulo) : option (Tomasulo * (Z * num)) :=
  match w with
  | WinALUI i =>
      fu ← ALUIs t !! i; '(fu', r) ← FU_getResult fu;
      Some (set_ALUIs (<[i := fu']> (ALUIs t)) t, r)
  | WinALUFP i =>
      fu ← ALUFPs t !! i; '(fu', r) ← FU_getResult fu;
      Some (set_ALUFPs (<[i := fu']> (ALUFPs t)) t, r)
  | WinMULTFP i =>
      fu ← MULTFPs t !! i; '(fu', r) ← FU_getResult fu;
      Some (set_MULTFPs (<[i := fu']> (MULTFPs t)) t, r)
  | WinLDSTQ =>
      '(q', r) ← LSQ_getResult (LDSTQ t);
      Some (set_LDSTQ q' t, r)
  end.

(** The broadcast of a result on the three stations and the queue:
    [RS_*.update(name, value); LDSTQ.update(name, value)]. *)
Definition broadcast (name : string) (value : pyval) (t : Tomasulo) : Tomasulo :=
  let t1 := set_RS_ALUIs (RS_update name value (RS_ALUIs t)) t in
  let t2 := set_RS_ALUFPs (RS_update name value (RS_ALUFPs t1)) t1 in
  let t3 := set_RS_MULTFPs (RS_update name value (RS_MULTFPs t2)) t2 in
  set_LDSTQ (LSQ_update name value (LDSTQ t3)) t3.

(** [writebackStage()] *)
Definition writebackStage (t : Tomasulo) : option Tomasulo :=
  let t0 := set_LDSTQ (LSQ_checkMMU (LDSTQ t)) t in
  w ← electWinner t0;
  match w with
  | None => Some t0
  | Some winningFU =>
      '(t1, result) ← getWinnerResult winningFU t0;
      let '(rob', found) := ROB_findAndUpdateEntry result.1 (PNum result.2) (ROB t1) in
      '(dest, name) ← found;
      let t2 := set_ROB rob' t1 in
      let t3 := broadcast name (PNum result.2) t2 in
      let t4 := set_RS_ALUIs (RS_remove result.1 (RS_ALUIs t3)) t3 in
      let t5 := set_RS_ALUFPs (RS_remove result.1 (RS_ALUFPs t4)) t4 in
      let t6 := set_RS_MULTFPs (RS_remove result.1 (RS_MULTFPs t5)) t5 in
      updateOutput result.1 3 t6
  end.

(** [found]: the loop of [commitStage] over [self.LDSTQ.q] looking for
    [entry[0] == resultID and entry[1] == 'SD']. *)
Definition isStore (resultID : Z) (t : Tomasulo) : bool :=
  existsb (λ e, (l0 e =? resultID) && bool_decide (l1 e = "SD")) (LDSTQ_q (LDSTQ t)).

(** The part shared by the two branches of [commitStage]: broadcast the
    head's value under the name ["ROB" + str(self.ROB.q[self.ROB.head][0])],
    pop the head, and reset the RAT entry if it still names this slot.
    Returns the popped entry [result]. *)
Definition retireHead (t : Tomasulo) : option (Tomasulo * ROBEntry) :=
  h ← ROB_head_entry (ROB t);
  let name := "ROB" +:+ pretty (r0 h) in
  let t1 := broadcast name (r2 h) t in
  '(rob', result) ← ROB_commit (ROB t1);
  let t2 := set_ROB rob' t1 in
  let t3 :=
    if py_eq (RAT_get (r1 result) (RAT t2)) (PStr (ROBtag (r4 result)))
    then set_RAT (RAT_set (r1 result) (r1 result) (RAT t2)) t2
    else t2 in
  Some (t3, result).

(** [commitStage()] *)
Definition commitStage (t : Tomasulo) : option Tomasulo :=
  match ROB_canCommit (ROB t) with
  | None => Some t
  | Some resultID =>
      fresh ← isNew resultID t;
      if (fresh : bool) then Some t
      else if isStore resultID t then
        let '(q', ss) := LSQ_issueReadyStore (LDSTQ t) in
        let t1 := set_LDSTQ q' t in
        if 0 <=? ss then
          '(t2, result) ← retireHead t1;
          updateOutput resultID 4 t2
        else Some t1
      else
        '(t2, result) ← retireHead t;
        let t3 :=
          if negb (slot_is_bool (r2 result))
          then set_ARF (ARF_set (r1 result) (r2 result) (ARF t2)) t2
          else t2 in
        updateOutput resultID 4 t3
  end.

(** [outcome != prediction] for the outcome returned by an integer ALU
    (numeric comparison: [True == 1], [False == 0]). *)
Definition outcome_differs (outcome : num) (prediction : bool) : bool :=
  match outcome with
  | NBool b => negb (eqb b prediction)
  | NInt z => negb (z =? (if prediction then 1 else 0))
  | NFloat f =>
      negb (SFeqb f (binary_normalize 53 1024 (if prediction then 1 else 0) 0 false))
  end.

(** The body of [if outcome != prediction] in [checkBranchStage]: the
    squash after a misprediction of branch [BID]. *)
Definition squash (BID : Z) (prediction : bool) (t : Tomasulo) : Tomasulo :=
  let t1 := set_RAT (branch_rollBack BID (branch t)) t in
  let t2 := set_RS_ALUIs (RS_purgeAfterMispredict BID (RS_ALUIs t1)) t1 in
  let t3 := set_RS_ALUFPs (RS_purgeAfterMispredict BID (RS_ALUFPs t2)) t2 in
  let t4 := set_RS_MULTFPs (RS_purgeAfterMispredict BID (RS_MULTFPs t3)) t3 in
  let t5 := set_ALUIs (FU_purgeAfterMispredict BID <$> ALUIs t4) t4 in
  let t6 := set_ALUFPs (FU_purgeAfterMispredict BID <$> ALUFPs t5) t5 in
  let t7 := set_MULTFPs (FU_purgeAfterMispredict BID <$> MULTFPs t6) t6 in
  let t8 := set_LDSTQ (LSQ_purgeAfterMispredict BID (LDSTQ t7)) t7 in
  let t9 := set_ROB (ROB_purgeAfterMispredict BID (ROB t8)) t8 in
  let t10 := set_IQ (IQ_setPC (branch_getMispredictTarget BID (branch t9)) (IQ t9)) t9 in
  let t11 := set_fetchOffset 0 t10 in
  let t12 := set_branch (branch_update BID (if prediction then false else true)
                                       (branch t11)) t11 in
  (* dead = [x for x in self.output.keys() if x > BID]; del self.output[x] *)
  set_output (filter (λ kv : Z * list (option Z), kv.1 ≤ BID) (output t12)) t12.

(** The body of the loop of [checkBranchStage] for the integer ALU at
    position [i]. *)
Definition checkBranchFU (i : nat) (t : Tomasulo) : option Tomasulo :=
  fu ← ALUIs t !! i;
  if FU_isBranchOutcomePending fu then
    '(fu', r) ← FU_getResult fu;
    let '(BID, outcome) := r in
    let t1 := set_ALUIs (<[i := fu']> (ALUIs t)) t in
    let prediction := branch_predict BID (branch t1) in
    let t2 := if outcome_differs outcome prediction then squash BID prediction t1 else t1 in
    let t3 := set_ROB (ROB_findAndUpdateEntry BID (PNum outcome) (ROB t2)).1 t2 in
    Some (set_RS_ALUIs (RS_remove BID (RS_ALUIs t3)) t3)
  else Some t.

(** [checkBranchStage()]: [for FU in self.ALUIs]. *)
Definition checkBranchStage (t : Tomasulo) : option Tomasulo :=
  foldl (λ (acc : option Tomasulo) i, acc ≫= checkBranchFU i) (Some t)
        (seq 0 (length (ALUIs t))).

(** The late forwarding of [issueStage] for branches and arithmetic
    instructions: [if self.ROB.q[self.ROB.head][3]] followed by the two
    comparisons of [f"ROB{self.ROB.head}"] with [entry[3]] and [entry[4]]. *)
Definition backfillSources (rob : ROB_t) (entry : IssueEntry) : option IssueEntry :=
  h ← ROB_head_entry rob;
  if r3 h then
    let tag := PStr (ROBtag (ROB_head rob)) in
    let entry1 :=
      if py_eq tag (e3 entry)
      then mkIssueEntry (e0 entry) (e1 entry) (e2 entry) PNone (e4 entry) (r2 h) (e6 entry)
      else entry in
    Some (if py_eq tag (e4 entry1)
          then mkIssueEntry (e0 entry1) (e1 entry1) (e2 entry1) (e3 entry1) PNone
                            (e5 entry1) (r2 h)
          else entry1)
  else Some entry.

(** The late forwarding of [issueStage] for [LD] and [SD]: the store data
    in [entry[1]] becomes [float(value)], the base address in [entry[3]]
    becomes [4 * int(value)]. *)
Definition backfillMemory (nextName : string) (rob : ROB_t) (entry : IssueEntry)
  : option IssueEntry :=
  h ← ROB_head_entry rob;
  if r3 h then
    let tag := PStr (ROBtag (ROB_head rob)) in
    entry1 ←
      (if bool_decide (nextName = "SD") && py_eq tag (e1 entry)
       then f ← float_of (r2 h);
            Some (mkIssueEntry (e0 entry) (PNum (NFloat f)) (e2 entry) (e3 entry)
                               (e4 entry) (e5 entry) (e6 entry))
       else Some entry);
    if py_eq tag (e3 entry1)
    then z ← int_of (r2 h);
         Some (mkIssueEntry (e0 entry1) (e1 entry1) (e2 entry1) (PNum (NInt (4 * z)))
                            (e4 entry1) (e5 entry1) (e6 entry1))
    else Some entry1
  else Some entry.

(** Capture of one source: [if map == operand: value = self.ARF.get(operand)
    else: tag = map].  Returns (tag slot, value slot). *)
Definition captureSource (map operand : pyval) (t : Tomasulo) : pyval * pyval :=
  if py_eq map operand then (PNone, PNum (ARF_get operand (ARF t)))
  else (map, PNone).

(** The preparation of the RS/LSQ entry in [issueStage]: from
    [entry = [nextInst[0], ROBId, nextInst[1][0], None, None, None, None]]
    to the late forwarding. *)
Definition prepareEntry (nextName : string) (nextInst : Inst) (ROBId : pyval)
    (t : Tomasulo) : option IssueEntry :=
  let entry := mkIssueEntry (inst_ID nextInst) ROBId (inst_op nextInst)
                            PNone PNone PNone PNone in
  if String.prefix "B" nextName then
    let s1 := captureSource (RAT_get (inst_1 nextInst) (RAT t)) (inst_1 nextInst) t in
    let s2 := captureSource (RAT_get (inst_2 nextInst) (RAT t)) (inst_2 nextInst) t in
    backfillSources (ROB t)
      (mkIssueEntry (e0 entry) (e1 entry) (e2 entry) s1.1 s2.1 s1.2 s2.2)
  else if bool_decide (nextName = "SD") || bool_decide (nextName = "LD") then
    base ←
      (if py_eq (RAT_get (inst_3 nextInst) (RAT t)) (inst_3 nextInst)
       then z ← py_int (ARF_get (inst_3 nextInst) (ARF t)); Some (PNum (NInt z))
       else Some (RAT_get (inst_3 nextInst) (RAT t)));
    data ←
      (if bool_decide (nextName = "SD") then
         if py_eq (RAT_get (inst_1 nextInst) (RAT t)) (inst_1 nextInst)
         then f ← py_float (ARF_get (inst_1 nextInst) (ARF t)); Some (PNum (NFloat f))
         else Some (RAT_get (inst_1 nextInst) (RAT t))
       else Some (e1 entry));
    backfillMemory nextName (ROB t)
      (mkIssueEntry (e0 entry) data (e2 entry) base (inst_2 nextInst) (e5 entry) (e6 entry))
  else
    let mapping := RAT_getMapping nextInst (RAT t) in
    let s1 := captureSource (inst_2 mapping) (inst_2 nextInst) t in
    let s2 := captureSource (inst_3 mapping) (inst_3 nextInst) t in
    backfillSources (ROB t)
      (mkIssueEntry (e0 entry) (e1 entry) (e2 entry) s1.1 s2.1 s1.2 s2.2).

(** The fetch of [issueStage]: the structure that will receive the
    instruction named [nextName] must not be full, otherwise the stage
    returns (inner [None]).  For a branch the checkpoint request, the
    prediction, the fetch offset and the misprediction target are set. *)
Definition fetchNext (nextName : string) (t : Tomasulo)
  : option (option (Tomasulo * Inst)) :=
  let plain (full : bool) :=
    if negb full then
      '(iq', nextInst) ← IQ_fetch (fetchOffset t) (IQ t);
      Some (Some (set_fetchOffset 0 (set_IQ iq' t), nextInst))
    else Some None in
  if bool_decide (nextName = "LD") || bool_decide (nextName = "SD") then
    plain (LSQ_isFull (LDSTQ t))
  else if bool_decide (nextName = "ADD.D") || bool_decide (nextName = "SUB.D") then
    plain (RS_isFull (RS_ALUFPs t))
  else if bool_decide (nextName = "MULT.D") then
    plain (RS_isFull (RS_MULTFPs t))
  else if bool_decide (nextName = "BNE") || bool_decide (nextName = "BEQ") then
    if negb (RS_isFull (RS_ALUIs t)) then
      '(iq', nextInst) ← IQ_fetch (fetchOffset t) (IQ t);
      let t1 := set_RATBID (inst_ID nextInst) (set_saveRAT true (set_IQ iq' t)) in
      target ← int_of (inst_3 nextInst);
      if branch_predict (inst_ID nextInst) (branch t1) then
        let t2 := set_fetchOffset target t1 in
        Some (Some (set_branch (branch_setMispredictTarget (inst_ID nextInst)
                                  (IQ_next (IQ t2)) (branch t2)) t2, nextInst))
      else
        let t2 := set_fetchOffset 0 t1 in
        Some (Some (set_branch (branch_setMispredictTarget (inst_ID nextInst)
                                  (IQ_next (IQ t2) + target) (branch t2)) t2, nextInst))
    else Some None
  else
    plain (RS_isFull (RS_ALUIs t)).

(** [issueStage()] *)
Definition issueStage (t : Tomasulo) : option Tomasulo :=
  if IQ_empty (fetchOffset t) (IQ t) then Some t
  else if negb (ROB_isFull (ROB t)) then
    nextName ← IQ_peek_1 (fetchOffset t) (IQ t);
    fetched ← fetchNext nextName t;
    match fetched with
    | None => Some t
    | Some (t1, nextInst) =>
        '(rob', ROBId) ← ROB_add (inst_ID nextInst) (inst_1 nextInst) (ROB t1);
        let t2 := set_ROB rob' t1 in
        entry ← prepareEntry nextName nextInst (PNum (NInt ROBId)) t2;
        let t3 :=
          if negb (String.prefix "B" nextName || bool_decide (nextName = "SD"))
          then set_RAT (RAT_set (inst_1 nextInst) (PNum (NInt ROBId)) (RAT t2)) t2
          else t2 in
        let t4 :=
          if bool_decide (nextName = "ADD.D") || bool_decide (nextName = "SUB.D")
          then set_RS_ALUFPs (RS_add entry (RS_ALUFPs t3)) t3
          else if bool_decide (nextName = "MULT.D")
          then set_RS_MULTFPs (RS_add entry (RS_MULTFPs t3)) t3
          else if bool_decide (nextName = "SD") || bool_decide (nextName = "LD")
          then set_LDSTQ (LSQ_add (e0 entry) (e2 entry) (e1 entry) (e3 entry) (e4 entry)
                                  (LDSTQ t3)) t3
          else set_RS_ALUIs (RS_add entry (RS_ALUIs t3)) t3 in
        updateOutput (e0 entry) 0 t4
    end
  else Some t.

(** The list comprehension of [executeStage]:
    [[x for x in rs.q if x[5] is not None and x[6] is not None and
      not x[7] and not self.isNew(x[0])]]. *)
Fixpoint readyEntries (l : list RSEntry) (t : Tomasulo) : option (list RSEntry) :=
  match l with
  | [] => Some []
  | x :: rest =>
      keep ←
        (if is_not_None (x5 x) && is_not_None (x6 x) && negb (x7 x)
         then negb <$> isNew (x0 x) t
         else Some false);
      rest' ← readyEntries rest t;
      Some (if (keep : bool) then x :: rest' else rest')
  end.

(** The address computation of [executeStage]: the loop over
    [enumerate(self.LDSTQ.q)], left at the first entry that is not new,
    holds an integer in [entry[3]] and has no computed address. *)
Fixpoint computeAddress (l : list LSQEntry) (i : nat) (t : Tomasulo) : option Tomasulo :=
  match l with
  | [] => Some t
  | entry :: rest =>
      fresh ← isNew (l0 entry) t;
      if negb fresh && slot_is_int (l3 entry) && negb (l5 entry) then
        updateOutput (l0 entry) 1 (set_LDSTQ (LSQ_executeStage i (LDSTQ t)) t)
      else computeAddress rest (S i) t
  end.

(** [for rb in self.ROB.q: if rb[0] == entry[0] and not rb[3]: rb[3] = True]
    (free slots hold no entry). *)
Definition markStoreReady (id : Z) (rob : ROB_t) : ROB_t :=
  {| ROB_q := (λ s, match s with
                    | Some rb =>
                        if (r0 rb =? id) && negb (r3 rb)
                        then Some (mkROBEntry (r0 rb) (r1 rb) (r2 rb) true (r4 rb))
                        else Some rb
                    | None => None
                    end) <$> ROB_q rob;
     ROB_head := ROB_head rob; ROB_tail := ROB_tail rob |}.

(** The loop of [executeStage] that marks ready stores in the ROB. *)
Definition markStores (t : Tomasulo) : Tomasulo :=
  foldl (λ (acc : Tomasulo) entry,
           if bool_decide (l1 entry = "SD") && LSQ_instructionReady entry (LDSTQ acc)
           then set_ROB (markStoreReady (l0 entry) (ROB acc)) acc
           else acc)
        t (LDSTQ_q (LDSTQ t)).

(** One dispatch loop of [executeStage]: [ready] is the part of the ready
    list from [curPos] on; integer ALUs receive [int(x[5])], [int(x[6])].
    Returns the units, the state and the IDs appended to
    [markAsExecuting]. *)
Fixpoint dispatch (toInt : bool) (units : list FU) (ready : list RSEntry)
    (t : Tomasulo) : option (list FU * Tomasulo * list Z) :=
  match units, ready with
  | [], _ => Some ([], t, [])
  | _, [] => Some (units, t, [])
  | fu :: rest, x :: ready' =>
      if negb (FU_busy fu) then
        a ← (if toInt then (λ z, PNum (NInt z)) <$> int_of (x5 x) else Some (x5 x));
        b ← (if toInt then (λ z, PNum (NInt z)) <$> int_of (x6 x) else Some (x6 x));
        t1 ← updateOutput (x0 x) 1 t;
        '(rest', t2, marked) ← dispatch toInt rest ready' t1;
        Some (FU_execute (x0 x) (x2 x) a b fu :: rest', t2, x0 x :: marked)
      else
        '(rest', t2, marked) ← dispatch toInt rest ready t;
        Some (fu :: rest', t2, marked)
  end.

(** [executeStage()] *)
Definition executeStage (t : Tomasulo) : option Tomasulo :=
  ready_ALUIs ← readyEntries (RS_q (RS_ALUIs t)) t;
  ready_ALUFPs ← readyEntries (RS_q (RS_ALUFPs t)) t;
  ready_MULTFPs ← readyEntries (RS_q (RS_MULTFPs t)) t;
  t1 ← (if negb (LSQ_busy (LDSTQ t)) then computeAddress (LDSTQ_q (LDSTQ t)) 0 t
        else Some t);
  let t2 := markStores t1 in
  '(u1, t3, m1) ← dispatch true (ALUIs t2) ready_ALUIs t2;
  let t3' := set_ALUIs u1 t3 in
  '(u2, t4, m2) ← dispatch false (ALUFPs t3') ready_ALUFPs t3';
  let t4' := set_ALUFPs u2 t4 in
  '(u3, t5, m3) ← dispatch false (MULTFPs t4') ready_MULTFPs t4';
  let t5' := set_MULTFPs u3 t5 in
  Some (foldl (λ (acc : Tomasulo) item,
                 let a1 := set_RS_ALUIs (RS_markAsExecuting item (RS_ALUIs acc)) acc in
                 let a2 := set_RS_ALUFPs (RS_markAsExecuting item (RS_ALUFPs a1)) a1 in
                 set_RS_MULTFPs (RS_markAsExecuting item (RS_MULTFPs a2)) a2)
              t5' (m1 ++ m2 ++ m3)).

(** The body of the [while] loop of [runSimulation], one cycle. *)
Definition runCycle (t : Tomasulo) : option Tomasulo :=
  let t0 := set_LDSTQ (LSQ_checkMMU (LDSTQ t)) t in
  t1 ← issueStage t0;
  t2 ← executeStage t1;
  t3 ← checkBranchStage t2;
  t4 ← memoryStage t3;
  t5 ← writebackStage t4;
  t6 ← commitStage t5;
  t7 ← updateExitConditions (advanceTime t6);
  Some (if saveRAT t7
        then set_saveRAT false
               (set_branch (branch_saveRAT (RATBID t7) (RAT_getState (RAT t7)) (branch t7)) t7)
        else t7).

(** How a bounded run of the simulation ends. *)
Inductive Run : Type :=
| Finished (t : Tomasulo)
| Raised
| Running (t : Tomasulo).

(** [runSimulation()]: [while not self.done: ...], for at most [fuel]
    cycles. *)
Fixpoint runSimulation (fuel : nat) (t : Tomasulo) : Run :=
  if done t then Finished t
  else
    match fuel with
    | O => Running t
    | S fuel' =>
        match runCycle t with
        | Some t' => runSimulation fuel' t'
        | None => Raised
        end
    end.

(** A call of the memory stage that took the memory port: the value it
    returned is an instruction ID ([ret >= 0]). *)
Definition took_port (c : LSQCall) : bool :=
  match c with
  | CallDoForwards ret => 0 <=? ret
  | CallIssueReadyLoad ret => 0 <=? ret
  end.

(** Every instruction of the completion record has a commit cycle
    ([x[4] is not None]). *)
Definition all_committed (t : Tomasulo) : Prop :=
  ∀ ID rec, output t !! ID = Some rec → ∃ c, getitem rec 4 = Some (Some c).

(** Every completion record has the five slots [updateOutput] creates. *)
Definition records_ok (t : Tomasulo) : Prop :=
  ∀ ID rec, output t !! ID = Some rec → length rec = 5%nat.

(** Unit [i] of [units] reports a ready result for instruction [id]. *)
Definition ready_at (units : list FU) (i : nat) (id : Z) : Prop :=
  ∃ fu, units !! i = Some fu ∧ FU_isResultReady fu = true ∧ FU_getResultID fu = Some id.

(** Unit [i] holds the oldest ready result of its class: its ID is below
    the initial [oldestInst = 2**30], no ready unit of the class has a
    smaller ID, and the units before it have larger ones. *)
Definition oldest_in (units : list FU) (i : nat) (id : Z) : Prop :=
  ready_at units i id ∧ id < 2 ^ 30 ∧
  ∀ j id', ready_at units j id' → id ≤ id' ∧ ((j < i)%nat → id < id').

(** No unit of the class can be elected. *)
Definition none_electable (units : list FU) : Prop :=
  ∀ j id', ready_at units j id' → 2 ^ 30 ≤ id'.

(** [getResultID()] of an elected functional unit. *)
Definition winner_id (w : Winner) (t : Tomasulo) : option Z :=
  match w with
  | WinALUI i => ALUIs t !! i ≫= FU_getResultID
  | WinALUFP i => ALUFPs t !! i ≫= FU_getResultID
  | WinMULTFP i => MULTFPs t !! i ≫= FU_getResultID
  | WinLDSTQ => None
  end.

(** The election as the spec words it: the elected result has the smallest
    instruction ID among the functional units holding a ready result. *)
Definition elects_smallest_ID (t : Tomasulo) : Prop :=
  ∀ w id, electWinner t = Some (Some w) → winner_id w t = Some id →
  ∀ j id', ready_at (ALUIs t) j id' ∨ ready_at (ALUFPs t) j id' ∨
           ready_at (MULTFPs t) j id' → id ≤ id'.

(** No functional unit holds an operation or a result younger than [B]. *)
Definition FU_no_younger (B : Z) (fu : FU) : Prop :=
  Forall (λ o : Z * num * Z, o.1.1 ≤ B) (FU_pipeline fu) ∧
  Forall (λ r : Z * num, r.1 ≤ B) (FU_buffer fu).

(** A ROB slot is free or holds an instruction not younger than [B]. *)
Definition slot_le (B : Z) (s : option ROBEntry) : Prop :=
  match s with Some e => r0 e ≤ B | None => True end.

(** No structure holds an entry with an instruction ID greater than [B]:
    the three reservation stations, the functional units, the load/store
    queue (its entries, its memory operation in flight and its buffered
    results), the ROB and the completion record. *)
Definition no_younger (B : Z) (t : Tomasulo) : Prop :=
  Forall (λ e, x0 e ≤ B) (RS_q (RS_ALUIs t)) ∧
  Forall (λ e, x0 e ≤ B) (RS_q (RS_ALUFPs t)) ∧
  Forall (λ e, x0 e ≤ B) (RS_q (RS_MULTFPs t)) ∧
  Forall (FU_no_younger B) (ALUIs t) ∧
  Forall (FU_no_younger B) (ALUFPs t) ∧
  Forall (FU_no_younger B) (MULTFPs t) ∧
  Forall (λ e, l0 e ≤ B) (LDSTQ_q (LDSTQ t)) ∧
  Forall (λ id, id ≤ B) (LSQ_pending (LDSTQ t).2) ∧
  Forall (slot_le B) (ROB_q (ROB t)) ∧
  (∀ ID rec, output t !! ID = Some rec → ID ≤ B).

(** The integer ALU at position [i] exposes the outcome of branch [B], and
    the outcome differs from the stored prediction: the loop body of
    [checkBranchStage] takes the [if outcome != prediction] branch. *)
Definition mispredicts (i : nat) (B : Z) (t : Tomasulo) : Prop :=
  ∃ fu fu' outcome,
    ALUIs t !! i = Some fu ∧ FU_isBranchOutcomePending fu = true ∧
    FU_getResult fu = Some (fu', (B, outcome)) ∧
    outcome_differs outcome (branch_predict B (branch t)) = true.

(** The clock and the architectural register file of [t'] are those of
    [t]. *)
Definition kept (t t' : Tomasulo) : Prop :=
  cycle t' = cycle t ∧ ARF t' = ARF t.

End Orchestrator.

End Tomasulo.

(** ** A concrete set of collaborators

    Small stand-ins for the classes missing from src/, used to run the
    orchestrator on explicit states: an instruction list with a program
    counter, association lists for the RAT and the ARF, a table of
    predictions, units that finish in one cycle, and a load/store queue whose
    memory-stage answers are read from its state. *)

Module Scripted.
Import Tomasulo.

Fixpoint assoc {A} (k : pyval) (l : list (pyval * A)) : option A :=
  match l with
  | [] => None
  | (k', v) :: rest => if py_eq k k' then Some v else assoc k rest
  end.

Fixpoint assocZ {A} (k : Z) (l : list (Z * A)) : option A :=
  match l with
  | [] => None
  | (k', v) :: rest => if k =? k' then Some v else assocZ k rest
  end.

(** Answers of the queue: the ID [doForwards] and [issueReadyLoad] will
    return (each answer is given once, then -1), the ID [issueReadyStore]
    returns, and the buffer of loaded results. *)
Record Answers : Type := mkAnswers {
  forwards : Z;
  readyLoad : Z;
  readyStore : Z;
  loaded : list (Z * num)
}.

Definition collaborators : Collaborators := {|
  IQ_t := (list Inst * Z)%type;
  RAT_t := list (pyval * pyval);
  ARF_t := list (pyval * pyval);
  BranchUnit := list (Z * bool);
  LSQInternal := Answers;
  IQ_empty := λ off iq, Z.of_nat (length iq.1) <=? iq.2 + off;
  IQ_peek_1 := λ off iq, inst_op <$> (iq.1 !! Z.to_nat (iq.2 + off));
  IQ_fetch := λ off iq,
    i ← iq.1 !! Z.to_nat (iq.2 + off); Some ((iq.1, iq.2 + off + 1), i);
  IQ_next := λ iq, iq.2;
  IQ_setPC := λ pc iq, (iq.1, pc);
  RAT_get := λ r rat, default r (assoc r rat);
  RAT_set := λ r v rat,
    (r, match v with PNum (NInt k) => PStr (ROBtag k) | _ => v end) :: rat;
  RAT_getMapping := λ i rat,
    mkInst (inst_ID i) (inst_op i) (inst_1 i)
           (default (inst_2 i) (assoc (inst_2 i) rat))
           (default (inst_3 i) (assoc (inst_3 i) rat));
  RAT_getState := λ rat, rat;
  ARF_get := λ r arf, match assoc r arf with Some (PNum n) => n | _ => NInt 0 end;
  ARF_set := λ r v arf, (r, v) :: arf;
  branch_predict := λ b bu, default false (assocZ b bu);
  branch_saveRAT := λ _ _ bu, bu;
  branch_setMispredictTarget := λ _ _ bu, bu;
  branch_getMispredictTarget := λ _ _, 0;
  branch_rollBack := λ _ _, [];
  branch_update := λ b o bu, (b, o) :: bu;
  FU_busy := λ fu, match FU_pipeline fu with [] => false | _ => true end;
  FU_execute := λ id _ _ _ fu,
    mkFU (FU_pipeline fu ++ [(id, NInt 0, 1)]) (FU_buffer fu);
  FU_advanceTime := λ fu,
    mkFU [] (FU_buffer fu ++ ((λ o : Z * num * Z, o.1) <$> FU_pipeline fu));
  LSQ_checkMMU := λ l, l;
  LSQ_isFull := λ _, false;
  LSQ_add := λ id op data base disp l,
    (l.1 ++ [mkLSQEntry id op data base disp false], l.2);
  LSQ_busy := λ _, false;
  LSQ_executeStage := λ _ l, l;
  LSQ_instructionReady := λ e _, l5 e;
  LSQ_doForwards := λ l,
    ((l.1, mkAnswers (-1) (readyLoad l.2) (readyStore l.2) (loaded l.2)), forwards l.2);
  LSQ_issueReadyLoad := λ l,
    ((l.1, mkAnswers (forwards l.2) (-1) (readyStore l.2) (loaded l.2)), readyLoad l.2);
  LSQ_issueReadyStore := λ l, (l, readyStore l.2);
  LSQ_isResultReady := λ l, match loaded l.2 with [] => false | _ => true end;
  LSQ_getResult := λ l,
    match loaded l.2 with
    | r :: rest => Some ((l.1, mkAnswers (forwards l.2) (readyLoad l.2) (readyStore l.2) rest), r)
    | [] => None
    end;
  LSQ_update := λ _ _ l, l;
  LSQ_cancelAfter := λ b a,
    mkAnswers (forwards a) (readyLoad a) (readyStore a)
              (filter (λ r : Z * num, r.1 ≤ b) (loaded a));
  LSQ_pending := λ a, (loaded a).*1;
  LSQ_advanceTime := λ l, l;
  memory_advanceTime := λ a, a
|}.

(** An idle core: nothing in flight, cycle 0. *)
Definition idle : @Tomasulo collaborators :=
  @mkTomasulo collaborators ∅ ([], 0) ([], mkAnswers (-1) (-1) (-1) [])
    (mkROB [None; None; None; None] 0 0) [] []
    (mkRSt 4 []) (mkRSt 4 []) (mkRSt 4 [])
    [mkFU [] []] [mkFU [] []] [mkFU [] []] [] 0 0 false false 0.

(** One integer ALU holding the result of instruction 5 and one FP adder
    holding the result of the older instruction 2. *)
Definition two_results : @Tomasulo collaborators :=
  set_ALUFPs [mkFU [] [(2, NFloat (S754_zero false))]]
    (set_ALUIs [mkFU [] [(5, NInt 1)]] idle).

(** The store of instruction 3 at the head of the ROB, marked done, with
    its address computed in cycle 1; the queue accepts the store. *)
Definition store_at_head : @Tomasulo collaborators :=
  set_cycle 5
    (set_output (<[3 := [Some 0; Some 1; None; None; None]]> ∅)
       (set_LDSTQ (([mkLSQEntry 3 "SD" (PNum (NFloat (S754_zero false)))
                                (PNum (NInt 16)) (PNum (NInt 0)) true],
                    mkAnswers (-1) (-1) 3 []) : @LdStQ collaborators)
          (set_ROB (mkROB [Some (mkROBEntry 3 (PStr "F0") PNone true 0); None; None; None] 0 1)
             idle))).

(** [LD R2, 0(R1)], instruction 9. *)
Definition load_R1 : Inst :=
  mkInst 9 "LD" (PStr "R2") (PNum (NInt 0)) (PStr "R1").

(** The producer of R1 sits at the head of the ROB, slot 0, done with the
    value 16, and the RAT still maps R1 to ROB0. *)
Definition base_in_ROB : @Tomasulo collaborators :=
  set_RAT ([(PStr "R1", PStr "ROB0")] : @RAT_t collaborators)
    (set_ROB (mkROB [Some (mkROBEntry 0 (PStr "R1") (PNum (NInt 16)) true 0);
                     None; None; None] 0 1)
       idle).

(** The same ROB, with R1 unmapped in the RAT and holding 16 in the ARF. *)
Definition base_in_ARF : @Tomasulo collaborators :=
  set_ARF ([(PStr "R1", PNum (NInt 16))] : @ARF_t collaborators)
    (set_ROB (mkROB [Some (mkROBEntry 0 (PStr "R1") (PNum (NInt 16)) true 0);
                     None; None; None] 0 1)
       idle).

(** The integer ALU exposes the outcome [True] of branch 4, predicted not
    taken; the younger instructions 5 and 6 wait in a reservation station,
    in the ROB and in the completion record. *)
Definition mispredicted_branch : @Tomasulo collaborators :=
  set_cycle 7
    (set_output (<[4 := [Some 2; Some 5; None; None; None]]>
                   (<[5 := [Some 3; None; None; None; None]]>
                      (<[6 := [Some 4; None; None; None; None]]> ∅)))
       (set_ALUIs [mkFU [] [(4, NBool true)]]
          (set_RS_ALUIs (mkRSt 4 [mkRSEntry 4 (PNum (NInt 0)) "BNE" PNone PNone
                                            (PNum (NInt 1)) (PNum (NInt 2)) true;
                                  mkRSEntry 5 (PNum (NInt 1)) "ADD" (PStr "ROB0") PNone
                                            PNone (PNum (NInt 2)) false])
             (set_RS_ALUFPs (mkRSt 4 [mkRSEntry 6 (PNum (NInt 2)) "ADD.D" PNone PNone
                                                (PNum (NInt 1)) (PNum (NInt 2)) false])
                (set_ROB (mkROB [Some (mkROBEntry 4 (PStr "R1") PNone false 0);
                                 Some (mkROBEntry 5 (PStr "R2") PNone false 1);
                                 Some (mkROBEntry 6 (PStr "F2") PNone false 2);
                                 None] 0 3)
                   idle))))).

(** The store of instruction 3 with its base address known and its
    effective address not yet computed. *)
Definition address_pending : @Tomasulo collaborators :=
  set_LDSTQ (([mkLSQEntry 3 "SD" (PNum (NFloat (S754_zero false)))
                          (PNum (NInt 16)) (PNum (NInt 0)) false],
              mkAnswers (-1) (-1) (-1) []) : @LdStQ collaborators)
    store_at_head.

(** [ADD R1, R2, R3] waits in the instruction queue while the only slot of
    the integer station is taken. *)
Definition stalled_issue : @Tomasulo collaborators :=
  set_IQ (([mkInst 1 "ADD" (PStr "R1") (PStr "R2") (PStr "R3")], 0) : @IQ_t collaborators)
    (set_RS_ALUIs (mkRSt 1 [mkRSEntry 0 (PNum (NInt 0)) "ADD" PNone PNone
                                      (PNum (NInt 1)) (PNum (NInt 2)) true])
       idle).

(** The core with the mispredicted branch 4, with the younger load 9 in the
    load/store queue and its result waiting in the queue's buffer. *)
Definition mispredicted_with_load : @Tomasulo collaborators :=
  set_LDSTQ (([mkLSQEntry 3 "LD" PNone (PNum (NInt 8)) (PNum (NInt 0)) true;
               mkLSQEntry 9 "LD" PNone (PNum (NInt 16)) (PNum (NInt 0)) true],
              mkAnswers (-1) (-1) (-1) [(3, NInt 1); (9, NInt 2)]) : @LdStQ collaborators)
    mispredicted_branch.

(** The load of instruction 7 can be forwarded and the load of instruction 8
    can be issued to the memory; both had their address computed in an
    earlier cycle. *)
Definition forward_and_load : @Tomasulo collaborators :=
  set_cycle 5
    (set_output (<[7 := [Some 1; Some 2; None; None; None]]>
                   (<[8 := [Some 2; Some 3; None; None; None]]> ∅))
       (set_LDSTQ (([mkLSQEntry 7 "LD" PNone (PNum (NInt 8)) (PNum (NInt 0)) true;
                     mkLSQEntry 8 "LD" PNone (PNum (NInt 16)) (PNum (NInt 0)) true],
                    mkAnswers 7 8 (-1) []) : @LdStQ collaborators)
          idle)).

(** Instruction 2, an FP addition, and the younger instruction 5, an
    integer addition, both in the ROB, finish in the same cycle: the FP
    adder holds the result of 2 and the integer ALU the result of 5. *)
Definition older_FP_result : @Tomasulo collaborators :=
  set_cycle 6
    (set_output (<[2 := [Some 0; Some 1; None; None; None]]>
                   (<[5 := [Some 3; Some 4; None; None; None]]> ∅))
       (set_ROB (mkROB [Some (mkROBEntry 2 (PStr "F2") PNone false 0);
                        Some (mkROBEntry 5 (PStr "R1") PNone false 1);
                        None; None] 0 2)
          two_results)).

End Scripted.

(** * Properties *)

(** ** Python subscripts *)

Lemma resolve_index_lt n i k : resolve_index n i = Some k → (k < n)%nat.
Proof.
  unfold resolve_index. intros Hr.
  destruct ((0 <=? i) && (i <? Z.of_nat n)) eqn:E1.
  - inversion Hr; subst. apply andb_prop in E1 as [? ?]. lia.
  - destruct ((- Z.of_nat n <=? i) && (i <? 0)) eqn:E2; [|discriminate].
    inversion Hr; subst. apply andb_prop in E2 as [? ?]. lia.
Qed.

Lemma resolve_index_nonneg n i :
  0 ≤ i → i < Z.of_nat n → resolve_index n i = Some (Z.to_nat i).
Proof.
  intros H0 H1. unfold resolve_index.
  replace (0 <=? i) with true by (symmetry; apply Z.leb_le; lia).
  replace (i <? Z.of_nat n) with true by (symmetry; apply Z.ltb_lt; lia).
  reflexivity.
Qed.

Lemma getitem_nonneg {A} (l : list A) i :
  0 ≤ i → i < Z.of_nat (length l) → getitem l i = l !! Z.to_nat i.
Proof. intros. unfold getitem. rewrite resolve_index_nonneg by lia. reflexivity. Qed.

Lemma setitem_nonneg {A} (l : list A) i v :
  0 ≤ i → i < Z.of_nat (length l) → setitem l i v = Some (<[Z.to_nat i := v]> l).
Proof. intros. unfold setitem. rewrite resolve_index_nonneg by lia. reflexivity. Qed.

Lemma setitem_Some {A} (l l' : list A) i v :
  setitem l i v = Some l' →
  ∃ k, resolve_index (length l) i = Some k ∧ (k < length l)%nat ∧ l' = <[k := v]> l.
Proof.
  unfold setitem. destruct (resolve_index (length l) i) as [k|] eqn:E; [|discriminate].
  intros [= <-]. exists k. split; [done|]. split; [|done].
  by eapply resolve_index_lt.
Qed.

Lemma getitem_is_Some {A} (l : list A) i :
  - Z.of_nat (length l) ≤ i → i < Z.of_nat (length l) → is_Some (getitem l i).
Proof.
  intros Hlo Hhi. unfold getitem, resolve_index.
  destruct (0 <=? i) eqn:E0.
  - apply Z.leb_le in E0.
    replace (i <? Z.of_nat (length l)) with true by (symmetry; apply Z.ltb_lt; lia).
    simpl. apply lookup_lt_is_Some. lia.
  - apply Z.leb_gt in E0. simpl.
    replace (- Z.of_nat (length l) <=? i) with true by (symmetry; apply Z.leb_le; lia).
    replace (i <? 0) with true by (symmetry; apply Z.ltb_lt; lia).
    simpl. apply lookup_lt_is_Some. lia.
Qed.

(** ** src/MemoryUnit.py *)

Section MemoryUnitProps.
Import MemoryUnit.

(** The range check of an integer write: below 0 and above 256 the call
    raises the diagnostic that names the address, and changes nothing. *)
Lemma mem_write_int_outrange addr z self :
  addr < 0 ∨ 256 < addr →
  mem_write addr (NInt z) self = (self, Some (ValueError (outrange_msg addr))).
Proof.
  intros Hr. unfold mem_write, mem_write_int. simpl.
  replace ((addr >? 256) || (addr <? 0)) with true; [reflexivity|].
  symmetry. apply orb_true_iff. destruct Hr.
  - right. apply Z.ltb_lt. lia.
  - left. apply Z.gtb_lt. lia.
Qed.

(** The range check of a double write: below 0 and above 252. *)
Lemma mem_write_float_outrange addr f self :
  addr < 0 ∨ 252 < addr →
  mem_write addr (NFloat f) self = (self, Some (ValueError (outrange_msg addr))).
Proof.
  intros Hr. unfold mem_write, mem_write_float. simpl.
  replace ((addr >? 252) || (addr <? 0)) with true; [reflexivity|].
  symmetry. apply orb_true_iff. destruct Hr.
  - right. apply Z.ltb_lt. lia.
  - left. apply Z.gtb_lt. lia.
Qed.

(** Whatever the outcome, [mem_write] changes at most the addressed word of
    [self.memory]. *)
Lemma mem_write_frame addr value self k :
  k ≠ Z.to_nat (int_div4 addr) → 0 ≤ addr →
  memory (mem_write addr value self).1 !! k = memory self !! k.
Proof.
  intros Hk Haddr.
  assert (Hq : 0 ≤ int_div4 addr) by (unfold int_div4; apply Z.quot_pos; lia).
  assert (Hset : ∀ (m m' : list num) v,
             setitem m (int_div4 addr) v = Some m' → m' !! k = m !! k).
  { intros m m' v Hs. apply setitem_Some in Hs as (j & Hj & _ & ->).
    unfold resolve_index in Hj.
    replace (0 <=? int_div4 addr) with true in Hj by (symmetry; apply Z.leb_le; lia).
    destruct (int_div4 addr <? Z.of_nat (length m)); simpl in Hj.
    - inversion Hj; subst. by apply list_lookup_insert_ne.
    - replace (int_div4 addr <? 0) with false in Hj by (symmetry; apply Z.ltb_ge; lia).
      rewrite andb_false_r in Hj. discriminate. }
  unfold mem_write.
  destruct (isinstance_int value) eqn:Ei.
  - assert (isinstance_float value = false) as Ef by (by destruct value).
    unfold mem_write_int.
    destruct ((addr >? 256) || (addr <? 0)); simpl; [done|].
    destruct (getitem (flag self) (int_div4 addr)) as [fl|]; simpl; [|done].
    destruct (negb (fl =? 0)).
    + destruct (setitem (memory self) (int_div4 addr) value) eqn:Es; simpl; [|done].
      by eapply Hset.
    + destruct (setitem (memory self) (int_div4 addr) value) eqn:Es; simpl.
      * rewrite Ef. simpl. by eapply Hset.
      * done.
  - destruct (isinstance_float value); simpl; [|done].
    unfold mem_write_float.
    destruct ((addr >? 252) || (addr <? 0)); simpl; [done|].
    destruct (setitem (memory self) (int_div4 addr) value) eqn:Es; simpl; [|done].
    destruct (setitem (flag self) (int_div4 addr) 1) as [f1|] eqn:Ef1; simpl.
    + destruct (setitem f1 (int_div4 addr) (-1)); simpl; by eapply Hset.
    + by eapply Hset.
Qed.

(** C4 (the code departs from the claim).  The claim asks every address
    outside 0..255 to abort an integer write, and every such address to abort
    a read, with the diagnostic naming the address.  The check of
    [mem_write] is [addr > 256], so address 256 passes it and the call ends
    on the subscript [self.flag[64]] with an [IndexError] that names no
    address; [mem_read] has no check, so address -4 silently reads the last
    word and address 256 ends on an [IndexError]. *)
Theorem mem_range_check_gaps :
  mem_write 256 (NInt 5) init = (init, Some IndexError) ∧
  mem_read (-4) (mem_write 252 (NInt 7) init).1 = Ok (NInt 7) ∧
  mem_read 256 init = Raise IndexError.
Proof. repeat split; vm_compute; reflexivity. Qed.

End MemoryUnitProps.

(** ** src/ReservationStation.py *)

Section ReservationStationProps.
Import ReservationStation.


Lemma update_entry_updated t v e : updated_by t v e (update_entry (Some t) (Some v) e).
Proof.
  unfold updated_by, update_entry.
  destruct (decide (TAG_I e = Some t)) as [Hi|Hi]; simpl;
    destruct (decide (TAG_J e = Some t)) as [Hj|Hj]; simpl; auto.
Qed.

Lemma update_entry_ok t v e : entry_ok e → entry_ok (update_entry (Some t) (Some v) e).
Proof.
  intros [Hi Hj]. unfold update_entry, entry_ok, one_set in *.
  destruct (decide (TAG_I e = Some t)); simpl;
    destruct (decide (TAG_J e = Some t)); simpl; split; auto; left; split; congruence.
Qed.

(** C7.  After [update(t, v)], entry by entry and in the same order: a
    source whose tag was [t] has no tag and the value [v]; every other field
    (ID, operation, the other tags and values) and the size are unchanged;
    and if every source had exactly one of tag and value before, it has
    after. *)
Theorem update_fills_matching_tags (rs : ReservationStation) (t : string) (v : num) :
  size (update (Some t) (Some v) rs) = size rs ∧
  Forall2 (updated_by t v) (q rs) (q (update (Some t) (Some v) rs)) ∧
  (Forall entry_ok (q rs) → Forall entry_ok (q (update (Some t) (Some v) rs))).
Proof.
  split; [reflexivity|]. split.
  - simpl. induction (q rs) as [|e l IH]; simpl; constructor; auto.
    apply update_entry_updated.
  - simpl. intros Hok. apply Forall_fmap. eapply Forall_impl; [exact Hok|].
    intros e He. simpl. by apply update_entry_ok.
Qed.


Lemma update_fills_matching_tags_witness :
  Forall entry_ok (q (update (Some "ROB1") (Some (NInt 9)) station_example)).
Proof.
  apply (update_fills_matching_tags station_example "ROB1" (NInt 9)).
  repeat first [ apply Forall_nil_2 | apply Forall_cons_2 ];
    (split;
     first [ left; split; [reflexivity | discriminate]
           | right; split; [discriminate | reflexivity] ]).
Defined.

End ReservationStationProps.

(** ** Tomasulo.py: the completion record *)

Section CompletionRecord.
Import Tomasulo.
Context `{Collaborators}.

(** [updateOutput] only replaces [self.output]. *)
Lemma updateOutput_frame ID stage (t t' : Tomasulo) :
  updateOutput ID stage t = Some t' → ∃ o, t' = set_output o t.
Proof.
  unfold updateOutput. destruct (output t !! ID) as [rec|].
  - destruct (setitem rec stage (Some (cycle t))) as [rec'|]; simpl; [|discriminate].
    intros [= <-]. eauto.
  - intros [= <-]. eauto.
Qed.

(** The other records are left alone. *)
Lemma updateOutput_other ID stage (t t' : Tomasulo) ID' :
  updateOutput ID stage t = Some t' → ID' ≠ ID → output t' !! ID' = output t !! ID'.
Proof.
  unfold updateOutput. destruct (output t !! ID) as [rec|].
  - destruct (setitem rec stage (Some (cycle t))) as [rec'|]; simpl; [|discriminate].
    intros [= <-] Hne. simpl. by rewrite lookup_insert_ne.
  - intros [= <-] Hne. simpl. by rewrite lookup_insert_ne.
Qed.

(** C10.  For an ID that is not in the completion record, [updateOutput]
    stores the current cycle in slot 0 (Issue) whatever the stage argument
    is, and leaves the four other slots at [None]; for an ID that is already
    there, it stores the current cycle in the slot named by the stage. *)
Theorem updateOutput_first_call_is_issue (t : Tomasulo) (ID stage : Z) :
  (output t !! ID = None →
   ∃ t', updateOutput ID stage t = Some t' ∧
         output t' !! ID = Some [Some (cycle t); None; None; None; None]) ∧
  (∀ rec, output t !! ID = Some rec → 0 ≤ stage < Z.of_nat (length rec) →
   ∃ t', updateOutput ID stage t = Some t' ∧
         output t' !! ID = Some (<[Z.to_nat stage := Some (cycle t)]> rec)).
Proof.
  split.
  - intros Hnew. unfold updateOutput. rewrite Hnew.
    eexists. split; [reflexivity|]. simpl. by rewrite lookup_insert_eq.
  - intros rec Hrec Hstage. unfold updateOutput. rewrite Hrec.
    rewrite setitem_nonneg by lia. simpl.
    eexists. split; [reflexivity|]. simpl. by rewrite lookup_insert_eq.
Qed.

(** ** Tomasulo.py: the memory stage *)

(** C9.  The memory stage performs at most one memory-port action, and the
    state it returns shows which.  When [doForwards] returns an instruction
    ID (forwarding), the stage is exactly the recording of that ID's memory
    cycle on the queue [doForwards] left: [issueReadyLoad] does not act on
    the queue.  Only when [doForwards] returns a negative value is
    [issueReadyLoad] applied, to the queue [doForwards] left, and its ID, if
    any, recorded.  In the returned state the queue is accordingly the one
    left by the only action taken, and at most one completion record has
    changed, that of the instruction that took the port.  The calls made are
    [doForwards] first, [issueReadyLoad] only after a negative answer, and at
    most one of them takes the port. *)
Theorem memoryStage_one_port_action (t : Tomasulo) :
  let fwd := LSQ_doForwards (LDSTQ t) in
  let ld := LSQ_issueReadyLoad fwd.1 in
  let calls := (memoryStage_calls t).2 in
  (0 ≤ fwd.2 → memoryStage t = updateOutput fwd.2 2 (set_LDSTQ fwd.1 t)) ∧
  (fwd.2 < 0 → 0 ≤ ld.2 → memoryStage t = updateOutput ld.2 2 (set_LDSTQ ld.1 t)) ∧
  (fwd.2 < 0 → ld.2 < 0 → memoryStage t = Some (set_LDSTQ ld.1 t)) ∧
  (∀ t', memoryStage t = Some t' →
     (0 ≤ fwd.2 → LDSTQ t' = fwd.1) ∧
     (fwd.2 < 0 → LDSTQ t' = ld.1) ∧
     (∀ ID, output t' !! ID ≠ output t !! ID →
            (0 ≤ fwd.2 ∧ ID = fwd.2) ∨ (fwd.2 < 0 ∧ 0 ≤ ld.2 ∧ ID = ld.2))) ∧
  head calls = Some (CallDoForwards fwd.2) ∧
  (∀ ret, CallIssueReadyLoad ret ∈ calls → fwd.2 < 0) ∧
  (length (filter (λ c, took_port c = true) calls) ≤ 1)%nat.
Proof.
  cbv zeta. unfold memoryStage, memoryStage_calls.
  destruct (LSQ_doForwards (LDSTQ t)) as [q1 ret] eqn:Ef. cbn [fst snd].
  change (LDSTQ (set_LDSTQ q1 t)) with q1.
  destruct (LSQ_issueReadyLoad q1) as [q2 ret'] eqn:El. cbn [fst snd].
  assert (∀ ID r (t0 t' : Tomasulo), updateOutput r 2 t0 = Some t' →
            output t' !! ID ≠ output t0 !! ID → ID = r) as Hone.
  { intros ID r t0 t' Hu Hne. destruct (decide (ID = r)) as [|Hr]; [done|].
    exfalso. apply Hne. by eapply updateOutput_other. }
  destruct (0 <=? ret) eqn:Eret.
  - apply Z.leb_le in Eret. cbn [fst snd].
    split; [done|]. split; [intros; lia|]. split; [intros; lia|].
    split; [|split; [done|split]].
    + intros t' Hu. split; [|split].
      * intros _. by apply updateOutput_frame in Hu as [o ->].
      * intros; lia.
      * intros ID Hne. left. split; [done|]. by eapply (Hone ID ret (set_LDSTQ q1 t)).
    + intros r Hin. apply list_elem_of_singleton in Hin. discriminate.
    + rewrite filter_cons. simpl. case_decide; simpl; lia.
  - apply Z.leb_gt in Eret.
    destruct (0 <=? ret') eqn:E'; cbn [fst snd].
    + apply Z.leb_le in E'.
      split; [intros; lia|]. split; [done|]. split; [intros; lia|].
      split; [|split; [done|split]].
      * intros t' Hu. split; [intros; lia|]. split.
        -- intros _. by apply updateOutput_frame in Hu as [o ->].
        -- intros ID Hne. right. split; [done|]. split; [done|].
           by eapply (Hone ID ret' (set_LDSTQ q2 (set_LDSTQ q1 t))).
      * intros; lia.
      * rewrite !filter_cons. simpl.
        replace (0 <=? ret) with false by (symmetry; apply Z.leb_gt; lia).
        replace (0 <=? ret') with true by (symmetry; apply Z.leb_le; lia).
        repeat case_decide; simpl; try discriminate; lia.
    + apply Z.leb_gt in E'.
      split; [intros; lia|]. split; [intros; lia|]. split; [done|].
      split; [|split; [done|split]].
      * intros t' [= <-]. split; [intros; lia|]. split; [done|].
        intros ID Hne. by exfalso.
      * intros; lia.
      * rewrite !filter_cons. simpl.
        replace (0 <=? ret) with false by (symmetry; apply Z.leb_gt; lia).
        replace (0 <=? ret') with false by (symmetry; apply Z.leb_gt; lia).
        repeat case_decide; simpl; try discriminate; lia.
Qed.

(** When a forwarding took place the queue is the one [doForwards] left:
    [issueReadyLoad] has not run on it. *)
Lemma memoryStage_forwarded (t t' : Tomasulo) :
  0 ≤ (LSQ_doForwards (LDSTQ t)).2 → memoryStage t = Some t' →
  LDSTQ t' = (LSQ_doForwards (LDSTQ t)).1.
Proof.
  unfold memoryStage, memoryStage_calls.
  destruct (LSQ_doForwards (LDSTQ t)) as [q1 ret] eqn:Ef. simpl. intros Hret.
  replace (0 <=? ret) with true by (symmetry; apply Z.leb_le; lia). simpl.
  intros Hu. apply updateOutput_frame in Hu as [o ->]. reflexivity.
Qed.

End CompletionRecord.

(** On the idle core the record of instruction 7 is created by a call that
    names the writeback stage; on the core with the store at the head of
    the ROB the record of instruction 3 exists and the commit slot is
    written. *)
Lemma updateOutput_first_call_is_issue_witness :
  (∃ t', Tomasulo.updateOutput 7 3 Scripted.idle = Some t' ∧
         Tomasulo.output t' !! 7 = Some [Some 0; None; None; None; None]) ∧
  (∃ t', Tomasulo.updateOutput 3 4 Scripted.store_at_head = Some t' ∧
         Tomasulo.output t' !! 3 = Some [Some 0; Some 1; None; None; Some 5]).
Proof.
  split.
  - apply (proj1 (updateOutput_first_call_is_issue Scripted.idle 7 3)). reflexivity.
  - apply (proj2 (updateOutput_first_call_is_issue Scripted.store_at_head 3 4)
             [Some 0; Some 1; None; None; None]); [reflexivity|simpl; lia].
Defined.

(** The load of instruction 7 can be forwarded and the load of instruction
    8 can be issued.  The stage forwards: the memory cycle of 7 is recorded,
    the record of 8 is untouched and the queue still holds the answer for
    the load issue, which has not been asked.  Once the forwarding is
    consumed, the stage issues load 8. *)
Lemma memoryStage_one_port_action_witness :
  (∃ t', Tomasulo.memoryStage Scripted.forward_and_load = Some t' ∧
         Scripted.readyLoad (Tomasulo.LDSTQ t').2 = 8 ∧
         Tomasulo.output t' !! 7 = Some [Some 1; Some 2; Some 5; None; None] ∧
         Tomasulo.output t' !! 8 = Tomasulo.output Scripted.forward_and_load !! 8) ∧
  (∃ t', Tomasulo.memoryStage
           (Tomasulo.set_LDSTQ
              (Tomasulo.LSQ_doForwards (Tomasulo.LDSTQ Scripted.forward_and_load)).1
              Scripted.forward_and_load) = Some t' ∧
         Tomasulo.output t' !! 8 = Some [Some 2; Some 3; Some 5; None; None]).
Proof.
  split.
  - destruct (Tomasulo.memoryStage Scripted.forward_and_load) as [t'|] eqn:E;
      [|vm_compute in E; discriminate].
    exists t'. split; [reflexivity|].
    pose proof (memoryStage_one_port_action Scripted.forward_and_load)
      as (Hfwd & _ & _ & Hstate & _).
    destruct (Hstate t' E) as (Hq & _ & Hout).
    split; [|split].
    + rewrite Hq; [reflexivity|]. vm_compute. discriminate.
    + rewrite Hfwd in E; [|vm_compute; discriminate].
      vm_compute in E. by injection E as <-.
    + destruct (decide (Tomasulo.output t' !! 8
                        = Tomasulo.output Scripted.forward_and_load !! 8)) as [|Hne];
        [done|].
      exfalso. apply Hout in Hne as [[_ Heq]|[Hneg _]].
      * vm_compute in Heq. discriminate.
      * vm_compute in Hneg. discriminate.
  - set (t1 := Tomasulo.set_LDSTQ _ _).
    destruct (Tomasulo.memoryStage t1) as [t'|] eqn:E;
      [|vm_compute in E; discriminate].
    exists t'. split; [reflexivity|].
    pose proof (memoryStage_one_port_action t1) as (_ & Hld & _).
    rewrite Hld in E; [| vm_compute; reflexivity | vm_compute; discriminate].
    vm_compute in E. by injection E as <-.
Defined.

(** ** Tomasulo.py: termination of the simulation *)

Section Termination.
Import Tomasulo.
Context `{Collaborators}.

(** [self.done] is assigned by [updateExitConditions] only: every stage
    leaves it as it is. *)

Ltac red_opt H := cbv beta iota zeta delta [mbind option_bind] in H.

Ltac stage_cases :=
  repeat match goal with
    | H : None = Some _ |- _ => discriminate H
    | H : Some _ = Some _ |- _ => injection H as H
    | H : (_, _) = (_, _) |- _ => injection H as ? ?
    | H : (?m ≫= _) = Some _ |- _ => destruct m eqn:?; red_opt H
    | H : context [match ?x with _ => _ end] |- _ => destruct x eqn:?; red_opt H
    end; subst.

Lemma memoryStage_done (t t' : Tomasulo) : memoryStage t = Some t' → done t' = done t.
Proof.
  unfold memoryStage, memoryStage_calls. intros Hs.
  destruct (LSQ_doForwards _) as [q1 ret]. destruct (0 <=? ret).
  - apply updateOutput_frame in Hs as [o ->]. reflexivity.
  - destruct (LSQ_issueReadyLoad _) as [q2 ret']. destruct (0 <=? ret').
    + apply updateOutput_frame in Hs as [o ->]. reflexivity.
    + injection Hs as <-. reflexivity.
Qed.

Lemma getWinnerResult_done w (t t' : Tomasulo) r :
  getWinnerResult w t = Some (t', r) → done t' = done t.
Proof. unfold getWinnerResult. intros Hs. destruct w; stage_cases; reflexivity. Qed.

Lemma writebackStage_done (t t' : Tomasulo) : writebackStage t = Some t' → done t' = done t.
Proof.
  unfold writebackStage. intros Hs.
  destruct (electWinner _) as [[w|]|]; red_opt Hs; [|by simplify_eq|done].
  destruct (getWinnerResult w _) as [[t1 r]|] eqn:Hw; red_opt Hs; [|done].
  apply getWinnerResult_done in Hw.
  destruct (ROB_findAndUpdateEntry _ _ _) as [rob' [[dest name]|]]; red_opt Hs; [|done].
  apply updateOutput_frame in Hs as [o ->]. exact Hw.
Qed.

Lemma retireHead_done (t t' : Tomasulo) r : retireHead t = Some (t', r) → done t' = done t.
Proof. unfold retireHead. intros Hs. stage_cases; reflexivity. Qed.

Lemma commitStage_done (t t' : Tomasulo) : commitStage t = Some t' → done t' = done t.
Proof.
  unfold commitStage. intros Hs.
  destruct (ROB_canCommit (ROB t)) as [resultID|]; [|by simplify_eq].
  destruct (isNew resultID t) as [[|]|]; red_opt Hs; [by simplify_eq| |done].
  destruct (isStore resultID t).
  - destruct (LSQ_issueReadyStore (LDSTQ t)) as [q' ss].
    destruct (0 <=? ss); [|by simplify_eq].
    destruct (retireHead _) as [[t2 r]|] eqn:Hr; red_opt Hs; [|done].
    apply retireHead_done in Hr. apply updateOutput_frame in Hs as [o ->]. exact Hr.
  - destruct (retireHead t) as [[t2 r]|] eqn:Hr; red_opt Hs; [|done].
    apply retireHead_done in Hr. apply updateOutput_frame in Hs as [o ->].
    destruct (negb _); exact Hr.
Qed.

Lemma checkBranchFU_done i (t t' : Tomasulo) : checkBranchFU i t = Some t' → done t' = done t.
Proof.
  unfold checkBranchFU. intros Hs.
  destruct (ALUIs t !! i) as [fu|]; red_opt Hs; [|done].
  destruct (FU_isBranchOutcomePending fu); [|by simplify_eq].
  destruct (FU_getResult fu) as [[fu' [BID outcome]]|]; red_opt Hs; [|done].
  simplify_eq. destruct (outcome_differs _ _); reflexivity.
Qed.

Lemma checkBranch_loop_done l (o : option Tomasulo) (t' : Tomasulo) :
  foldl (λ (acc : option Tomasulo) i, acc ≫= checkBranchFU i) o l = Some t' →
  ∃ t, o = Some t ∧ done t' = done t.
Proof.
  revert o. induction l as [|i l IH]; simpl; intros o Hs.
  - eauto.
  - apply IH in Hs as (t1 & Hb & Hd).
    destruct o as [t|]; red_opt Hb; [|done].
    exists t. split; [done|]. rewrite Hd. by eapply checkBranchFU_done.
Qed.

Lemma checkBranchStage_done (t t' : Tomasulo) :
  checkBranchStage t = Some t' → done t' = done t.
Proof.
  unfold checkBranchStage. intros Hs.
  apply checkBranch_loop_done in Hs as (t1 & [= <-] & Hd). exact Hd.
Qed.

Lemma fetchNext_done n (t t' : Tomasulo) i :
  fetchNext n t = Some (Some (t', i)) → done t' = done t.
Proof. unfold fetchNext. intros Hs. stage_cases; reflexivity. Qed.

Lemma issueStage_done (t t' : Tomasulo) : issueStage t = Some t' → done t' = done t.
Proof.
  unfold issueStage. intros Hs.
  destruct (IQ_empty _ _); [by simplify_eq|].
  destruct (negb _); [|by simplify_eq].
  destruct (IQ_peek_1 _ _) as [nextName|]; red_opt Hs; [|done].
  destruct (fetchNext nextName t) as [[[t1 nextInst]|]|] eqn:Hf; red_opt Hs;
    [|by simplify_eq|done].
  apply fetchNext_done in Hf.
  destruct (ROB_add _ _ _) as [[rob' ROBId]|]; red_opt Hs; [|done].
  destruct (prepareEntry _ _ _ _) as [entry|]; red_opt Hs; [|done].
  apply updateOutput_frame in Hs as [o ->].
  repeat match goal with |- context [if ?b then _ else _] => destruct b end; exact Hf.
Qed.

Lemma computeAddress_done l i (t t' : Tomasulo) :
  computeAddress l i t = Some t' → done t' = done t.
Proof.
  revert i. induction l as [|e l IH]; intros i Hs; cbn [computeAddress] in Hs.
  - by simplify_eq.
  - destruct (isNew (l0 e) t) as [fresh|]; red_opt Hs; [|done].
    destruct (negb fresh && slot_is_int (l3 e) && negb (l5 e)).
    + apply updateOutput_frame in Hs as [o ->]. reflexivity.
    + by eapply IH.
Qed.

Lemma markStores_loop_done l (t : Tomasulo) :
  done (foldl (λ (acc : Tomasulo) entry,
                 if bool_decide (l1 entry = "SD") && LSQ_instructionReady entry (LDSTQ acc)
                 then set_ROB (markStoreReady (l0 entry) (ROB acc)) acc
                 else acc) t l) = done t.
Proof.
  revert t. induction l as [|e l IH]; simpl; intros t; [done|].
  rewrite IH. by destruct (_ && _).
Qed.

Lemma dispatch_done b units ready (t t' : Tomasulo) u m :
  dispatch b units ready t = Some (u, t', m) → done t' = done t.
Proof.
  revert ready t t' u m. induction units as [|fu units IH]; intros ready t t' u m Hs.
  - destruct ready; cbn [dispatch] in Hs; by simplify_eq.
  - destruct ready as [|x ready]; cbn [dispatch] in Hs; [by simplify_eq|].
    destruct (negb (FU_busy fu)); stage_cases;
      repeat match goal with
        | Hd : dispatch _ _ _ _ = Some _ |- _ => apply IH in Hd
        | Hu : updateOutput _ _ _ = Some _ |- _ => apply updateOutput_frame in Hu as [? ->]
        end; assumption.
Qed.

Lemma markExecuting_loop_done l (t : Tomasulo) :
  done (foldl (λ (acc : Tomasulo) item,
                 let a1 := set_RS_ALUIs (RS_markAsExecuting item (RS_ALUIs acc)) acc in
                 let a2 := set_RS_ALUFPs (RS_markAsExecuting item (RS_ALUFPs a1)) a1 in
                 set_RS_MULTFPs (RS_markAsExecuting item (RS_MULTFPs a2)) a2) t l)
  = done t.
Proof. revert t. induction l as [|e l IH]; simpl; intros t; [done|]. by rewrite IH. Qed.

Lemma executeStage_done (t t' : Tomasulo) : executeStage t = Some t' → done t' = done t.
Proof.
  unfold executeStage. intros Hs.
  destruct (readyEntries (RS_q (RS_ALUIs t)) t) as [r1|]; red_opt Hs; [|done].
  destruct (readyEntries (RS_q (RS_ALUFPs t)) t) as [r2|]; red_opt Hs; [|done].
  destruct (readyEntries (RS_q (RS_MULTFPs t)) t) as [r3|]; red_opt Hs; [|done].
  destruct (if negb (LSQ_busy (LDSTQ t)) then _ else _) as [t1|] eqn:H1;
    red_opt Hs; [|done].
  assert (done t1 = done t) as D1.
  { destruct (negb _); [by eapply computeAddress_done|by simplify_eq]. }
  destruct (dispatch true _ r1 _) as [[[u1 t3] m1]|] eqn:Hd1; red_opt Hs; [|done].
  apply dispatch_done in Hd1. unfold markStores in Hd1. rewrite markStores_loop_done in Hd1.
  destruct (dispatch false _ r2 _) as [[[u2 t4] m2]|] eqn:Hd2; red_opt Hs; [|done].
  apply dispatch_done in Hd2. simpl in Hd2.
  destruct (dispatch false _ r3 _) as [[[u3 t5] m3]|] eqn:Hd3; red_opt Hs; [|done].
  apply dispatch_done in Hd3. simpl in Hd3.
  simplify_eq. rewrite markExecuting_loop_done. simpl. congruence.
Qed.

(** The values counted by [stillExecuting]. *)
Lemma stillExecuting_zero (t : Tomasulo) n :
  stillExecuting t = Some n → (n = 0 ↔ all_committed t).
Proof.
  unfold stillExecuting, all_committed. intros Hs.
  destruct (mapM _ _) as [commits|] eqn:Hm; red_opt Hs; [|done].
  injection Hs as <-. apply mapM_Some in Hm.
  split.
  - intros Hz ID rec Hrec.
    assert (rec ∈ (map_to_list (output t)).*2) as Hin.
    { apply list_elem_of_fmap. exists (ID, rec). split; [done|].
      by apply elem_of_map_to_list. }
    apply list_elem_of_lookup in Hin as [k Hk].
    destruct (Forall2_lookup_l _ _ _ _ _ Hm Hk) as (c & Hc & Hget).
    destruct c as [c|]; [eauto|].
    exfalso.
    assert (None ∈ filter (λ c : option Z, c = None) commits) as Hf.
    { apply list_elem_of_filter. split; [done|]. apply list_elem_of_lookup. eauto. }
    destruct (filter _ commits); [by apply not_elem_of_nil in Hf|simpl in Hz; lia].
  - intros Hall.
    destruct (filter (λ c : option Z, c = None) commits) as [|c l] eqn:E; [done|].
    exfalso.
    assert (c ∈ filter (λ c : option Z, c = None) commits) as Hc by (rewrite E; left).
    apply list_elem_of_filter in Hc as [-> Hc].
    apply list_elem_of_lookup in Hc as [k Hk].
    destruct (Forall2_lookup_r _ _ _ _ _ Hm Hk) as (rec & Hrec & Hget).
    assert (rec ∈ (map_to_list (output t)).*2) as Hin
      by (apply list_elem_of_lookup; eauto).
    apply list_elem_of_fmap in Hin as ([ID rec'] & -> & Hin).
    apply elem_of_map_to_list in Hin.
    destruct (Hall _ _ Hin) as [c Hc]. simpl in Hget. congruence.
Qed.

(** On records of five slots the count never raises. *)
Lemma stillExecuting_total (t : Tomasulo) : records_ok t → is_Some (stillExecuting t).
Proof.
  intros Hok. unfold stillExecuting.
  destruct (mapM _ _) as [commits|] eqn:Hm; simpl; [eauto|].
  exfalso. apply eq_None_not_Some in Hm. apply Hm.
  apply mapM_is_Some. apply Forall_forall. intros rec Hin.
  apply list_elem_of_fmap in Hin as ([ID rec'] & -> & Hin).
  apply elem_of_map_to_list in Hin. simpl.
  apply getitem_is_Some; rewrite (Hok _ _ Hin); lia.
Qed.

(** [updateExitConditions] sets [done] exactly under the exit condition,
    and touches nothing else. *)
Lemma updateExitConditions_spec (t t' : Tomasulo) :
  updateExitConditions t = Some t' →
  (t' = t ∨ t' = set_done true t) ∧
  (done t' = true ↔
   done t = true ∨ (IQ_empty (fetchOffset t) (IQ t) = true ∧ all_committed t)).
Proof.
  unfold updateExitConditions. intros Hs.
  destruct (stillExecuting t) as [n|] eqn:Hn; red_opt Hs; [|done].
  pose proof (stillExecuting_zero _ _ Hn) as Hz.
  destruct (IQ_empty (fetchOffset t) (IQ t)); red_opt Hs.
  - destruct (n =? 0) eqn:E0; cbn [andb] in Hs; simplify_eq.
    + apply Z.eqb_eq in E0. split; [by right|]. simpl. split; [|done].
      intros _. right. split; [done|]. by apply Hz.
    + apply Z.eqb_neq in E0. split; [by left|]. split; [by left|].
      intros [?|[_ Hall]]; [done|]. apply Hz in Hall. done.
  - cbn [andb] in Hs. simplify_eq. split; [by left|]. split; [by left|].
    intros [?|[? _]]; done.
Qed.

(** C6.  In a cycle of the simulation loop (which is entered with [done]
    unset) the flag is set at the end of the cycle exactly when the
    instruction queue is empty at the current fetch offset and every
    instruction of the completion record has a commit cycle; the loop runs
    another cycle while the flag is unset and stops once it is set; and the
    exit test itself never raises on records of five slots. *)
Theorem done_iff_nothing_left (t : Tomasulo) :
  (∀ t', done t = false → runCycle t = Some t' →
     (done t' = true ↔
      IQ_empty (fetchOffset t') (IQ t') = true ∧ all_committed t')) ∧
  (∀ fuel, done t = false →
     runSimulation (S fuel) t =
       match runCycle t with
       | Some t' => runSimulation fuel t'
       | None => Raised
       end) ∧
  (∀ fuel, done t = true → runSimulation fuel t = Finished t) ∧
  (records_ok t → is_Some (updateExitConditions t)).
Proof.
  split; [|split; [|split]].
  - intros t' Hd Hs. unfold runCycle in Hs.
    destruct (issueStage _) as [t1|] eqn:H1; red_opt Hs; [|done].
    destruct (executeStage t1) as [t2|] eqn:H2; red_opt Hs; [|done].
    destruct (checkBranchStage t2) as [t3|] eqn:H3; red_opt Hs; [|done].
    destruct (memoryStage t3) as [t4|] eqn:H4; red_opt Hs; [|done].
    destruct (writebackStage t4) as [t5|] eqn:H5; red_opt Hs; [|done].
    destruct (commitStage t5) as [t6|] eqn:H6; red_opt Hs; [|done].
    destruct (updateExitConditions (advanceTime t6)) as [t7|] eqn:H7; red_opt Hs; [|done].
    apply issueStage_done in H1. apply executeStage_done in H2.
    apply checkBranchStage_done in H3. apply memoryStage_done in H4.
    apply writebackStage_done in H5. apply commitStage_done in H6.
    assert (done (advanceTime t6) = false) as Hd6.
    { change (done t6 = false). simpl in H1. congruence. }
    apply updateExitConditions_spec in H7 as [Hshape Hiff].
    rewrite Hd6 in Hiff.
    assert (done t' = done t7 ∧ IQ t' = IQ t7 ∧ fetchOffset t' = fetchOffset t7
            ∧ output t' = output t7) as (-> & HIQ & Hoff & Hout).
    { injection Hs as <-. by destruct (saveRAT t7). }
    assert (all_committed t' ↔ all_committed t7) as ->
      by (unfold all_committed; by rewrite Hout).
    rewrite HIQ, Hoff, Hiff.
    destruct Hshape as [->| ->]; simpl;
      (split; [intros [?|?]; [done|done] | intros ?; by right]).
  - intros fuel Hd. simpl. by rewrite Hd.
  - intros fuel Hd. destruct fuel; simpl; by rewrite Hd.
  - intros Hok. unfold updateExitConditions.
    destruct (stillExecuting_total t Hok) as [n ->]. simpl.
    destruct (_ && _); eauto.
Qed.

End Termination.

(** One cycle of the idle core: the queue is empty and the completion
    record holds nothing, so the flag is set. *)
Lemma done_iff_nothing_left_witness :
  ∃ t', Tomasulo.runCycle Scripted.idle = Some t' ∧
        (Tomasulo.done t' = true ↔
         Tomasulo.IQ_empty (Tomasulo.fetchOffset t') (Tomasulo.IQ t') = true ∧
         Tomasulo.all_committed t').
Proof.
  destruct (Tomasulo.runCycle Scripted.idle) as [t'|] eqn:E;
    [|vm_compute in E; discriminate].
  exists t'. split; [reflexivity|].
  exact (proj1 (done_iff_nothing_left Scripted.idle) t' eq_refl E).
Defined.

(** ** Tomasulo.py: the election of the writeback stage *)

Section Election.
Import Tomasulo.
Context `{Collaborators}.

Lemma ready_at_nil i id : ¬ ready_at [] i id.
Proof. intros (fu & Hl & _). by rewrite lookup_nil in Hl. Qed.

Lemma ready_at_head fu rest id :
  ready_at (fu :: rest) 0 id ↔ FU_isResultReady fu = true ∧ FU_getResultID fu = Some id.
Proof.
  split.
  - intros (fu' & Hl & Hr & Hid). simpl in Hl. injection Hl as <-. done.
  - intros [Hr Hid]. exists fu. done.
Qed.

Lemma ready_at_tail fu rest j id : ready_at (fu :: rest) (S j) id ↔ ready_at rest j id.
Proof. done. Qed.

(** A unit that reports a ready result has an ID to report. *)
Lemma ready_has_ID fu : FU_isResultReady fu = true → is_Some (FU_getResultID fu).
Proof.
  unfold FU_isResultReady, FU_getResultID.
  destruct (FU_buffer fu) as [|[id v] rest]; [done|eauto].
Qed.

(** One scanning loop, started at position [i] with the state [(w, o)]:
    either no unit of [units] has a ready result below [o] and the state is
    unchanged, or the state names the first unit holding the smallest ready
    ID, which is below [o]. *)
Lemma scanUnits_spec units i w o :
  ∃ w' o', scanUnits units i (w, o) = Some (w', o') ∧
    ((w' = w ∧ o' = o ∧ ∀ j id, ready_at units j id → o ≤ id) ∨
     (∃ k, w' = Some (i + k)%nat ∧ o' < o ∧ ready_at units k o' ∧
           ∀ j id, ready_at units j id → o' ≤ id ∧ ((j < k)%nat → o' < id))).
Proof.
  revert i w o. induction units as [|fu rest IH]; intros i w o.
  - exists w, o. split; [done|]. left. repeat split.
    intros j id Hr. by apply ready_at_nil in Hr.
  - cbn [scanUnits].
    destruct (FU_isResultReady fu) eqn:Hready.
    + destruct (ready_has_ID fu Hready) as [temp Htemp]. rewrite Htemp.
      cbv beta iota delta [mbind option_bind snd].
      destruct (temp <? o) eqn:Hlt.
      * apply Z.ltb_lt in Hlt.
        destruct (IH (S i) (Some i) temp) as (w' & o' & Hs & Hc).
        exists w', o'. split; [exact Hs|]. right.
        destruct Hc as [(-> & -> & Hall)|(k & -> & Hlt' & Hk & Hall)].
        -- exists 0%nat. rewrite Nat.add_0_r. split; [done|]. split; [done|].
           split; [by apply ready_at_head|].
           intros [|j] id Hr.
           ++ apply ready_at_head in Hr as [_ Hid]. split; [|lia]. naive_solver lia.
           ++ split; [exact (Hall j id Hr)|lia].
        -- exists (S k). split; [f_equal; lia|]. split; [lia|].
           split; [exact Hk|].
           intros [|j] id Hr.
           ++ apply ready_at_head in Hr as [_ Hid].
              assert (id = temp) as -> by congruence. lia.
           ++ destruct (Hall j id Hr). split; [done|lia].
      * apply Z.ltb_ge in Hlt.
        destruct (IH (S i) w o) as (w' & o' & Hs & Hc).
        exists w', o'. split; [exact Hs|].
        destruct Hc as [(-> & -> & Hall)|(k & -> & Hlt' & Hk & Hall)].
        -- left. repeat split. intros [|j] id Hr.
           ++ apply ready_at_head in Hr as [_ Hid].
              assert (id = temp) as -> by congruence. lia.
           ++ exact (Hall j id Hr).
        -- right. exists (S k). split; [f_equal; lia|]. split; [lia|].
           split; [exact Hk|].
           intros [|j] id Hr.
           ++ apply ready_at_head in Hr as [_ Hid].
              assert (id = temp) as -> by congruence. lia.
           ++ destruct (Hall j id Hr). split; [done|lia].
    + destruct (IH (S i) w o) as (w' & o' & Hs & Hc).
      exists w', o'. split; [exact Hs|].
      destruct Hc as [(-> & -> & Hall)|(k & -> & Hlt' & Hk & Hall)].
      * left. repeat split. intros [|j] id Hr.
        -- apply ready_at_head in Hr as [Hr _]. congruence.
        -- exact (Hall j id Hr).
      * right. exists (S k). split; [f_equal; lia|]. split; [lia|].
        split; [exact Hk|].
        intros [|j] id Hr.
        -- apply ready_at_head in Hr as [Hr _]. congruence.
        -- destruct (Hall j id Hr). split; [done|lia].
Qed.

(** A scanning loop started as [writebackStage] starts it, on a class
    whose predecessors elected nothing. *)
Lemma scanUnits_class units :
  (scanUnits units 0 (None, 2 ^ 30) = Some (None, 2 ^ 30) ∧ none_electable units) ∨
  (∃ i id, scanUnits units 0 (None, 2 ^ 30) = Some (Some i, id) ∧ oldest_in units i id).
Proof.
  destruct (scanUnits_spec units 0 None (2 ^ 30)) as (w' & o' & Hs & Hc).
  destruct Hc as [(-> & -> & Hall)|(k & -> & Hlt & Hk & Hall)].
  - left. split; [exact Hs|]. exact Hall.
  - right. exists k, o'. split; [exact Hs|]. split; [exact Hk|]. split; [lia|exact Hall].
Qed.

(** What the election does: it never raises and names at most one unit.
    A class is passed over when none of its ready results has an ID below
    the initial [oldestInst = 2**30]; the winner is taken from the first
    class, in the order integer ALUs, FP adders, FP multipliers, that is not
    passed over, and inside that class it is the unit with the smallest ID,
    the first such unit on a tie; the load port is elected only when every
    class of functional units is passed over, whatever the ID of its
    result.  IDs are never compared across classes. *)
Lemma electWinner_class_priority (t : Tomasulo) :
  ∃ w, electWinner t = Some w ∧
    match w with
    | Some (WinALUI i) => ∃ id, oldest_in (ALUIs t) i id
    | Some (WinALUFP i) =>
        none_electable (ALUIs t) ∧ ∃ id, oldest_in (ALUFPs t) i id
    | Some (WinMULTFP i) =>
        none_electable (ALUIs t) ∧ none_electable (ALUFPs t) ∧
        ∃ id, oldest_in (MULTFPs t) i id
    | Some WinLDSTQ =>
        none_electable (ALUIs t) ∧ none_electable (ALUFPs t) ∧
        none_electable (MULTFPs t) ∧ LSQ_isResultReady (LDSTQ t) = true
    | None =>
        none_electable (ALUIs t) ∧ none_electable (ALUFPs t) ∧
        none_electable (MULTFPs t) ∧ LSQ_isResultReady (LDSTQ t) = false
    end.
Proof.
  unfold electWinner.
  destruct (scanUnits_class (ALUIs t)) as [[-> H1]|(i & id & -> & H1)];
    cbv beta iota delta [mbind option_bind].
  2: { eexists. split; [reflexivity|]. cbv beta iota. repeat split; eauto. }
  destruct (scanUnits_class (ALUFPs t)) as [[-> H2]|(i & id & -> & H2)];
    cbv beta iota delta [mbind option_bind].
  2: { eexists. split; [reflexivity|]. cbv beta iota. repeat split; eauto. }
  destruct (scanUnits_class (MULTFPs t)) as [[-> H3]|(i & id & -> & H3)];
    cbv beta iota delta [mbind option_bind].
  2: { eexists. split; [reflexivity|]. cbv beta iota. repeat split; eauto. }
  destruct (LSQ_isResultReady (LDSTQ t)) eqn:Hl;
    (eexists; split; [reflexivity|]; cbv beta iota; repeat split; assumption).
Qed.

End Election.

(** One integer ALU holding the result of instruction 5 and one FP adder
    holding the result of the older instruction 2: the election does not
    name the smallest ready ID. *)
Lemma electWinner_skips_older_FP_result :
  ¬ Tomasulo.elects_smallest_ID (H := Scripted.collaborators) Scripted.two_results.
Proof.
  intros Hclaim.
  assert (5 ≤ 2) as Habs; [|lia].
  apply (Hclaim (Tomasulo.WinALUI 0) 5 eq_refl eq_refl 0%nat 2).
  right. left. eexists. repeat split.
Qed.

(** C1 (the code departs from the claim).  In cycle 6 the FP adder holds
    the ready result of instruction 2 and the integer ALU the ready result
    of the younger instruction 5.  The claim asks for the smallest ID among
    all units, instruction 2.  The writeback stage elects the integer ALU:
    it records the writeback of instruction 5 and leaves instruction 2, the
    older one, waiting in its unit. *)
Theorem writeback_elects_younger_ALUI_result :
  Tomasulo.ready_at (Tomasulo.ALUFPs Scripted.older_FP_result) 0 2 ∧
  Tomasulo.ready_at (Tomasulo.ALUIs Scripted.older_FP_result) 0 5 ∧
  Tomasulo.electWinner Scripted.older_FP_result = Some (Some (Tomasulo.WinALUI 0)) ∧
  ∃ t', Tomasulo.writebackStage Scripted.older_FP_result = Some t' ∧
        Tomasulo.output t' !! 5 = Some [Some 3; Some 4; None; Some 6; None] ∧
        Tomasulo.output t' !! 2 = Some [Some 0; Some 1; None; None; None] ∧
        Tomasulo.ready_at (Tomasulo.ALUFPs t') 0 2.
Proof.
  split; [eexists; repeat split|].
  split; [eexists; repeat split|].
  split; [reflexivity|].
  destruct (Tomasulo.writebackStage Scripted.older_FP_result) as [t'|] eqn:E;
    [|vm_compute in E; discriminate].
  exists t'. split; [reflexivity|].
  vm_compute in E. injection E as <-.
  split; [reflexivity|]. split; [reflexivity|]. eexists. repeat split.
Qed.

(** ** Tomasulo.py: the commit stage and the register file *)

Section Commit.
Import Tomasulo.
Context `{Collaborators}.

(** The entry popped by [commit()] is the head entry. *)
Lemma ROB_commit_head rob rob' e :
  ROB_commit rob = Some (rob', e) → ROB_head_entry rob = Some e.
Proof.
  unfold ROB_commit, ROB_head_entry. intros Hc.
  destruct (getitem (ROB_q rob) (ROB_head rob)) as [[e'|]|];
    cbv beta iota delta [mbind option_bind] in *; [|done|done].
  destruct (setitem _ _ _); [|done]. by injection Hc as _ <-.
Qed.

(** The shared part of the commit pops the head entry and leaves the
    register file alone. *)
Lemma retireHead_frame (t t' : Tomasulo) result :
  retireHead t = Some (t', result) →
  ARF t' = ARF t ∧ ROB_head_entry (ROB t) = Some result.
Proof.
  unfold retireHead. intros Hr.
  destruct (ROB_head_entry (ROB t)) as [h|] eqn:Hh;
    cbv beta iota zeta delta [mbind option_bind] in Hr; [|done].
  destruct (ROB_commit _) as [[rob' res]|] eqn:Hc; [|done].
  apply ROB_commit_head in Hc. change (ROB_head_entry (ROB t) = Some res) in Hc.
  assert (res = h) as -> by congruence.
  injection Hr as <- <-. split; [|done].
  by destruct (py_eq _ _).
Qed.

(** C8.  The commit stage changes the register file at most by one
    [ARF.set], and only for a head instruction that is not a store of the
    load/store queue and whose ROB value is not a boolean; committing a
    store or a branch (boolean outcome) leaves the register file as it
    was. *)
Theorem commitStage_ARF (t t' : Tomasulo) :
  commitStage t = Some t' →
  (ARF t' = ARF t ∨
   ∃ resultID h,
     ROB_canCommit (ROB t) = Some resultID ∧ ROB_head_entry (ROB t) = Some h ∧
     isStore resultID t = false ∧ slot_is_bool (r2 h) = false ∧
     ARF t' = ARF_set (r1 h) (r2 h) (ARF t)) ∧
  (∀ resultID h,
     ROB_canCommit (ROB t) = Some resultID → ROB_head_entry (ROB t) = Some h →
     isStore resultID t = true ∨ slot_is_bool (r2 h) = true →
     ARF t' = ARF t).
Proof.
  intros Hs.
  assert (ARF t' = ARF t ∨
          ∃ resultID h,
            ROB_canCommit (ROB t) = Some resultID ∧ ROB_head_entry (ROB t) = Some h ∧
            isStore resultID t = false ∧ slot_is_bool (r2 h) = false ∧
            ARF t' = ARF_set (r1 h) (r2 h) (ARF t)) as Hmain.
  { unfold commitStage in Hs.
    destruct (ROB_canCommit (ROB t)) as [resultID|] eqn:Hcan;
      [|left; by injection Hs as <-].
    destruct (isNew resultID t) as [[|]|];
      cbv beta iota delta [mbind option_bind] in Hs;
      [left; by injection Hs as <-| |done].
    destruct (isStore resultID t) eqn:Hstore.
    - left.
      destruct (LSQ_issueReadyStore (LDSTQ t)) as [q' ss].
      destruct (0 <=? ss); [|by injection Hs as <-].
      destruct (retireHead _) as [[t2 result]|] eqn:Hr;
        cbv beta iota delta [mbind option_bind] in Hs; [|done].
      apply retireHead_frame in Hr as [Harf _].
      apply updateOutput_frame in Hs as [o ->]. exact Harf.
    - destruct (retireHead t) as [[t2 result]|] eqn:Hr;
        cbv beta iota zeta delta [mbind option_bind] in Hs; [|done].
      apply retireHead_frame in Hr as [Harf Hhead].
      apply updateOutput_frame in Hs as [o ->].
      destruct (slot_is_bool (r2 result)) eqn:Hbool; cbn [negb].
      + left. exact Harf.
      + right. exists resultID, result. repeat split; try done.
        change (ARF_set (r1 result) (r2 result) (ARF t2)
                = ARF_set (r1 result) (r2 result) (ARF t)).
        by rewrite Harf. }
  split; [exact Hmain|].
  intros resultID h Hcan Hhead Hor.
  destruct Hmain as [?|(resultID' & h' & Hcan' & Hhead' & Hns & Hnb & _)]; [done|].
  assert (resultID' = resultID) as -> by congruence.
  assert (h' = h) as -> by congruence.
  destruct Hor; congruence.
Qed.

End Commit.

(** The store of instruction 3 is at the head of the ROB, done, and issued
    in an earlier cycle: the commit stage retires it, and the register file
    is the one before the commit. *)
Lemma commitStage_ARF_witness :
  ∃ t', Tomasulo.commitStage Scripted.store_at_head = Some t' ∧
        Tomasulo.ARF t' = Tomasulo.ARF Scripted.store_at_head.
Proof.
  destruct (Tomasulo.commitStage Scripted.store_at_head) as [t'|] eqn:E;
    [|vm_compute in E; discriminate].
  exists t'. split; [reflexivity|].
  apply (proj2 (commitStage_ARF _ _ E) 3
           (Tomasulo.mkROBEntry 3 (Tomasulo.PStr "F0") Tomasulo.PNone true 0));
    [reflexivity|reflexivity|left; reflexivity].
Defined.

(** ** Tomasulo.py: late forwarding at issue *)

Section LateForwarding.
Import Tomasulo.
Context `{Collaborators}.

(** Branches and arithmetic instructions: a source whose captured tag is
    the tag of the completed ROB head loses the tag and receives exactly the
    value stored in the head entry. *)
Lemma backfillSources_exact rob h entry :
  ROB_head_entry rob = Some h → r3 h = true →
  ∃ entry', backfillSources rob entry = Some entry' ∧
    (e3 entry = PStr (ROBtag (ROB_head rob)) → e3 entry' = PNone ∧ e5 entry' = r2 h) ∧
    (e4 entry = PStr (ROBtag (ROB_head rob)) → e4 entry' = PNone ∧ e6 entry' = r2 h).
Proof.
  intros Hh Hdone. unfold backfillSources. rewrite Hh.
  cbv beta iota zeta delta [mbind option_bind]. rewrite Hdone.
  assert (∀ x : pyval, bool_decide (x = x) = true) as Hrefl
    by (intros x; by apply bool_decide_eq_true_2).
  eexists. split; [reflexivity|]. unfold py_eq.
  split; intros Htag.
  - rewrite Htag, Hrefl. cbn [e3 e4 e5 e6]. by case_bool_decide.
  - destruct (bool_decide (_ = e3 entry)); cbn [e3 e4 e5 e6]; by rewrite Htag, Hrefl.
Qed.

(** Loads and stores: a base-address slot whose captured tag is the tag of
    the completed ROB head receives four times the integer value of the
    head entry. *)
Lemma backfillMemory_base nextName rob h entry entry' :
  ROB_head_entry rob = Some h → r3 h = true →
  e3 entry = PStr (ROBtag (ROB_head rob)) →
  backfillMemory nextName rob entry = Some entry' →
  ∃ z, int_of (r2 h) = Some z ∧ e3 entry' = PNum (NInt (4 * z)).
Proof.
  intros Hh Hdone Htag. unfold backfillMemory. rewrite Hh.
  cbv beta iota zeta delta [mbind option_bind]. rewrite Hdone.
  destruct (bool_decide (nextName = "SD") && py_eq _ (e1 entry)).
  - destruct (float_of (r2 h)) as [f|]; [|done]. cbn [e3].
    rewrite Htag. unfold py_eq. rewrite bool_decide_eq_true_2 by done.
    destruct (int_of (r2 h)) as [z|]; [|done]. intros [= <-]. eauto.
  - rewrite Htag. unfold py_eq. rewrite bool_decide_eq_true_2 by done.
    destruct (int_of (r2 h)) as [z|]; [|done]. intros [= <-]. eauto.
Qed.

End LateForwarding.

(** C3 (the code departs from the claim).  [LD R2, 0(R1)] is issued while
    the RAT maps R1 to ROB0 and the ROB head, slot 0, is done with the value
    16.  The base-address slot [entry[3]] of the new queue entry becomes 64,
    four times the value stored in the ROB head, not 16.  When the same
    register value is read from the ARF, the slot holds 16. *)
Theorem backfill_scales_base_address :
  Tomasulo.ROB_head_entry (Tomasulo.ROB Scripted.base_in_ROB)
    = Some (Tomasulo.mkROBEntry 0 (Tomasulo.PStr "R1") (Tomasulo.PNum (NInt 16)) true 0) ∧
  Tomasulo.e3 <$> Tomasulo.prepareEntry "LD" Scripted.load_R1 (Tomasulo.PNum (NInt 1))
                    Scripted.base_in_ROB
    = Some (Tomasulo.PNum (NInt 64)) ∧
  Tomasulo.e3 <$> Tomasulo.prepareEntry "LD" Scripted.load_R1 (Tomasulo.PNum (NInt 1))
                    Scripted.base_in_ARF
    = Some (Tomasulo.PNum (NInt 16)).
Proof. repeat split; vm_compute; reflexivity. Qed.

(** ** Tomasulo.py: the squash after a misprediction *)

Section Squash.
Import Tomasulo.
Context `{Collaborators} `{Hlaws : !LSQLaws}.

Lemma Forall_filter_self {A} (P : A → Prop) `{∀ x, Decision (P x)} (l : list A) :
  Forall P (filter P l).
Proof. apply Forall_forall. intros x Hx. by apply list_elem_of_filter in Hx as [? _]. Qed.

Lemma Forall_filter_keep {A} (P Q : A → Prop) `{∀ x, Decision (Q x)} (l : list A) :
  Forall P l → Forall P (filter Q l).
Proof.
  rewrite !Forall_forall. intros Hl x Hx.
  apply list_elem_of_filter in Hx as [_ Hx]. by apply Hl.
Qed.

Lemma RS_remove_first_Forall (P : RSEntry → Prop) id l :
  Forall P l → Forall P (RS_remove_first id l).
Proof.
  induction 1 as [|e l He Hl IH]; cbn [RS_remove_first]; [done|].
  destruct (x0 e =? id); [done|by constructor].
Qed.

Lemma ROB_find_elem id k l k' e : ROB_find id k l = Some (k', e) → Some e ∈ l.
Proof.
  revert k. induction l as [|[e'|] l IH]; intros k; cbn [ROB_find]; [done| |].
  - destruct (r0 e' =? id).
    + intros [= _ ->]. left.
    + intros Hf. right. by eapply IH.
  - intros Hf. right. by eapply IH.
Qed.

Lemma ROB_findAndUpdateEntry_Forall B id v rob :
  Forall (slot_le B) (ROB_q rob) →
  Forall (slot_le B) (ROB_q (ROB_findAndUpdateEntry id v rob).1).
Proof.
  intros Hq. unfold ROB_findAndUpdateEntry.
  destruct (ROB_find id 0 (ROB_q rob)) as [[k e]|] eqn:Hf; [|done].
  cbn [fst ROB_q]. apply Forall_insert; [done|].
  apply ROB_find_elem in Hf. rewrite Forall_forall in Hq. exact (Hq _ Hf).
Qed.

Lemma ROB_purge_Forall B rob : Forall (slot_le B) (ROB_q (ROB_purgeAfterMispredict B rob)).
Proof.
  unfold ROB_purgeAfterMispredict. cbn [ROB_q]. apply Forall_fmap, Forall_true.
  intros [e|]; cbn; [|done]. destruct (r0 e <=? B) eqn:E; cbn; [lia|done].
Qed.

Lemma ROB_purge_keep B B' rob :
  Forall (slot_le B) (ROB_q rob) →
  Forall (slot_le B) (ROB_q (ROB_purgeAfterMispredict B' rob)).
Proof.
  intros Hq. unfold ROB_purgeAfterMispredict. cbn [ROB_q]. apply Forall_fmap.
  eapply Forall_impl; [exact Hq|]. intros [e|]; cbn; [|done].
  by destruct (r0 e <=? B').
Qed.

Lemma FU_purge_no_younger B fu : FU_no_younger B (FU_purgeAfterMispredict B fu).
Proof. split; cbn [FU_purgeAfterMispredict FU_pipeline FU_buffer]; apply Forall_filter_self. Qed.

Lemma FU_purge_keep B B' fu :
  FU_no_younger B fu → FU_no_younger B (FU_purgeAfterMispredict B' fu).
Proof.
  intros [Hp Hb].
  split; cbn [FU_purgeAfterMispredict FU_pipeline FU_buffer]; by apply Forall_filter_keep.
Qed.

Lemma FU_getResult_no_younger B fu fu' r :
  FU_no_younger B fu → FU_getResult fu = Some (fu', r) → FU_no_younger B fu'.
Proof.
  intros [Hp Hb]. unfold FU_getResult.
  destruct (FU_buffer fu) as [|r' rest] eqn:E; [done|]. intros [= <- <-].
  split; cbn [FU_pipeline FU_buffer]; [done|]. by inversion Hb.
Qed.

(** The squash for branch [B] leaves nothing younger than [B]. *)
Lemma squash_no_younger B p (t : Tomasulo) : no_younger B (squash B p t).
Proof.
  unfold no_younger, squash. cbn.
  repeat split.
  - apply Forall_filter_self.
  - apply Forall_filter_self.
  - apply Forall_filter_self.
  - apply Forall_fmap, Forall_true. intros fu. apply FU_purge_no_younger.
  - apply Forall_fmap, Forall_true. intros fu. apply FU_purge_no_younger.
  - apply Forall_fmap, Forall_true. intros fu. apply FU_purge_no_younger.
  - apply Forall_filter_self.
  - rewrite LSQ_cancelAfter_pending. apply Forall_filter_self.
  - apply ROB_purge_Forall.
  - intros ID rec Hl. by apply map_lookup_filter_Some in Hl as [_ ?].
Qed.

(** A squash for any branch only removes entries. *)
Lemma squash_keep B B' p (t : Tomasulo) : no_younger B t → no_younger B (squash B' p t).
Proof.
  unfold no_younger, squash. cbn.
  intros (H1 & H2 & H3 & H4 & H5 & H6 & H7 & Hp & H8 & H9).
  repeat split.
  - by apply Forall_filter_keep.
  - by apply Forall_filter_keep.
  - by apply Forall_filter_keep.
  - apply Forall_fmap. eapply Forall_impl; [exact H4|]. intros fu. apply FU_purge_keep.
  - apply Forall_fmap. eapply Forall_impl; [exact H5|]. intros fu. apply FU_purge_keep.
  - apply Forall_fmap. eapply Forall_impl; [exact H6|]. intros fu. apply FU_purge_keep.
  - by apply Forall_filter_keep.
  - rewrite LSQ_cancelAfter_pending. by apply Forall_filter_keep.
  - by apply ROB_purge_keep.
  - intros ID rec Hl. apply map_lookup_filter_Some in Hl as [Hl _]. by eapply H9.
Qed.

(** The bookkeeping that ends the loop body: [findAndUpdateEntry] and
    [remove] add no entry. *)
Lemma bookkeeping_keep B BID v (t : Tomasulo) :
  no_younger B t →
  no_younger B (let t3 := set_ROB (ROB_findAndUpdateEntry BID v (ROB t)).1 t in
                set_RS_ALUIs (RS_remove BID (RS_ALUIs t3)) t3).
Proof.
  unfold no_younger. cbn.
  intros (H1 & H2 & H3 & H4 & H5 & H6 & H7 & Hp & H8 & H9).
  repeat split; try done.
  - by apply RS_remove_first_Forall.
  - by apply ROB_findAndUpdateEntry_Forall.
Qed.

(** Releasing the result of unit [i] adds no entry. *)
Lemma release_keep B i fu fu' r (t : Tomasulo) :
  no_younger B t → ALUIs t !! i = Some fu → FU_getResult fu = Some (fu', r) →
  no_younger B (set_ALUIs (<[i := fu']> (ALUIs t)) t).
Proof.
  unfold no_younger. cbn.
  intros (H1 & H2 & H3 & H4 & H5 & H6 & H7 & Hp & H8 & H9) Hi Hr.
  repeat split; try done.
  apply Forall_insert; [done|].
  eapply FU_getResult_no_younger; [|exact Hr].
  rewrite Forall_forall in H4. apply H4. by eapply list_elem_of_lookup_2.
Qed.

(** One iteration of the loop of [checkBranchStage] adds no entry. *)
Lemma checkBranchFU_keep B i (t t' : Tomasulo) :
  no_younger B t → checkBranchFU i t = Some t' → no_younger B t'.
Proof.
  intros Hn. unfold checkBranchFU.
  destruct (ALUIs t !! i) as [fu|] eqn:Hi;
    cbv beta iota zeta delta [mbind option_bind]; [|done].
  destruct (FU_isBranchOutcomePending fu); [|by intros [= <-]].
  destruct (FU_getResult fu) as [[fu' [BID outcome]]|] eqn:Hr; [|done].
  intros [= <-].
  pose proof (release_keep B i fu fu' _ t Hn Hi Hr) as Hn1.
  apply (bookkeeping_keep B BID (PNum outcome)).
  destruct (outcome_differs _ _); [by apply squash_keep|done].
Qed.

Lemma checkBranch_loop_keep B l (o : option Tomasulo) (t' : Tomasulo) :
  foldl (λ (acc : option Tomasulo) i, acc ≫= checkBranchFU i) o l = Some t' →
  ∃ t, o = Some t ∧ (no_younger B t → no_younger B t').
Proof.
  revert o. induction l as [|i l IH]; cbn [foldl]; intros o Hs.
  - eauto.
  - apply IH in Hs as (t1 & Hb & Hk).
    destruct o as [t|]; cbv beta iota delta [mbind option_bind] in Hb; [|done].
    exists t. split; [done|]. intros Hn. apply Hk. by eapply checkBranchFU_keep.
Qed.

(** The iteration that finds a mispredicted branch [B] returns, and leaves
    nothing younger than [B]. *)
Lemma checkBranchFU_squashes i B (t : Tomasulo) :
  mispredicts i B t → ∃ t', checkBranchFU i t = Some t' ∧ no_younger B t'.
Proof.
  intros (fu & fu' & outcome & Hi & Hp & Hr & Hd). unfold checkBranchFU.
  rewrite Hi. cbv beta iota zeta delta [mbind option_bind]. rewrite Hp, Hr.
  eexists. split; [reflexivity|].
  apply (bookkeeping_keep B B (PNum outcome)).
  change (branch (set_ALUIs (<[i:=fu']> (ALUIs t)) t)) with (branch t).
  rewrite Hd. apply squash_no_younger.
Qed.

(** Where nothing is younger than [B], the load/store queue holds no ID
    above [B], keeps none through its own methods, and hands out no result
    of an instruction younger than [B]. *)
Lemma no_younger_LSQ B (t : Tomasulo) l :
  no_younger B t → rtc LSQ_step (LDSTQ t) l →
  Forall (λ id, id ≤ B) (LSQ_ids l) ∧
  ∀ l' r, LSQ_getResult l = Some (l', r) → r.1 ≤ B.
Proof.
  intros (_ & _ & _ & _ & _ & _ & Hq & Hp & _) Hsteps.
  assert (Forall (λ id, id ≤ B) (LSQ_ids l)) as Hids.
  { induction Hsteps as [l|l1 l2 l3 Hstep _ IH].
    - unfold LSQ_ids. apply Forall_app. split; [by apply Forall_fmap|done].
    - apply IH.
      + rewrite Forall_forall. intros e He.
        assert (l0 e ∈ LSQ_ids l2) as Hin
          by (unfold LSQ_ids; apply elem_of_app; left; by apply list_elem_of_fmap_2).
        apply (LSQ_step_ids _ _ Hstep) in Hin.
        unfold LSQ_ids in Hin. apply elem_of_app in Hin as [Hin|Hin].
        * apply list_elem_of_fmap in Hin as (e' & -> & He').
          rewrite Forall_forall in Hq. by apply Hq.
        * rewrite Forall_forall in Hp. by apply Hp.
      + rewrite Forall_forall. intros id Hid.
        assert (id ∈ LSQ_ids l2) as Hin
          by (unfold LSQ_ids; apply elem_of_app; by right).
        apply (LSQ_step_ids _ _ Hstep) in Hin.
        unfold LSQ_ids in Hin. apply elem_of_app in Hin as [Hin|Hin].
        * apply list_elem_of_fmap in Hin as (e' & -> & He').
          rewrite Forall_forall in Hq. by apply Hq.
        * rewrite Forall_forall in Hp. by apply Hp. }
  split; [exact Hids|]. intros l' r Hr.
  apply LSQ_getResult_pending in Hr. rewrite Forall_forall in Hids.
  apply Hids. unfold LSQ_ids. apply elem_of_app. by right.
Qed.

(** C2.  [purgeAfterMispredict(B)] keeps exactly the entries of a
    reservation station whose instruction ID is at most [B].  The iteration
    of the branch check that finds a mispredicted branch [B] leaves no entry
    with an ID greater than [B] in the reservation stations, the functional
    units, the load/store queue (entries, memory operation in flight and
    buffered results), the ROB and the completion record; this still holds
    when the stage returns, after the remaining integer ALUs have been
    looked at.  From then on, whatever methods of the load/store queue are
    called short of a new [add], the queue holds no ID above [B] and hands
    out no result of an instruction younger than [B]. *)
Theorem squash_purges_younger :
  (∀ B rs e, e ∈ RS_q (RS_purgeAfterMispredict B rs) ↔ e ∈ RS_q rs ∧ x0 e ≤ B) ∧
  (∀ i B (t : Tomasulo), mispredicts i B t →
     ∃ t', checkBranchFU i t = Some t' ∧ no_younger B t') ∧
  (∀ (t t' t1 : Tomasulo) l1 i l2 B,
     seq 0 (length (ALUIs t)) = l1 ++ i :: l2 →
     foldl (λ (acc : option Tomasulo) i, acc ≫= checkBranchFU i) (Some t) l1 = Some t1 →
     mispredicts i B t1 →
     checkBranchStage t = Some t' →
     no_younger B t' ∧
     ∀ l, rtc LSQ_step (LDSTQ t') l →
          Forall (λ id, id ≤ B) (LSQ_ids l) ∧
          ∀ l' r, LSQ_getResult l = Some (l', r) → r.1 ≤ B).
Proof.
  split; [|split].
  - intros B rs e. unfold RS_purgeAfterMispredict. cbn [RS_q].
    rewrite list_elem_of_filter. tauto.
  - apply checkBranchFU_squashes.
  - intros t t' t1 l1 i l2 B Hseq H1 Hm. unfold checkBranchStage.
    rewrite Hseq, foldl_app, H1. cbn [foldl].
    destruct (checkBranchFU_squashes i B t1 Hm) as (t2 & H2 & Hn).
    cbv beta iota delta [mbind option_bind]. rewrite H2. intros Hrest.
    apply (checkBranch_loop_keep B) in Hrest as (t3 & [= <-] & Hk).
    split; [by apply Hk|]. intros l. apply no_younger_LSQ. by apply Hk.
Qed.

End Squash.

(** The stand-in load/store queue keeps the laws of the purge: its pending
    IDs are those of its buffered results. *)
Lemma scripted_LSQLaws : Tomasulo.LSQLaws (H := Scripted.collaborators).
Proof.
  split.
  - intros b a. cbn. induction (Scripted.loaded a) as [|[id v] l IH]; [done|].
    rewrite fmap_cons, !filter_cons. cbn [fst]. case_decide; [|done].
    rewrite fmap_cons. cbn [fst]. by f_equal.
  - intros [q a] l' r. cbn. destruct (Scripted.loaded a) as [|r0 rest]; [done|].
    intros [= _ <-]. rewrite fmap_cons. left.
  - intros l l' Hstep id.
    destruct Hstep as [[q a]|[q a]|[q a]|[q a]|[q a]|[q a]|name v [q a]|i [q a]
                      |[q a] l' r Hr]; try done.
    unfold Tomasulo.LSQ_ids. cbn in Hr |- *.
    destruct (Scripted.loaded a) as [|r0 rest]; [done|].
    injection Hr as <- <-. cbn. rewrite !elem_of_app, elem_of_cons.
    tauto.
Qed.

(** The integer ALU exposes the taken outcome of branch 4, predicted not
    taken, while the load/store queue holds the younger load 9 and its
    result: the stage returns, instructions 5, 6 and 9 are gone from every
    structure, and the queue hands out no result younger than the branch. *)
Lemma squash_purges_younger_witness :
  ∃ t', Tomasulo.checkBranchStage Scripted.mispredicted_with_load = Some t' ∧
        Tomasulo.no_younger 4 t' ∧
        ∀ l' r, Tomasulo.LSQ_getResult (Tomasulo.LSQ_checkMMU (Tomasulo.LDSTQ t'))
                  = Some (l', r) → r.1 ≤ 4.
Proof.
  destruct (Tomasulo.checkBranchStage Scripted.mispredicted_with_load) as [t'|] eqn:E;
    [|vm_compute in E; discriminate].
  exists t'. split; [reflexivity|].
  destruct (proj2 (proj2 (squash_purges_younger (Hlaws := scripted_LSQLaws)))
              Scripted.mispredicted_with_load t'
              Scripted.mispredicted_with_load [] 0%nat [] 4) as [Hn Hq];
    [reflexivity|reflexivity| |exact E|].
  - eexists _, _, _. repeat split; reflexivity.
  - split; [exact Hn|].
    apply (Hq (Tomasulo.LSQ_checkMMU (Tomasulo.LDSTQ t'))).
    apply rtc_once. apply Tomasulo.step_checkMMU.
Defined.

(** ** src/MemoryUnit.py: writes, reads and the shape of the memory *)

Section MemoryUnitMore.
Import MemoryUnit.

Lemma int_div4_range addr : 0 ≤ addr → addr ≤ 255 → 0 ≤ int_div4 addr < 64.
Proof.
  intros H0 H1. unfold int_div4. split.
  - apply Z.quot_pos; lia.
  - apply Z.quot_lt_upper_bound; lia.
Qed.

Lemma gtb_orb_false addr hi :
  0 ≤ addr → addr ≤ hi → (addr >? hi) || (addr <? 0) = false.
Proof.
  intros. apply orb_false_iff. split.
  - rewrite Z.gtb_ltb. apply Z.ltb_ge. lia.
  - apply Z.ltb_ge. lia.
Qed.

Lemma true_div4_overflows_small addr :
  -2 ^ 53 ≤ addr ≤ 2 ^ 53 → true_div4_overflows addr = false.
Proof.
  intros Hr. unfold true_div4_overflows. apply Z.leb_gt.
  assert (2 ^ 53 < 2 ^ 1026 - 2 ^ 972) as Hbig by (by vm_compute).
  lia.
Qed.

Lemma setitem_length {A} (l l' : list A) i v : setitem l i v = Some l' → length l' = length l.
Proof. intros Hs. apply setitem_Some in Hs as (k & _ & _ & ->). apply length_insert. Qed.

(** X1.  An integer (or boolean) written at an in-range address of a word
    that is not taken by a float is read back at that address; the write
    raises nothing and leaves the flags alone. *)
Theorem mem_write_read_int (self : MemoryUnit) (addr : Z) (value : num) :
  wf self → isinstance_int value = true → 0 ≤ addr ≤ 255 →
  flag self !! word addr = Some 0 →
  ∃ self', mem_write addr value self = (self', None) ∧
           mem_read addr self' = Ok value ∧
           flag self' = flag self ∧ wf self'.
Proof.
  intros [Hm Hf] Hint Hr Hfl.
  pose proof (int_div4_range addr ltac:(lia) ltac:(lia)) as Hq.
  assert (isinstance_float value = false) as Hnf by (by destruct value).
  unfold mem_write, mem_write_int. rewrite Hint.
  rewrite gtb_orb_false by lia.
  rewrite getitem_nonneg by lia. fold (word addr). rewrite Hfl.
  cbn [Z.eqb negb]. rewrite setitem_nonneg by lia. fold (word addr).
  rewrite Hnf. eexists. split; [reflexivity|].
  unfold mem_read. rewrite true_div4_overflows_small by lia.
  cbn [memory set_memory flag].
  rewrite getitem_nonneg by (rewrite ?length_insert; lia). fold (word addr).
  rewrite list_lookup_insert_eq by (unfold word; lia).
  repeat split; cbn [memory flag set_memory set_flag]; rewrite ?length_insert; done.
Qed.

Lemma mem_write_read_int_witness :
  ∃ self', mem_write 8 (NInt 42) init = (self', None) ∧
           mem_read 8 self' = Ok (NInt 42) ∧
           flag self' = flag init ∧ wf self'.
Proof.
  apply (mem_write_read_int init 8 (NInt 42));
    [split; reflexivity|reflexivity|lia|reflexivity].
Defined.

(** X2.  A double written at an in-range address is read back; the call
    raises nothing, and the flag of the addressed word ends at -1 (the
    second of the two assignments), never at 1. *)
Theorem mem_write_read_float (self : MemoryUnit) (addr : Z) (f : spec_float) :
  wf self → 0 ≤ addr ≤ 252 →
  ∃ self', mem_write addr (NFloat f) self = (self', None) ∧
           mem_read addr self' = Ok (NFloat f) ∧
           flag self' = <[word addr := -1]> (flag self) ∧ wf self'.
Proof.
  intros [Hm Hf] Hr.
  pose proof (int_div4_range addr ltac:(lia) ltac:(lia)) as Hq.
  unfold mem_write, mem_write_float. cbn [isinstance_int isinstance_float].
  rewrite gtb_orb_false by lia.
  rewrite setitem_nonneg by lia.
  cbn [flag set_memory]. rewrite setitem_nonneg by lia.
  rewrite setitem_nonneg by (rewrite ?length_insert; lia). fold (word addr).
  rewrite list_insert_insert_eq.
  eexists. split; [reflexivity|].
  unfold mem_read. rewrite true_div4_overflows_small by lia.
  cbn [memory set_memory set_flag flag].
  rewrite getitem_nonneg by (rewrite ?length_insert; lia). fold (word addr).
  rewrite list_lookup_insert_eq by (unfold word; lia).
  repeat split; cbn [memory flag set_memory set_flag]; rewrite ?length_insert; done.
Qed.

Lemma mem_write_read_float_witness :
  ∃ self', mem_write 16 (NFloat (S754_zero false)) init = (self', None) ∧
           mem_read 16 self' = Ok (NFloat (S754_zero false)) ∧
           flag self' = <[word 16 := -1]> (flag init) ∧ wf self'.
Proof.
  apply (mem_write_read_float init 16 (S754_zero false)); [split; reflexivity|lia].
Defined.

(** X3.  An integer written onto a word taken by a float (flag not 0): the
    word receives the integer, then the call ends on [NameError] (the
    unbound name [init]) before any flag is cleared. *)
Theorem mem_write_int_over_float (self : MemoryUnit) (addr fl : Z) (value : num) :
  wf self → isinstance_int value = true → 0 ≤ addr ≤ 255 →
  flag self !! word addr = Some fl → fl ≠ 0 →
  ∃ self', mem_write addr value self = (self', Some (NameError "init")) ∧
           mem_read addr self' = Ok value ∧
           flag self' = flag self.
Proof.
  intros [Hm Hf] Hint Hr Hfl Hne.
  pose proof (int_div4_range addr ltac:(lia) ltac:(lia)) as Hq.
  unfold mem_write, mem_write_int. rewrite Hint.
  rewrite gtb_orb_false by lia.
  rewrite getitem_nonneg by lia. fold (word addr). rewrite Hfl.
  replace (fl =? 0) with false by (symmetry; by apply Z.eqb_neq).
  cbn [negb]. rewrite setitem_nonneg by lia. fold (word addr).
  eexists. split; [reflexivity|].
  unfold mem_read. rewrite true_div4_overflows_small by lia.
  cbn [memory set_memory flag].
  rewrite getitem_nonneg by (rewrite ?length_insert; lia). fold (word addr).
  rewrite list_lookup_insert_eq by (unfold word; lia). done.
Qed.

Lemma mem_write_int_over_float_witness :
  ∃ self', mem_write 16 (NInt 3) (mem_write 16 (NFloat (S754_zero false)) init).1
             = (self', Some (NameError "init")) ∧
           mem_read 16 self' = Ok (NInt 3) ∧
           flag self' = flag (mem_write 16 (NFloat (S754_zero false)) init).1.
Proof.
  apply (mem_write_int_over_float _ 16 (-1) (NInt 3));
    [split; reflexivity|reflexivity|lia|reflexivity|lia].
Defined.

(** X4.  Whatever the value and the outcome, a write at a non-negative
    address changes neither a word nor a flag other than the addressed
    one. *)
Theorem mem_write_touches_one_word (self : MemoryUnit) (addr : Z) (value : num) (k : nat) :
  0 ≤ addr → k ≠ word addr →
  memory (mem_write addr value self).1 !! k = memory self !! k ∧
  flag (mem_write addr value self).1 !! k = flag self !! k.
Proof.
  intros Haddr Hk. split; [by apply mem_write_frame|].
  assert (Hq : 0 ≤ int_div4 addr) by (unfold int_div4; apply Z.quot_pos; lia).
  assert (Hset : ∀ (m m' : list Z) v,
             setitem m (int_div4 addr) v = Some m' → m' !! k = m !! k).
  { intros m m' v Hs. apply setitem_Some in Hs as (j & Hj & _ & ->).
    unfold resolve_index in Hj.
    replace (0 <=? int_div4 addr) with true in Hj by (symmetry; apply Z.leb_le; lia).
    destruct (int_div4 addr <? Z.of_nat (length m)); cbn [andb] in Hj.
    - injection Hj as <-. by apply list_lookup_insert_ne.
    - replace (int_div4 addr <? 0) with false in Hj by (symmetry; apply Z.ltb_ge; lia).
      rewrite andb_false_r in Hj. discriminate. }
  unfold mem_write.
  destruct (isinstance_int value) eqn:Ei.
  - assert (isinstance_float value = false) as Ef by (by destruct value).
    unfold mem_write_int.
    destruct ((addr >? 256) || (addr <? 0)); [done|].
    destruct (getitem (flag self) (int_div4 addr)) as [fl|]; [|done].
    destruct (negb (fl =? 0));
      destruct (setitem (memory self) (int_div4 addr) value); rewrite ?Ef; done.
  - destruct (isinstance_float value); [|done].
    unfold mem_write_float.
    destruct ((addr >? 252) || (addr <? 0)); [done|].
    destruct (setitem (memory self) (int_div4 addr) value); [|done].
    cbn [flag set_memory].
    destruct (setitem (flag self) (int_div4 addr) 1) as [f1|] eqn:Ef1; [|done].
    destruct (setitem f1 (int_div4 addr) (-1)) as [f2|] eqn:Ef2; cbn [fst flag set_flag].
    + rewrite (Hset _ _ _ Ef2). by eapply Hset.
    + by eapply Hset.
Qed.

Lemma mem_write_touches_one_word_witness :
  memory (mem_write 16 (NFloat (S754_zero false)) init).1 !! 5%nat = memory init !! 5%nat ∧
  flag (mem_write 16 (NFloat (S754_zero false)) init).1 !! 5%nat = flag init !! 5%nat.
Proof.
  apply (mem_write_touches_one_word init 16 (NFloat (S754_zero false)) 5);
    [lia|vm_compute; lia].
Defined.

(** X5.  The range check where it works: an integer write below 0 or above
    256 and a double write below 0 or above 252 raise the [ValueError]
    whose message holds the address, and leave the memory unit as it
    was. *)
Theorem mem_write_outrange (self : MemoryUnit) (addr : Z) (value : num) :
  (isinstance_int value = true → addr < 0 ∨ 256 < addr →
   mem_write addr value self = (self, Some (ValueError (outrange_msg addr)))) ∧
  (isinstance_float value = true → addr < 0 ∨ 252 < addr →
   mem_write addr value self = (self, Some (ValueError (outrange_msg addr)))).
Proof.
  split; intros Hv Hr; unfold mem_write.
  - rewrite Hv. unfold mem_write_int.
    replace ((addr >? 256) || (addr <? 0)) with true; [reflexivity|].
    symmetry. apply orb_true_iff. destruct Hr.
    + right. apply Z.ltb_lt. lia.
    + left. rewrite Z.gtb_ltb. apply Z.ltb_lt. lia.
  - assert (isinstance_int value = false) as -> by (by destruct value).
    rewrite Hv. unfold mem_write_float.
    replace ((addr >? 252) || (addr <? 0)) with true; [reflexivity|].
    symmetry. apply orb_true_iff. destruct Hr.
    + right. apply Z.ltb_lt. lia.
    + left. rewrite Z.gtb_ltb. apply Z.ltb_lt. lia.
Qed.

Lemma mem_write_outrange_witness :
  mem_write 300 (NInt 1) init
    = (init, Some (ValueError "Address value [ 300 ] outrange in memory unit")) ∧
  mem_write 253 (NFloat (S754_zero false)) init
    = (init, Some (ValueError "Address value [ 253 ] outrange in memory unit")).
Proof.
  split.
  - apply (proj1 (mem_write_outrange init 300 (NInt 1))); [reflexivity|lia].
  - apply (proj2 (mem_write_outrange init 253 (NFloat (S754_zero false))));
      [reflexivity|lia].
Defined.

Lemma int_div4_bounds addr :
  (int_div4 addr < 64 ↔ addr ≤ 255) ∧ (-64 ≤ int_div4 addr ↔ -259 ≤ addr).
Proof.
  unfold int_div4.
  pose proof (Z.quot_rem' addr 4) as Hqr.
  destruct (Z_le_gt_dec 0 addr) as [Hpos|Hneg].
  - pose proof (Z.rem_bound_pos addr 4 ltac:(lia) ltac:(lia)). lia.
  - pose proof (Z.rem_bound_pos_neg addr 4 ltac:(lia) ltac:(lia)). lia.
Qed.

(** X6.  [mem_read] has no range check of its own: on the 64 words it
    raises exactly for the byte addresses below -259 and above 255, and
    returns a word for every address in between, the negative ones counting
    from the end of the memory.  The exception is the [IndexError] of the
    subscript, except for an address so large that the division [addr/4]
    leaves the float range, where it is the [OverflowError] of the
    division. *)
Theorem mem_read_raises_iff (self : MemoryUnit) (addr : Z) :
  wf self →
  ((∃ e, mem_read addr self = Raise e) ↔ addr < -259 ∨ 255 < addr) ∧
  (-259 ≤ addr ≤ 255 → ∃ v, mem_read addr self = Ok v) ∧
  (mem_read addr self = Raise OverflowError ↔ 2 ^ 1026 - 2 ^ 972 ≤ Z.abs addr) ∧
  (mem_read addr self = Raise IndexError ↔
   (addr < -259 ∨ 255 < addr) ∧ Z.abs addr < 2 ^ 1026 - 2 ^ 972).
Proof.
  intros [Hm _].
  destruct (int_div4_bounds addr) as [Hhi Hlo].
  assert (2 ^ 53 < 2 ^ 1026 - 2 ^ 972) as Hbig by (by vm_compute).
  assert (2 ^ 53 = 9007199254740992) as H53 by reflexivity.
  assert (-259 ≤ addr ≤ 255 → ∃ v, mem_read addr self = Ok v) as Hok.
  { intros Hr. unfold mem_read. rewrite true_div4_overflows_small by lia.
    destruct (getitem_is_Some (memory self) (int_div4 addr)) as [v ->];
      [rewrite Hm; lia|rewrite Hm; lia|eauto]. }
  assert (addr < -259 ∨ 255 < addr →
          getitem (memory self) (int_div4 addr) = None) as Hnone.
  { intros Hout. unfold getitem, resolve_index. rewrite Hm.
    destruct ((0 <=? int_div4 addr) && (int_div4 addr <? Z.of_nat 64)) eqn:E1.
    { apply andb_prop in E1 as [?%Z.leb_le ?%Z.ltb_lt]. lia. }
    destruct ((- Z.of_nat 64 <=? int_div4 addr) && (int_div4 addr <? 0)) eqn:E2.
    { apply andb_prop in E2 as [?%Z.leb_le ?%Z.ltb_lt]. lia. }
    reflexivity. }
  split; [|split; [exact Hok|split]].
  - split.
    + intros [e Hraise].
      destruct (Z_lt_ge_dec addr (-259)); [lia|].
      destruct (Z_lt_ge_dec 255 addr); [lia|].
      destruct Hok as [v Hv]; [lia|congruence].
    + intros Hout. unfold mem_read.
      destruct (true_div4_overflows addr); [eauto|].
      rewrite (Hnone Hout). eauto.
  - unfold mem_read, true_div4_overflows.
    destruct (2 ^ 1026 - 2 ^ 972 <=? Z.abs addr) eqn:E.
    + apply Z.leb_le in E. done.
    + apply Z.leb_gt in E. split; [|lia].
      by destruct (getitem (memory self) (int_div4 addr)).
  - unfold mem_read, true_div4_overflows.
    destruct (2 ^ 1026 - 2 ^ 972 <=? Z.abs addr) eqn:E.
    + apply Z.leb_le in E. split; [done|lia].
    + apply Z.leb_gt in E. split.
      * intros Hraise. split; [|done].
        destruct (Z_lt_ge_dec addr (-259)); [lia|].
        destruct (Z_lt_ge_dec 255 addr); [lia|].
        destruct Hok as [v Hv]; [lia|].
        unfold mem_read, true_div4_overflows in Hv.
        replace (2 ^ 1026 - 2 ^ 972 <=? Z.abs addr) with false in Hv
          by (symmetry; by apply Z.leb_gt).
        congruence.
      * intros [Hout _]. by rewrite (Hnone Hout).
Qed.

Lemma mem_read_raises_iff_witness :
  mem_read 1000 init = Raise IndexError ∧
  mem_read (2 ^ 1026) init = Raise OverflowError ∧
  ∃ v, mem_read (-259) init = Ok v.
Proof.
  pose proof (mem_read_raises_iff init) as Hthm.
  split; [|split].
  - apply (proj2 (proj2 (proj2 (Hthm 1000 (conj eq_refl eq_refl))))).
    split; [lia|by vm_compute].
  - apply (proj1 (proj2 (proj2 (Hthm (2 ^ 1026) (conj eq_refl eq_refl))))).
    vm_compute. discriminate.
  - apply (proj1 (proj2 (Hthm (-259) (conj eq_refl eq_refl)))). lia.
Defined.

(** X7.  [mem_write] keeps the shape of the memory unit, 64 words and 64
    flags, whatever the address and the value, also when it raises. *)
Theorem mem_write_wf (self : MemoryUnit) (addr : Z) (value : num) :
  wf self → wf (mem_write addr value self).1.
Proof.
  intros [Hm Hf]. unfold mem_write.
  assert (∀ self', wf self' → wf (mem_write_float addr value self').1) as Hfloat.
  { intros self' [Hm' Hf']. unfold mem_write_float.
    destruct ((addr >? 252) || (addr <? 0)); [done|].
    destruct (setitem (memory self') _ _) as [m'|] eqn:Em; [|done].
    apply setitem_length in Em. cbn [flag set_memory].
    destruct (setitem (flag self') _ _) as [f1|] eqn:E1.
    - apply setitem_length in E1.
      destruct (setitem f1 _ _) as [f2|] eqn:E2.
      + apply setitem_length in E2. split; cbn; congruence.
      + split; cbn; congruence.
    - split; cbn; congruence. }
  destruct (isinstance_int value).
  - unfold mem_write_int.
    destruct ((addr >? 256) || (addr <? 0)); [done|].
    destruct (getitem (flag self) (int_div4 addr)) as [fl|]; [|done].
    destruct (negb (fl =? 0));
      destruct (setitem (memory self) _ _) as [m'|] eqn:Em; try done.
    + apply setitem_length in Em. split; cbn; congruence.
    + apply setitem_length in Em.
      assert (wf (set_memory m' self)) as Hwf by (split; cbn; congruence).
      destruct (isinstance_float value); [by apply Hfloat|done].
  - destruct (isinstance_float value); [by apply Hfloat|done].
Qed.

Lemma mem_write_wf_witness : wf (mem_write 256 (NInt 5) init).1.
Proof. apply (mem_write_wf init 256 (NInt 5)). split; reflexivity. Defined.

End MemoryUnitMore.

(** ** src/ReservationStation.py: adding, removing and updating entries *)

Section ReservationStationMore.
Import ReservationStation.

Lemma remove_first_None id l : remove_first id l = None ↔ ∀ e, e ∈ l → ID e ≠ id.
Proof.
  induction l as [|e l IH]; cbn [remove_first].
  - split; [|done]. intros _ e He. by apply not_elem_of_nil in He.
  - destruct (ID e =? id) eqn:E.
    + apply Z.eqb_eq in E. split; [done|]. intros Hall. exfalso.
      apply (Hall e); [left|done].
    + apply Z.eqb_neq in E. rewrite fmap_None, IH. split.
      * intros Hall e' [->|He']%elem_of_cons; [done|by apply Hall].
      * intros Hall e' He'. apply Hall. by right.
Qed.

Lemma remove_first_Some id l l' :
  remove_first id l = Some l' →
  ∃ l1 e l2, l = l1 ++ e :: l2 ∧ ID e = id ∧ (∀ e', e' ∈ l1 → ID e' ≠ id) ∧ l' = l1 ++ l2.
Proof.
  revert l'. induction l as [|e l IH]; intros l'; cbn [remove_first]; [done|].
  destruct (ID e =? id) eqn:E.
  - apply Z.eqb_eq in E. intros [= <-]. exists [], e, l. repeat split; [done|].
    intros e' He'. by apply not_elem_of_nil in He'.
  - apply Z.eqb_neq in E. intros Hf. apply fmap_Some in Hf as (l0 & Hl0 & ->).
    destruct (IH _ Hl0) as (l1 & e1 & l2 & -> & Hid & Hl1 & ->).
    exists (e :: l1), e1, l2. repeat split; [done|].
    intros e' [->|He']%elem_of_cons; [done|by apply Hl1].
Qed.

(** X8.  [remove(id)] returns [False] and changes nothing when no entry has
    that ID; otherwise it returns [True] and pops the first entry with that
    ID, and only that one: the entries before and after it stay, in order.
    The size is never changed. *)
Theorem remove_pops_first_match (self self' : ReservationStation) (id : Z) (b : bool) :
  remove id self = (self', b) →
  size self' = size self ∧
  (b = false → self' = self ∧ ∀ e, e ∈ q self → ID e ≠ id) ∧
  (b = true →
   ∃ l1 e l2, q self = l1 ++ e :: l2 ∧ ID e = id ∧
              (∀ e', e' ∈ l1 → ID e' ≠ id) ∧ q self' = l1 ++ l2).
Proof.
  unfold remove. destruct (remove_first id (q self)) as [l|] eqn:Hr; intros [= <- <-].
  - split; [done|]. split; [done|]. intros _. by apply remove_first_Some.
  - split; [done|]. split; [|done]. intros _. split; [done|]. by apply remove_first_None.
Qed.

Lemma remove_pops_first_match_witness :
  ∃ l1 e l2, q station_example = l1 ++ e :: l2 ∧ ID e = 1 ∧
             (∀ e', e' ∈ l1 → ID e' ≠ 1) ∧
             q (remove 1 station_example).1 = l1 ++ l2.
Proof.
  apply (proj2 (proj2 (remove_pops_first_match station_example
                         (remove 1 station_example).1 1 true eq_refl)) eq_refl).
Defined.

(** X9.  Removing the ID just added to a station that did not hold it gives
    back the station. *)
Theorem add_then_remove (self : ReservationStation) (id : Z) (op : string)
    (Qi Qj : option string) (Vi Vj : option num) :
  (∀ e, e ∈ q self → ID e ≠ id) →
  remove id (add id op Qi Qj Vi Vj self) = (self, true).
Proof.
  intros Hfresh. unfold remove, add. cbn [q size].
  assert (∀ l, (∀ e, e ∈ l → ID e ≠ id) →
               remove_first id (l ++ [mkEntry id op Qi Qj Vi Vj]) = Some l) as Hl.
  { induction l as [|e l IH]; intros Hall; cbn [app remove_first ID].
    - by rewrite Z.eqb_refl.
    - replace (ID e =? id) with false
        by (symmetry; apply Z.eqb_neq, Hall; left).
      rewrite IH; [done|]. intros e' He'. apply Hall. by right. }
  rewrite (Hl _ Hfresh). by destruct self.
Qed.

Lemma add_then_remove_witness :
  remove 7 (add 7 "ADD" None None (Some (NInt 1)) (Some (NInt 2)) station_example)
    = (station_example, true).
Proof.
  apply (add_then_remove station_example 7).
  intros e He. vm_compute in He.
  repeat (apply elem_of_cons in He as [->|He]; [discriminate|]).
  by apply not_elem_of_nil in He.
Defined.

(** X10.  [add] appends without looking at the size: the station grows by
    one entry, placed last, and a station that was full reports not full
    after one more [add]. *)
Theorem add_has_no_capacity_check (self : ReservationStation) (id : Z) (op : string)
    (Qi Qj : option string) (Vi Vj : option num) :
  q (add id op Qi Qj Vi Vj self) = q self ++ [mkEntry id op Qi Qj Vi Vj] ∧
  size (add id op Qi Qj Vi Vj self) = size self ∧
  (isFull self = true → isFull (add id op Qi Qj Vi Vj self) = false).
Proof.
  split; [done|]. split; [done|].
  unfold isFull, add. cbn [q size]. rewrite length_app. cbn [length].
  intros Hfull%Z.eqb_eq. apply Z.eqb_neq. lia.
Qed.

Lemma add_has_no_capacity_check_witness :
  isFull (add 1 "ADD" None None None None (add 0 "ADD" None None None None (init 1)))
    = false.
Proof.
  apply (add_has_no_capacity_check (add 0 "ADD" None None None None (init 1))).
  reflexivity.
Defined.

Lemma update_entry_idem tag value e :
  update_entry tag value (update_entry tag value e) = update_entry tag value e.
Proof.
  destruct e as [id op ti tj vi vj]. unfold update_entry.
  cbn [ID OPERATION TAG_I TAG_J VALUE_I VALUE_J].
  destruct (decide (ti = tag)) as [Hi|Hi];
    cbn [ID OPERATION TAG_I TAG_J VALUE_I VALUE_J];
    destruct (decide (tj = tag)) as [Hj|Hj];
    cbn [ID OPERATION TAG_I TAG_J VALUE_I VALUE_J];
    repeat (case_decide; cbn [ID OPERATION TAG_I TAG_J VALUE_I VALUE_J] in *);
    congruence.
Qed.

(** X11.  Broadcasting the same tag and value a second time changes nothing
    more: [update] is idempotent (the commit stage repeats the broadcast of
    the writeback stage). *)
Theorem update_idempotent (self : ReservationStation) (tag : option string)
    (value : option num) :
  update tag value (update tag value self) = update tag value self.
Proof.
  unfold update. cbn [q size]. f_equal.
  rewrite <- list_fmap_compose. apply list_fmap_ext.
  intros i e _. apply update_entry_idem.
Qed.

Lemma update_entry_ID tag value e : ID (update_entry tag value e) = ID e.
Proof. unfold update_entry. by repeat (case_decide; cbn [ID]). Qed.

Lemma remove_first_update tag value id (l : list entry) :
  remove_first id (update_entry tag value <$> l)
  = (λ l' : list entry, update_entry tag value <$> l') <$> remove_first id l.
Proof.
  induction l as [|e l IH]; [done|].
  rewrite fmap_cons. cbn [remove_first].
  rewrite update_entry_ID. destruct (ID e =? id); [done|].
  rewrite IH. by destruct (remove_first id l).
Qed.

(** X12.  [update] and [remove] commute: removing an ID after a broadcast
    gives the station, and the flag, that the broadcast gives after the
    removal. *)
Theorem update_remove_commute (self : ReservationStation) (tag : option string)
    (value : option num) (id : Z) :
  remove id (update tag value self)
  = (update tag value (remove id self).1, (remove id self).2).
Proof.
  unfold remove, update. cbn [q size]. rewrite remove_first_update.
  by destruct (remove_first id (q self)).
Qed.

(** X13.  A broadcast whose tag no source of the station waits for leaves
    the station as it was. *)
Theorem update_absent_tag (self : ReservationStation) (tag : option string)
    (value : option num) :
  (∀ e, e ∈ q self → TAG_I e ≠ tag ∧ TAG_J e ≠ tag) →
  update tag value self = self.
Proof.
  intros Habs. unfold update. destruct self as [sz l]. cbn [q size] in *. f_equal.
  induction l as [|e l IH]; [done|]. cbn [fmap list_fmap]. f_equal.
  - destruct (Habs e) as [Hi Hj]; [left|]. unfold update_entry.
    destruct (decide (TAG_I e = tag)); [done|]. by destruct (decide (TAG_J e = tag)).
  - apply IH. intros e' He'. apply Habs. by right.
Qed.

Lemma update_absent_tag_witness :
  update (Some "ROB9") (Some (NInt 0)) station_example = station_example.
Proof.
  apply (update_absent_tag station_example (Some "ROB9") (Some (NInt 0))).
  intros e He. vm_compute in He.
  repeat (apply elem_of_cons in He as [->|He]; [split; discriminate|]).
  by apply not_elem_of_nil in He.
Defined.

End ReservationStationMore.

(** ** src/ld_st_queue.py: what the queues keep and what they deliver *)

Section LdStQueueProps.
Import LdStQueue.

Lemma St_step_q self c :
  st_q (St_step self c) = st_q self ++ St_added [c] ∧
  st_size (St_step self c) = st_size self.
Proof.
  destruct c as [instr addr value value_tag|instr|value_tag value| |];
    unfold St_step, St_added; cbn [omap list_omap]; rewrite ?app_nil_r.
  - done.
  - done.
  - unfold St_update. by destruct self as [sz [|e l] tm bf].
  - unfold St_advanceTime.
    by destruct (St_advance_loop (st_q self) (st_buffer self)).
  - unfold St_getResult. by destruct self as [sz l tm [|r bf]].
Qed.

(** X14.  The store queue is append-only: after any sequence of calls
    ([add], [remove], [update], [advanceTime], [getResult], in any order and
    whether or not they raise) [self.q] is the initial list followed by the
    entries added, in order; no entry is ever removed or rewritten, and the
    size is unchanged. *)
Theorem St_queue_append_only (cs : list St_call) (self : St_queue) :
  st_q (St_run cs self) = st_q self ++ St_added cs ∧
  st_size (St_run cs self) = st_size self.
Proof.
  unfold St_run. revert self. induction cs as [|c cs IH]; intros self.
  - cbn. by rewrite app_nil_r.
  - cbn [foldl]. destruct (IH (St_step self c)) as [Hq Hs].
    destruct (St_step_q self c) as [Hq1 Hs1].
    rewrite Hq, Hs, Hq1, Hs1. split; [|done].
    rewrite <- app_assoc. f_equal.
    unfold St_added. cbn [omap list_omap]. by destruct c.
Qed.

Lemma St_advance_loop_first l1 e l2 buffer :
  (∀ e', e' ∈ l1 → st_value_tag e' ≠ None) → st_value_tag e = None →
  St_advance_loop (l1 ++ e :: l2) buffer
  = (buffer ++ [result_of e], Some (NameError "remove")).
Proof.
  intros Hl1 He. induction l1 as [|e1 l1 IH]; cbn [app St_advance_loop].
  - by rewrite decide_True.
  - rewrite decide_False by (apply Hl1; left).
    apply IH. intros e' He'. apply Hl1. by right.
Qed.

Lemma St_advance_loop_none l buffer :
  (∀ e, e ∈ l → st_value_tag e ≠ None) → St_advance_loop l buffer = (buffer, None).
Proof.
  intros Hl. induction l as [|e l IH]; cbn [St_advance_loop]; [done|].
  rewrite decide_False by (apply Hl; left).
  apply IH. intros e' He'. apply Hl. by right.
Qed.

(** X15.  [advanceTime] delivers, at every tick, the first entry of the
    queue whose data is resolved (tag [None]) and ends on [NameError]
    without removing it: after [n] ticks the buffer has received [n] copies
    of that entry's result.  With no resolved entry a tick only advances the
    time, and raises nothing. *)
Theorem St_advanceTime_redelivers (self : St_queue) :
  (∀ l1 e l2 n,
     st_q self = l1 ++ e :: l2 →
     (∀ e', e' ∈ l1 → st_value_tag e' ≠ None) → st_value_tag e = None →
     (St_advanceTime self).2 = Some (NameError "remove") ∧
     st_buffer (St_run (replicate n StAdvanceTime) self)
       = st_buffer self ++ replicate n (result_of e) ∧
     st_time (St_run (replicate n StAdvanceTime) self) = st_time self + Z.of_nat n) ∧
  ((∀ e, e ∈ st_q self → st_value_tag e ≠ None) →
   St_advanceTime self
   = ({| st_size := st_size self; st_q := st_q self;
         st_time := st_time self + 1; st_buffer := st_buffer self |}, None)).
Proof.
  split.
  - intros l1 e l2 n Hq Hl1 He. split.
    + unfold St_advanceTime. rewrite Hq.
      by rewrite (St_advance_loop_first l1 e l2 _ Hl1 He).
    + revert self Hq. induction n as [|n IH]; intros self Hq.
      * cbn. rewrite app_nil_r. split; [done|lia].
      * cbn [replicate]. unfold St_run in *. cbn [foldl St_step].
        assert ((St_advanceTime self).1
                = {| st_size := st_size self; st_q := st_q self;
                     st_time := st_time self + 1;
                     st_buffer := st_buffer self ++ [result_of e] |}) as ->.
        { unfold St_advanceTime. rewrite Hq.
          by rewrite (St_advance_loop_first l1 e l2 _ Hl1 He). }
        destruct (IH {| st_size := st_size self; st_q := st_q self;
                        st_time := st_time self + 1;
                        st_buffer := st_buffer self ++ [result_of e] |} Hq)
          as [Hb Ht].
        rewrite Hb, Ht. cbn [st_buffer st_time].
        split; [by rewrite <- app_assoc|lia].
  - intros Hall. unfold St_advanceTime.
    by rewrite (St_advance_loop_none _ _ Hall).
Qed.

Lemma St_advanceTime_redelivers_witness :
  st_buffer (St_run (replicate 3 StAdvanceTime) st_example)
    = replicate 3 (1, 16, Some (NInt 7)) ∧
  St_advanceTime (St_init 4) = (St_run [StAdvanceTime] (St_init 4), None).
Proof.
  split.
  - apply (proj1 (St_advanceTime_redelivers st_example)
             [mkStEntry 0 8 None (Some "ROB3")] (mkStEntry 1 16 (Some (NInt 7)) None)
             [] 3%nat); [reflexivity| |reflexivity].
    intros e' ->%list_elem_of_singleton. discriminate.
  - apply (proj2 (St_advanceTime_redelivers (St_init 4))).
    intros e He. by apply not_elem_of_nil in He.
Defined.

(** X16.  [getResult] and [isResultReady] agree: when [isResultReady] is
    false [getResult] raises [IndexError] and changes nothing; when it is
    true [getResult] returns the oldest result of the buffer and keeps the
    others, in order, and the queue itself is not touched. *)
Theorem St_getResult_oldest (self : St_queue) :
  (St_isResultReady self = false →
   St_getResult self = (self, Raise IndexError)) ∧
  (St_isResultReady self = true →
   ∃ r rest, st_buffer self = r :: rest ∧
             (St_getResult self).2 = Ok r ∧
             st_buffer (St_getResult self).1 = rest ∧
             st_q (St_getResult self).1 = st_q self).
Proof.
  unfold St_isResultReady, St_getResult.
  destruct (st_buffer self) as [|r rest]; cbn [length]; split; intros Hr.
  - done.
  - apply Z.ltb_lt in Hr. lia.
  - apply Z.ltb_ge in Hr. lia.
  - by exists r, rest.
Qed.

Lemma St_getResult_oldest_witness :
  St_getResult st_example = (st_example, Raise IndexError) ∧
  ∃ r rest, st_buffer (St_advanceTime st_example).1 = r :: rest ∧
            (St_getResult (St_advanceTime st_example).1).2 = Ok r ∧
            st_buffer (St_getResult (St_advanceTime st_example).1).1 = rest ∧
            st_q (St_getResult (St_advanceTime st_example).1).1
              = st_q (St_advanceTime st_example).1.
Proof.
  split.
  - apply (proj1 (St_getResult_oldest st_example)). reflexivity.
  - apply (proj2 (St_getResult_oldest (St_advanceTime st_example).1)). reflexivity.
Defined.

Lemma Ld_step_buffer {R} (self : Ld_queue R) c :
  ld_buffer self = [] → ld_buffer (Ld_step self c) = [].
Proof.
  intros Hb. destruct c; unfold Ld_step; cbn [Ld_add Ld_remove Ld_advanceTime ld_buffer fst];
    try done.
  unfold Ld_getResult. by rewrite Hb.
Qed.

(** X17.  A load queue never has a result: no method puts anything into
    its buffer, so after any sequence of calls on a new queue
    [isResultReady] is false and [getResult] raises [IndexError]. *)
Theorem Ld_queue_never_ready {R} (cs : list Ld_call) (size : Z) :
  let self := Ld_run cs (Ld_init (R := R) size) in
  Ld_isResultReady self = false ∧ Ld_getResult self = (self, Raise IndexError).
Proof.
  cbv zeta.
  assert (ld_buffer (Ld_run cs (Ld_init (R := R) size)) = []) as Hb.
  { unfold Ld_run. generalize (Ld_init (R := R) size) (eq_refl : ld_buffer (Ld_init (R := R) size) = []).
    induction cs as [|c cs IH]; intros self Hself; [done|].
    cbn [foldl]. apply IH. by apply Ld_step_buffer. }
  unfold Ld_isResultReady, Ld_getResult. by rewrite Hb.
Qed.

End LdStQueueProps.

(** ** Tomasulo.py: [isNew] and the completion record *)

Section IsNew.
Import Tomasulo.
Context `{Collaborators}.

(** The loop of [isNew] on a record of five slots: the last slot that is
    not [None]. *)
Lemma isNew_loop_five (s0 s1 s2 s3 s4 : option Z) :
  isNew_loop [s0; s1; s2; s3; s4] [0; 1; 2; 3; 4] None
  = Some (match s4, s3, s2, s1, s0 with
          | Some c, _, _, _, _ => Some c
          | None, Some c, _, _, _ => Some c
          | None, None, Some c, _, _ => Some c
          | None, None, None, Some c, _ => Some c
          | None, None, None, None, s => s
          end).
Proof. by destruct s4, s3, s2, s1, s0. Qed.

(** On a record of five slots the loop of [isNew] returns, with [None] or
    with a cycle stored in the record. *)
Lemma isNew_loop_result (rec : list (option Z)) :
  length rec = 5%nat →
  ∃ st, isNew_loop rec [0; 1; 2; 3; 4] None = Some st ∧
        (st = None ∨ ∃ k c, rec !! k = Some (Some c) ∧ st = Some c).
Proof.
  intros Hlen.
  destruct rec as [|s0 [|s1 [|s2 [|s3 [|s4 [|? ?]]]]]]; try discriminate Hlen.
  rewrite isNew_loop_five. eexists. split; [reflexivity|].
  destruct s4 as [c4|]; [right; by exists 4%nat, c4|].
  destruct s3 as [c3|]; [right; by exists 3%nat, c3|].
  destruct s2 as [c2|]; [right; by exists 2%nat, c2|].
  destruct s1 as [c1|]; [right; by exists 1%nat, c1|].
  destruct s0 as [c0|]; [right; by exists 0%nat, c0|by left].
Qed.

(** X18.  An instruction is new in the cycle in which one of its stages is
    recorded: right after [updateOutput] creates the record of an ID, and
    right after it fills a stage of a five-slot record whose later slots are
    empty, [isNew] returns [True]. *)
Theorem isNew_after_updateOutput (t : Tomasulo) (ID stage : Z) :
  (output t !! ID = None →
   ∃ t', updateOutput ID stage t = Some t' ∧ isNew ID t' = Some true) ∧
  (∀ rec, output t !! ID = Some rec → length rec = 5%nat → 0 ≤ stage ≤ 4 →
          (∀ k, (Z.to_nat stage < k < 5)%nat → rec !! k = Some None) →
   ∃ t', updateOutput ID stage t = Some t' ∧ isNew ID t' = Some true).
Proof.
  split.
  - intros Hnew. unfold updateOutput. rewrite Hnew. eexists. split; [reflexivity|].
    unfold isNew. cbn [output set_output cycle]. rewrite lookup_insert_eq.
    cbv beta iota delta [mbind option_bind]. rewrite isNew_loop_five.
    by rewrite bool_decide_eq_true_2.
  - intros rec Hrec Hlen Hstage Hlater. unfold updateOutput. rewrite Hrec.
    rewrite setitem_nonneg by lia. cbv beta iota delta [mbind option_bind].
    eexists. split; [reflexivity|].
    unfold isNew. cbn [output set_output cycle]. rewrite lookup_insert_eq.
    cbv beta iota delta [mbind option_bind].
    destruct rec as [|s0 [|s1 [|s2 [|s3 [|s4 [|? ?]]]]]]; try discriminate Hlen.
    assert (stage = 0 ∨ stage = 1 ∨ stage = 2 ∨ stage = 3 ∨ stage = 4) as Hcase by lia.
    pose proof (Hlater 1%nat) as H1. pose proof (Hlater 2%nat) as H2.
    pose proof (Hlater 3%nat) as H3. pose proof (Hlater 4%nat) as H4.
    destruct Hcase as [-> | [-> | [-> | [-> | ->]]]]; cbn in H1, H2, H3, H4.
    + injection (H1 ltac:(lia)) as ->. injection (H2 ltac:(lia)) as ->.
      injection (H3 ltac:(lia)) as ->. injection (H4 ltac:(lia)) as ->.
      unfold insert; simpl list_insert;
        rewrite isNew_loop_five; by rewrite bool_decide_eq_true_2.
    + injection (H2 ltac:(lia)) as ->.
      injection (H3 ltac:(lia)) as ->. injection (H4 ltac:(lia)) as ->.
      unfold insert; simpl list_insert;
        rewrite isNew_loop_five; by rewrite bool_decide_eq_true_2.
    + injection (H3 ltac:(lia)) as ->. injection (H4 ltac:(lia)) as ->.
      unfold insert; simpl list_insert;
        rewrite isNew_loop_five; by rewrite bool_decide_eq_true_2.
    + injection (H4 ltac:(lia)) as ->.
      unfold insert; simpl list_insert;
        rewrite isNew_loop_five; by rewrite bool_decide_eq_true_2.
    + unfold insert; simpl list_insert;
        rewrite isNew_loop_five; by rewrite bool_decide_eq_true_2.
Qed.

(** X19.  [isNew] raises (a [KeyError]) exactly for an ID that has no
    record; and once the clock has advanced, an instruction whose record
    holds no cycle later than the old one is not new any more. *)
Theorem isNew_after_tick (t : Tomasulo) (ID : Z) :
  records_ok t →
  (isNew ID t = None ↔ output t !! ID = None) ∧
  (∀ rec, output t !! ID = Some rec →
          (∀ k c, rec !! k = Some (Some c) → c ≤ cycle t) →
          isNew ID (advanceTime t) = Some false).
Proof.
  intros Hok. split.
  - unfold isNew. destruct (output t !! ID) as [rec|] eqn:Hrec; [|done].
    cbv beta iota delta [mbind option_bind].
    destruct (isNew_loop_result rec (Hok _ _ Hrec)) as (st & -> & _). done.
  - intros rec Hrec Hle. unfold isNew.
    change (output (advanceTime t)) with (output t).
    change (cycle (advanceTime t)) with (cycle t + 1).
    rewrite Hrec. cbv beta iota delta [mbind option_bind].
    destruct (isNew_loop_result rec (Hok _ _ Hrec)) as (st & -> & Hst).
    f_equal. apply bool_decide_eq_false_2.
    destruct Hst as [->|(k & c & Hk & ->)]; [done|].
    intros [= Hc]. specialize (Hle _ _ Hk). lia.
Qed.

End IsNew.

(** The store of instruction 3 has its address computed in cycle 1 and the
    clock is at 5: the record can be looked up, and after one more tick the
    instruction is not new. *)
Lemma isNew_after_tick_witness :
  Tomasulo.isNew 3 (Tomasulo.advanceTime Scripted.store_at_head) = Some false.
Proof.
  assert (Tomasulo.records_ok Scripted.store_at_head) as Hok.
  { intros ID rec Hrec.
    change ((<[3 := [Some 0; Some 1; None; None; None]]> (∅ : gmap Z (list (option Z))))
              !! ID = Some rec) in Hrec.
    apply lookup_insert_Some in Hrec as [[_ <-]|[_ Hrec]]; [reflexivity|].
    by rewrite lookup_empty in Hrec. }
  apply (proj2 (isNew_after_tick Scripted.store_at_head 3 Hok)
           [Some 0; Some 1; None; None; None]); [reflexivity|].
  intros [|[|[|[|[|k]]]]] c [= <-]; vm_compute; discriminate.
Defined.

(** On the idle core the first record of instruction 7 makes it new; on the
    core with the store at the head of the ROB, recording the commit of
    instruction 3 makes it new. *)
Lemma isNew_after_updateOutput_witness :
  (∃ t', Tomasulo.updateOutput 7 0 Scripted.idle = Some t' ∧
         Tomasulo.isNew 7 t' = Some true) ∧
  (∃ t', Tomasulo.updateOutput 3 4 Scripted.store_at_head = Some t' ∧
         Tomasulo.isNew 3 t' = Some true).
Proof.
  split.
  - apply (proj1 (isNew_after_updateOutput Scripted.idle 7 0)). reflexivity.
  - apply (proj2 (isNew_after_updateOutput Scripted.store_at_head 3 4)
             [Some 0; Some 1; None; None; None]); [reflexivity|reflexivity|lia|].
    intros k Hk. simpl in Hk. lia.
Defined.

(** ** Tomasulo.py: the execute stage *)

Section Execute.
Import Tomasulo.
Context `{Collaborators}.

(** X20.  The ready list of the execute stage holds, in the order of the
    station, exactly the entries with both operand values, not executing,
    and whose instruction is not new in this cycle. *)
Theorem readyEntries_filters (l r : list RSEntry) (t : Tomasulo) :
  readyEntries l t = Some r →
  r `sublist_of` l ∧
  ∀ x, x ∈ r ↔ x ∈ l ∧ is_not_None (x5 x) = true ∧ is_not_None (x6 x) = true ∧
                x7 x = false ∧ isNew (x0 x) t = Some false.
Proof.
  revert r. induction l as [|x l IH]; intros r; cbn [readyEntries].
  - intros [= <-]. split; [done|]. intros y. split; [|by intros [? _]].
    intros Hy. by apply not_elem_of_nil in Hy.
  - destruct (is_not_None (x5 x) && is_not_None (x6 x) && negb (x7 x)) eqn:Eops.
    + destruct (isNew (x0 x) t) as [fresh|] eqn:Enew;
        cbv beta iota delta [mbind option_bind fmap option_fmap option_map]; [|done].
      destruct (readyEntries l t) as [rest'|]; [|done].
      destruct (IH rest' eq_refl) as [Hsub Hiff].
      apply andb_prop in Eops as [[E5 E6]%andb_prop E7%negb_true_iff].
      intros [= <-]. destruct fresh; cbn [negb].
      * split; [by apply sublist_cons|]. intros y. rewrite Hiff, elem_of_cons.
        split; [intros [Hy Hc]; split; [by right|done]|].
        intros [[->|Hy] Hc]; [|done].
        destruct Hc as (_ & _ & _ & Hc). congruence.
      * split; [by apply sublist_skip|]. intros y. rewrite !elem_of_cons, Hiff.
        split.
        -- intros [->|[Hy Hc]]; [|split; [by right|done]].
           split; [by left|done].
        -- intros [[->|Hy] Hc]; [by left|by right].
    + cbv beta iota delta [mbind option_bind].
      destruct (readyEntries l t) as [rest'|]; [|done].
      destruct (IH rest' eq_refl) as [Hsub Hiff].
      intros [= <-]. split; [by apply sublist_cons|]. intros y.
      rewrite Hiff, elem_of_cons. split; [intros [Hy Hc]; split; [by right|done]|].
      intros [[->|Hy] Hc]; [|done]. destruct Hc as (E5 & E6 & E7 & _).
      rewrite E5, E6, E7 in Eops. done.
Qed.

(** X21.  One dispatch loop of the execute stage keeps the number of units,
    starts the ready instructions in the order of the ready list (the IDs
    marked as executing are a prefix of it), and starts as many as there are
    ready instructions or idle units, whichever is fewer. *)
Theorem dispatch_in_order (toInt : bool) (units units' : list FU) (ready : list RSEntry)
    (t t' : Tomasulo) (marked : list Z) :
  dispatch toInt units ready t = Some (units', t', marked) →
  length units' = length units ∧
  marked `prefix_of` (x0 <$> ready) ∧
  length marked
    = Nat.min (length ready) (length (filter (λ fu, FU_busy fu = false) units)).
Proof.
  revert units' ready t t' marked.
  induction units as [|fu units IH]; intros units' ready t t' marked.
  - destruct ready; cbn [dispatch]; intros [= <- <- <-];
      (split; [done|]; split; [apply prefix_nil|]; cbn; lia).
  - destruct ready as [|x ready']; cbn [dispatch].
    { intros [= <- <- <-]. split; [done|]. split; [apply prefix_nil|]. done. }
    rewrite filter_cons.
    destruct (FU_busy fu) eqn:Ebusy; cbn [negb].
    + rewrite decide_False by done.
      destruct (dispatch toInt units (x :: ready') t) as [[[rest' t2] marked']|] eqn:Ed;
        cbv beta iota delta [mbind option_bind]; [|done].
      intros [= <- <- <-]. destruct (IH _ _ _ _ _ Ed) as (Hlen & Hpre & Hn).
      split; [cbn; lia|]. split; [done|]. done.
    + rewrite decide_True by done.
      destruct (if toInt then _ <$> int_of (x5 x) else _) as [a|];
        destruct (if toInt then _ <$> int_of (x6 x) else _) as [b|];
        cbv beta iota delta [mbind option_bind]; try done.
      destruct (updateOutput (x0 x) 1 t) as [t1|];
        cbv beta iota delta [mbind option_bind]; [|done].
      destruct (dispatch toInt units ready' t1) as [[[rest' t2] marked']|] eqn:Ed;
        cbv beta iota delta [mbind option_bind]; [|done].
      intros [= <- <- <-]. destruct (IH _ _ _ _ _ Ed) as (Hlen & Hpre & Hn).
      split; [cbn; lia|]. split; [rewrite fmap_cons; by apply prefix_cons|].
      cbn [length]. lia.
Qed.

(** X22.  The address computation of the execute stage serves at most one
    entry of the load/store queue per cycle: the first one, in queue order,
    that is not new, holds an integer base address and has no address yet.
    Without such an entry nothing changes. *)
Theorem computeAddress_first_eligible (l : list LSQEntry) (i : nat) (t t' : Tomasulo) :
  computeAddress l i t = Some t' →
  (t' = t ∧
   ∀ e, e ∈ l →
        ¬ (isNew (l0 e) t = Some false ∧ slot_is_int (l3 e) = true ∧ l5 e = false)) ∨
  (∃ k e, l !! k = Some e ∧
          isNew (l0 e) t = Some false ∧ slot_is_int (l3 e) = true ∧ l5 e = false ∧
          (∀ j e', (j < k)%nat → l !! j = Some e' →
                   ¬ (isNew (l0 e') t = Some false ∧ slot_is_int (l3 e') = true ∧
                      l5 e' = false)) ∧
          updateOutput (l0 e) 1 (set_LDSTQ (LSQ_executeStage (i + k) (LDSTQ t)) t)
            = Some t').
Proof.
  revert i. induction l as [|e l IH]; intros i; cbn [computeAddress].
  - intros [= <-]. left. split; [done|]. intros e He. by apply not_elem_of_nil in He.
  - destruct (isNew (l0 e) t) as [fresh|] eqn:Enew;
      cbv beta iota delta [mbind option_bind]; [|done].
    destruct (negb fresh && slot_is_int (l3 e) && negb (l5 e)) eqn:Eel.
    + intros Hu. right. exists 0%nat, e.
      apply andb_prop in Eel as [[Ef Ei]%andb_prop El%negb_true_iff].
      apply negb_true_iff in Ef as ->.
      rewrite Nat.add_0_r. repeat split; try done. intros j e' Hj. lia.
    + assert (¬ (Some fresh = Some false ∧ slot_is_int (l3 e) = true ∧ l5 e = false))
        as Hnot.
      { intros ([= ->] & Ei & El). rewrite Ei, El in Eel. done. }
      intros Hc. destruct (IH _ Hc) as [[-> Hall]|(k & e1 & Hk & Hn & Hi & Hl & Hfirst & Hu)].
      * left. split; [done|]. intros e' [->|He']%elem_of_cons; [by rewrite Enew|by apply Hall].
      * right. exists (S k), e1. replace (i + S k)%nat with (S i + k)%nat by lia.
        repeat split; try done.
        intros [|j] e' Hj Hlook; [injection Hlook as <-; by rewrite Enew|].
        apply (Hfirst j e'); [lia|done].
Qed.

End Execute.

(** In the FP-adder station of the core with the mispredicted branch,
    instruction 6 has both operands, is not executing and was issued in an
    earlier cycle: it is the ready list, and the idle FP adder starts it. *)
Lemma readyEntries_filters_witness :
  ∃ r, Tomasulo.readyEntries
         (Tomasulo.RS_q (Tomasulo.RS_ALUFPs Scripted.mispredicted_branch))
         Scripted.mispredicted_branch = Some r ∧
       r `sublist_of` Tomasulo.RS_q (Tomasulo.RS_ALUFPs Scripted.mispredicted_branch) ∧
       length r = 1%nat.
Proof.
  destruct (Tomasulo.readyEntries _ Scripted.mispredicted_branch) as [r|] eqn:E;
    [|vm_compute in E; discriminate].
  exists r. split; [reflexivity|].
  split; [exact (proj1 (readyEntries_filters _ _ _ E))|].
  vm_compute in E. by injection E as <-.
Defined.

Lemma dispatch_in_order_witness :
  ∃ units' t' marked,
    Tomasulo.dispatch false (Tomasulo.ALUFPs Scripted.mispredicted_branch)
      (Tomasulo.RS_q (Tomasulo.RS_ALUFPs Scripted.mispredicted_branch))
      Scripted.mispredicted_branch = Some (units', t', marked) ∧
    length units' = 1%nat ∧ marked `prefix_of` [6] ∧ length marked = 1%nat.
Proof.
  destruct (Tomasulo.dispatch false _ _ Scripted.mispredicted_branch)
    as [[[units' t'] marked]|] eqn:E; [|vm_compute in E; discriminate].
  exists units', t', marked. split; [reflexivity|].
  exact (dispatch_in_order _ _ _ _ _ _ _ E).
Defined.

(** The store of instruction 3 is the first, and only, entry of the queue
    that can have its address computed. *)
Lemma computeAddress_first_eligible_witness :
  ∃ t', Tomasulo.computeAddress
          (Tomasulo.LDSTQ_q (Tomasulo.LDSTQ Scripted.address_pending)) 0
          Scripted.address_pending = Some t' ∧
        Tomasulo.output t' !! 3 = Some [Some 0; Some 5; None; None; None].
Proof.
  destruct (Tomasulo.computeAddress _ 0 Scripted.address_pending) as [t'|] eqn:E;
    [|vm_compute in E; discriminate].
  exists t'. split; [reflexivity|].
  destruct (computeAddress_first_eligible _ _ _ _ E)
    as [[_ Hnone]|(k & e & Hk & _ & _ & _ & _ & Hu)].
  - exfalso. apply (Hnone _ ltac:(left)). repeat split.
  - destruct k as [|k]; [|destruct k; discriminate Hk].
    injection Hk as <-. vm_compute in Hu. by injection Hu as <-.
Defined.

(** ** Tomasulo.py: the clock and the register file across the stages *)

Section Frames.
Import Tomasulo.
Context `{Collaborators}.

Ltac red_opt H := cbv beta iota zeta delta [mbind option_bind] in H.

Ltac stage_cases :=
  repeat match goal with
    | H : None = Some _ |- _ => discriminate H
    | H : Some _ = Some _ |- _ => injection H as H
    | H : (_, _) = (_, _) |- _ => injection H as ? ?
    | H : (?m ≫= _) = Some _ |- _ => destruct m eqn:?; red_opt H
    | H : context [match ?x with _ => _ end] |- _ => destruct x eqn:?; red_opt H
    end; subst.

Ltac kp := first [assumption | split; reflexivity].

Lemma kept_trans (t1 t2 t3 : Tomasulo) : kept t1 t2 → kept t2 t3 → kept t1 t3.
Proof. intros [? ?] [? ?]. split; congruence. Qed.

Lemma memoryStage_kept (t t' : Tomasulo) : memoryStage t = Some t' → kept t t'.
Proof.
  unfold memoryStage, memoryStage_calls. intros Hs.
  destruct (LSQ_doForwards _) as [q1 ret]. destruct (0 <=? ret).
  - apply updateOutput_frame in Hs as [o ->]. kp.
  - destruct (LSQ_issueReadyLoad _) as [q2 ret']. destruct (0 <=? ret').
    + apply updateOutput_frame in Hs as [o ->]. kp.
    + injection Hs as <-. kp.
Qed.

Lemma getWinnerResult_kept w (t t' : Tomasulo) r :
  getWinnerResult w t = Some (t', r) → kept t t'.
Proof. unfold getWinnerResult. intros Hs. destruct w; stage_cases; kp. Qed.

Lemma writebackStage_kept (t t' : Tomasulo) : writebackStage t = Some t' → kept t t'.
Proof.
  unfold writebackStage. intros Hs.
  destruct (electWinner _) as [[w|]|]; red_opt Hs; [|injection Hs as <-; kp|done].
  destruct (getWinnerResult w _) as [[t1 r]|] eqn:Hw; red_opt Hs; [|done].
  apply getWinnerResult_kept in Hw.
  destruct (ROB_findAndUpdateEntry _ _ _) as [rob' [[dest name]|]]; red_opt Hs; [|done].
  apply updateOutput_frame in Hs as [o ->]. exact Hw.
Qed.

Lemma checkBranchFU_kept i (t t' : Tomasulo) : checkBranchFU i t = Some t' → kept t t'.
Proof.
  unfold checkBranchFU. intros Hs.
  destruct (ALUIs t !! i) as [fu|]; red_opt Hs; [|done].
  destruct (FU_isBranchOutcomePending fu); [|injection Hs as <-; kp].
  destruct (FU_getResult fu) as [[fu' [BID outcome]]|]; red_opt Hs; [|done].
  injection Hs as <-. destruct (outcome_differs _ _); kp.
Qed.

Lemma checkBranch_loop_kept l (o : option Tomasulo) (t' : Tomasulo) :
  foldl (λ (acc : option Tomasulo) i, acc ≫= checkBranchFU i) o l = Some t' →
  ∃ t, o = Some t ∧ kept t t'.
Proof.
  revert o. induction l as [|i l IH]; cbn [foldl]; intros o Hs.
  - exists t'. split; [done|kp].
  - apply IH in Hs as (t1 & Hb & Hd).
    destruct o as [t|]; red_opt Hb; [|done].
    exists t. split; [done|]. eapply kept_trans; [|exact Hd]. by eapply checkBranchFU_kept.
Qed.

Lemma checkBranchStage_kept (t t' : Tomasulo) : checkBranchStage t = Some t' → kept t t'.
Proof.
  unfold checkBranchStage. intros Hs.
  apply checkBranch_loop_kept in Hs as (t1 & [= <-] & Hd). exact Hd.
Qed.

Lemma fetchNext_kept n (t t' : Tomasulo) i :
  fetchNext n t = Some (Some (t', i)) → kept t t'.
Proof. unfold fetchNext. intros Hs. stage_cases; kp. Qed.

Lemma issueStage_kept (t t' : Tomasulo) : issueStage t = Some t' → kept t t'.
Proof.
  unfold issueStage. intros Hs.
  destruct (IQ_empty _ _); [injection Hs as <-; kp|].
  destruct (negb _); [|injection Hs as <-; kp].
  destruct (IQ_peek_1 _ _) as [nextName|]; red_opt Hs; [|done].
  destruct (fetchNext nextName t) as [[[t1 nextInst]|]|] eqn:Hf; red_opt Hs;
    [|injection Hs as <-; kp|done].
  apply fetchNext_kept in Hf.
  destruct (ROB_add _ _ _) as [[rob' ROBId]|]; red_opt Hs; [|done].
  destruct (prepareEntry _ _ _ _) as [entry|]; red_opt Hs; [|done].
  apply updateOutput_frame in Hs as [o ->].
  repeat match goal with |- context [if ?b then _ else _] => destruct b end; exact Hf.
Qed.

Lemma computeAddress_kept l i (t t' : Tomasulo) :
  computeAddress l i t = Some t' → kept t t'.
Proof.
  revert i. induction l as [|e l IH]; intros i Hs; cbn [computeAddress] in Hs.
  - injection Hs as <-. kp.
  - destruct (isNew (l0 e) t) as [fresh|]; red_opt Hs; [|done].
    destruct (negb fresh && slot_is_int (l3 e) && negb (l5 e)).
    + apply updateOutput_frame in Hs as [o ->]. kp.
    + by eapply IH.
Qed.

Lemma markStores_kept (t : Tomasulo) : kept t (markStores t).
Proof.
  unfold markStores. generalize (LDSTQ_q (LDSTQ t)). intros l.
  assert (∀ t0 : Tomasulo, kept t t0 →
            kept t (foldl (λ (acc : Tomasulo) entry,
                             if bool_decide (l1 entry = "SD")
                                && LSQ_instructionReady entry (LDSTQ acc)
                             then set_ROB (markStoreReady (l0 entry) (ROB acc)) acc
                             else acc) t0 l)) as Hgen.
  { induction l as [|e l IH]; cbn [foldl]; intros t0 Hk; [done|].
    apply IH. by destruct (_ && _). }
  apply Hgen. kp.
Qed.

Lemma dispatch_kept b units ready (t t' : Tomasulo) u m :
  dispatch b units ready t = Some (u, t', m) → kept t t'.
Proof.
  revert ready t t' u m. induction units as [|fu units IH]; intros ready t t' u m Hs.
  - destruct ready; cbn [dispatch] in Hs; injection Hs as <- <- <-; kp.
  - destruct ready as [|x ready]; cbn [dispatch] in Hs; [injection Hs as <- <- <-; kp|].
    destruct (negb (FU_busy fu)); stage_cases;
      repeat match goal with
        | Hd : dispatch _ _ _ _ = Some _ |- _ => apply IH in Hd
        | Hu : updateOutput _ _ _ = Some _ |- _ => apply updateOutput_frame in Hu as [? ->]
        end; assumption.
Qed.

Lemma markExecuting_kept l (t t0 : Tomasulo) :
  kept t t0 →
  kept t (foldl (λ (acc : Tomasulo) item,
                   let a1 := set_RS_ALUIs (RS_markAsExecuting item (RS_ALUIs acc)) acc in
                   let a2 := set_RS_ALUFPs (RS_markAsExecuting item (RS_ALUFPs a1)) a1 in
                   set_RS_MULTFPs (RS_markAsExecuting item (RS_MULTFPs a2)) a2) t0 l).
Proof. revert t0. induction l as [|e l IH]; cbn [foldl]; intros t0 Hk; [done|]. by apply IH. Qed.

Lemma executeStage_kept (t t' : Tomasulo) : executeStage t = Some t' → kept t t'.
Proof.
  unfold executeStage. intros Hs.
  destruct (readyEntries (RS_q (RS_ALUIs t)) t) as [r1|]; red_opt Hs; [|done].
  destruct (readyEntries (RS_q (RS_ALUFPs t)) t) as [r2|]; red_opt Hs; [|done].
  destruct (readyEntries (RS_q (RS_MULTFPs t)) t) as [r3|]; red_opt Hs; [|done].
  destruct (if negb (LSQ_busy (LDSTQ t)) then _ else _) as [t1|] eqn:H1;
    red_opt Hs; [|done].
  assert (kept t t1) as D1.
  { destruct (negb _); [by eapply computeAddress_kept|injection H1 as <-; kp]. }
  pose proof (markStores_kept t1) as D2.
  destruct (dispatch true _ r1 _) as [[[u1 t3] m1]|] eqn:Hd1; red_opt Hs; [|done].
  apply dispatch_kept in Hd1.
  destruct (dispatch false _ r2 _) as [[[u2 t4] m2]|] eqn:Hd2; red_opt Hs; [|done].
  apply dispatch_kept in Hd2.
  destruct (dispatch false _ r3 _) as [[[u3 t5] m3]|] eqn:Hd3; red_opt Hs; [|done].
  apply dispatch_kept in Hd3.
  injection Hs as <-. apply markExecuting_kept.
  eapply kept_trans; [exact D1|]. eapply kept_trans; [exact D2|].
  eapply kept_trans; [exact Hd1|]. eapply kept_trans; [exact Hd2|]. exact Hd3.
Qed.

Lemma retireHead_cycle (t t' : Tomasulo) r : retireHead t = Some (t', r) → cycle t' = cycle t.
Proof. unfold retireHead. intros Hs. stage_cases; reflexivity. Qed.

Lemma commitStage_cycle (t t' : Tomasulo) : commitStage t = Some t' → cycle t' = cycle t.
Proof.
  unfold commitStage. intros Hs.
  destruct (ROB_canCommit (ROB t)) as [resultID|]; [|by injection Hs as <-].
  destruct (isNew resultID t) as [[|]|]; red_opt Hs; [by injection Hs as <-| |done].
  destruct (isStore resultID t).
  - destruct (LSQ_issueReadyStore (LDSTQ t)) as [q' ss].
    destruct (0 <=? ss); [|by injection Hs as <-].
    destruct (retireHead _) as [[t2 r]|] eqn:Hr; red_opt Hs; [|done].
    apply retireHead_cycle in Hr. apply updateOutput_frame in Hs as [o ->]. exact Hr.
  - destruct (retireHead t) as [[t2 r]|] eqn:Hr; red_opt Hs; [|done].
    apply retireHead_cycle in Hr. apply updateOutput_frame in Hs as [o ->].
    destruct (negb _); exact Hr.
Qed.

(** X23.  The clock advances by exactly one in a cycle of the simulation
    loop: [advanceTime] is its only writer, no stage touches it. *)
Theorem runCycle_ticks_once (t t' : Tomasulo) :
  runCycle t = Some t' → cycle t' = cycle t + 1.
Proof.
  unfold runCycle. intros Hs.
  destruct (issueStage _) as [t1|] eqn:H1; red_opt Hs; [|done].
  destruct (executeStage t1) as [t2|] eqn:H2; red_opt Hs; [|done].
  destruct (checkBranchStage t2) as [t3|] eqn:H3; red_opt Hs; [|done].
  destruct (memoryStage t3) as [t4|] eqn:H4; red_opt Hs; [|done].
  destruct (writebackStage t4) as [t5|] eqn:H5; red_opt Hs; [|done].
  destruct (commitStage t5) as [t6|] eqn:H6; red_opt Hs; [|done].
  destruct (updateExitConditions (advanceTime t6)) as [t7|] eqn:H7; red_opt Hs; [|done].
  apply issueStage_kept in H1 as [H1 _]. apply executeStage_kept in H2 as [H2 _].
  apply checkBranchStage_kept in H3 as [H3 _]. apply memoryStage_kept in H4 as [H4 _].
  apply writebackStage_kept in H5 as [H5 _]. apply commitStage_cycle in H6.
  apply updateExitConditions_spec in H7 as [Hshape _].
  assert (cycle t' = cycle t7) as ->.
  { injection Hs as <-. by destruct (saveRAT t7). }
  assert (cycle t7 = cycle t6 + 1) as -> by (by destruct Hshape as [->| ->]).
  change (cycle (set_LDSTQ (LSQ_checkMMU (LDSTQ t)) t)) with (cycle t) in H1.
  lia.
Qed.

(** X24.  The architectural register file is written by the commit stage
    only: issue, execute, branch check (the squash included), memory and
    writeback return with the register file they were given. *)
Theorem ARF_written_by_commit_only (t t' : Tomasulo) :
  issueStage t = Some t' ∨ executeStage t = Some t' ∨ checkBranchStage t = Some t' ∨
  memoryStage t = Some t' ∨ writebackStage t = Some t' →
  ARF t' = ARF t.
Proof.
  intros [Hs|[Hs|[Hs|[Hs|Hs]]]].
  - by apply issueStage_kept in Hs as [_ ?].
  - by apply executeStage_kept in Hs as [_ ?].
  - by apply checkBranchStage_kept in Hs as [_ ?].
  - by apply memoryStage_kept in Hs as [_ ?].
  - by apply writebackStage_kept in Hs as [_ ?].
Qed.

End Frames.

Lemma runCycle_ticks_once_witness :
  ∃ t', Tomasulo.runCycle Scripted.store_at_head = Some t' ∧ Tomasulo.cycle t' = 6.
Proof.
  destruct (Tomasulo.runCycle Scripted.store_at_head) as [t'|] eqn:E;
    [|vm_compute in E; discriminate].
  exists t'. split; [reflexivity|].
  exact (runCycle_ticks_once Scripted.store_at_head t' E).
Defined.

(** The branch check of the core with the mispredicted branch squashes
    instructions 5 and 6 and leaves the register file alone. *)
Lemma ARF_written_by_commit_only_witness :
  ∃ t', Tomasulo.checkBranchStage Scripted.mispredicted_branch = Some t' ∧
        Tomasulo.ARF t' = Tomasulo.ARF Scripted.mispredicted_branch.
Proof.
  destruct (Tomasulo.checkBranchStage Scripted.mispredicted_branch) as [t'|] eqn:E;
    [|vm_compute in E; discriminate].
  exists t'. split; [reflexivity|].
  apply (ARF_written_by_commit_only Scripted.mispredicted_branch t').
  right. right. left. exact E.
Defined.

(** ** Tomasulo.py: squash, stalls and waiting commits *)

Section Control.
Import Tomasulo.
Context `{Collaborators}.

(** X25.  The squash after a misprediction of branch [B] deletes from the
    completion record exactly the instructions younger than [B]: the record
    of every ID up to [B], the branch included, is kept as it was.  It also
    clears the fetch offset and leaves the clock alone. *)
Theorem squash_keeps_older_records (B : Z) (p : bool) (t : Tomasulo) :
  (∀ ID, ID ≤ B → output (squash B p t) !! ID = output t !! ID) ∧
  (∀ ID, B < ID → output (squash B p t) !! ID = None) ∧
  fetchOffset (squash B p t) = 0 ∧ cycle (squash B p t) = cycle t.
Proof.
  unfold squash. cbn [output set_output fetchOffset set_fetchOffset cycle set_branch
                      set_IQ set_ROB set_LDSTQ set_MULTFPs set_ALUFPs set_ALUIs
                      set_RS_MULTFPs set_RS_ALUFPs set_RS_ALUIs set_RAT].
  repeat split.
  - intros ID Hle. destruct (output t !! ID) as [rec|] eqn:Hrec.
    + apply map_lookup_filter_Some. done.
    + apply map_lookup_filter_None. left. done.
  - intros ID Hlt. apply map_lookup_filter_None. right. intros rec _. cbn. lia.
Qed.

(** X26.  A stalled issue changes nothing: with an empty instruction queue,
    with a full ROB, or when the structure that the next instruction needs
    (the load/store queue for [LD]/[SD], the FP-adder station for
    [ADD.D]/[SUB.D], the FP-multiplier station for [MULT.D], the integer
    station for everything else) is full, the stage returns the state it was
    given: nothing is fetched and no ROB entry is taken. *)
Theorem issueStage_stalls (t : Tomasulo) (nextName : string) :
  (IQ_empty (fetchOffset t) (IQ t) = true → issueStage t = Some t) ∧
  (ROB_isFull (ROB t) = true → issueStage t = Some t) ∧
  (IQ_peek_1 (fetchOffset t) (IQ t) = Some nextName →
   (if bool_decide (nextName = "LD") || bool_decide (nextName = "SD")
    then LSQ_isFull (LDSTQ t)
    else if bool_decide (nextName = "ADD.D") || bool_decide (nextName = "SUB.D")
    then RS_isFull (RS_ALUFPs t)
    else if bool_decide (nextName = "MULT.D") then RS_isFull (RS_MULTFPs t)
    else RS_isFull (RS_ALUIs t)) = true →
   issueStage t = Some t).
Proof.
  unfold issueStage. split; [|split].
  - by intros ->.
  - intros ->. by destruct (IQ_empty _ _).
  - intros Hpeek Hfull.
    destruct (IQ_empty _ _); [done|]. destruct (negb _); [|done].
    rewrite Hpeek. cbv beta iota delta [mbind option_bind]. unfold fetchNext.
    destruct (bool_decide (nextName = "LD") || bool_decide (nextName = "SD"));
      [by rewrite Hfull|].
    destruct (bool_decide (nextName = "ADD.D") || bool_decide (nextName = "SUB.D"));
      [by rewrite Hfull|].
    destruct (bool_decide (nextName = "MULT.D")); [by rewrite Hfull|].
    destruct (bool_decide (nextName = "BNE") || bool_decide (nextName = "BEQ"));
      by rewrite Hfull.
Qed.

(** X27.  The commit stage waits, changing nothing, while the ROB head is
    not ready and while the head instruction is new in this cycle (it was
    written back in it); for a ready store that the load/store queue does
    not accept ([issueReadyStore] negative) only the queue may change: the
    ROB, the register file and the completion record stay. *)
Theorem commitStage_waits (t : Tomasulo) :
  (ROB_canCommit (ROB t) = None → commitStage t = Some t) ∧
  (∀ ID, ROB_canCommit (ROB t) = Some ID → isNew ID t = Some true →
         commitStage t = Some t) ∧
  (∀ ID, ROB_canCommit (ROB t) = Some ID → isNew ID t = Some false →
         isStore ID t = true → (LSQ_issueReadyStore (LDSTQ t)).2 < 0 →
         ∃ t', commitStage t = Some t' ∧ ROB t' = ROB t ∧ ARF t' = ARF t ∧
               output t' = output t ∧ RAT t' = RAT t).
Proof.
  unfold commitStage. split; [|split].
  - by intros ->.
  - by intros ID -> ->.
  - intros ID -> -> Hstore Hneg. cbv beta iota delta [mbind option_bind].
    rewrite Hstore. destruct (LSQ_issueReadyStore (LDSTQ t)) as [q' ss].
    cbn [snd] in Hneg.
    replace (0 <=? ss) with false by (symmetry; apply Z.leb_gt; lia).
    eexists. split; [reflexivity|]. done.
Qed.

(** X28.  Late forwarding for an arithmetic instruction: when the ROB head
    is done and the RAT maps a source register to the head's tag, the entry
    prepared at issue has no tag for that source and holds exactly the value
    stored in the ROB head. *)
Theorem arithmetic_late_forwarding (nextName : string) (nextInst : Inst) (ROBId : pyval)
    (t : Tomasulo) (h : ROBEntry) :
  String.prefix "B" nextName = false → nextName ≠ "SD" → nextName ≠ "LD" →
  ROB_head_entry (ROB t) = Some h → r3 h = true →
  ∃ entry, prepareEntry nextName nextInst ROBId t = Some entry ∧
    (inst_2 (RAT_getMapping nextInst (RAT t)) = PStr (ROBtag (ROB_head (ROB t))) →
     inst_2 nextInst ≠ PStr (ROBtag (ROB_head (ROB t))) →
     e3 entry = PNone ∧ e5 entry = r2 h) ∧
    (inst_3 (RAT_getMapping nextInst (RAT t)) = PStr (ROBtag (ROB_head (ROB t))) →
     inst_3 nextInst ≠ PStr (ROBtag (ROB_head (ROB t))) →
     e4 entry = PNone ∧ e6 entry = r2 h).
Proof.
  intros HB HSD HLD Hh Hdone. unfold prepareEntry. rewrite HB.
  rewrite (bool_decide_eq_false_2 _ HSD), (bool_decide_eq_false_2 _ HLD).
  cbn [orb].
  match goal with
  | |- context [backfillSources (ROB t) ?e] =>
      destruct (backfillSources_exact (ROB t) h e Hh Hdone) as (entry & -> & H3 & H4)
  end.
  exists entry. split; [done|]. cbn [e3 e4 e5 e6] in H3, H4. split.
  - intros Hmap Hne. apply H3. unfold captureSource, py_eq.
    rewrite bool_decide_eq_false_2 by congruence. done.
  - intros Hmap Hne. apply H4. unfold captureSource, py_eq.
    rewrite bool_decide_eq_false_2 by congruence. done.
Qed.

(** X29.  The branch check without a misprediction: a unit with no pending
    outcome is passed over, and for an outcome equal to the prediction
    nothing is squashed: the completion record, the RAT, the instruction
    queue, the fetch offset, the load/store queue and the FP stations are
    those before the check. *)
Theorem checkBranchFU_correct_prediction (i : nat) (t : Tomasulo) (fu : FU) :
  ALUIs t !! i = Some fu →
  (FU_isBranchOutcomePending fu = false → checkBranchFU i t = Some t) ∧
  (∀ fu' BID outcome,
     FU_isBranchOutcomePending fu = true →
     FU_getResult fu = Some (fu', (BID, outcome)) →
     outcome_differs outcome (branch_predict BID (branch t)) = false →
     ∃ t', checkBranchFU i t = Some t' ∧
           output t' = output t ∧ RAT t' = RAT t ∧ IQ t' = IQ t ∧
           fetchOffset t' = fetchOffset t ∧ LDSTQ t' = LDSTQ t ∧
           RS_ALUFPs t' = RS_ALUFPs t ∧ RS_MULTFPs t' = RS_MULTFPs t ∧
           branch t' = branch t).
Proof.
  intros Hi. unfold checkBranchFU. rewrite Hi.
  cbv beta iota zeta delta [mbind option_bind]. split.
  - by intros ->.
  - intros fu' BID outcome -> -> Hsame.
    change (branch (set_ALUIs (<[i:=fu']> (ALUIs t)) t)) with (branch t).
    rewrite Hsame. eexists. split; [reflexivity|]. done.
Qed.

End Control.

Lemma squash_keeps_older_records_witness :
  Tomasulo.output (Tomasulo.squash 4 false Scripted.mispredicted_branch) !! 4
    = Some [Some 2; Some 5; None; None; None] ∧
  Tomasulo.output (Tomasulo.squash 4 false Scripted.mispredicted_branch) !! 5 = None.
Proof.
  pose proof (squash_keeps_older_records 4 false Scripted.mispredicted_branch)
    as (Hold & Hyoung & _).
  split.
  - rewrite (Hold 4) by lia. reflexivity.
  - apply (Hyoung 5). lia.
Defined.

Lemma issueStage_stalls_witness :
  Tomasulo.issueStage Scripted.idle = Some Scripted.idle ∧
  Tomasulo.issueStage Scripted.stalled_issue = Some Scripted.stalled_issue.
Proof.
  split.
  - apply (proj1 (issueStage_stalls Scripted.idle "")). reflexivity.
  - apply (proj2 (proj2 (issueStage_stalls Scripted.stalled_issue "ADD")));
      reflexivity.
Defined.

(** Nothing to commit on the idle core; and the store at the head of the
    ROB is not committed in the cycle in which its last stage was
    recorded. *)
Lemma commitStage_waits_witness :
  Tomasulo.commitStage Scripted.idle = Some Scripted.idle ∧
  Tomasulo.commitStage (Tomasulo.set_cycle 1 Scripted.store_at_head)
    = Some (Tomasulo.set_cycle 1 Scripted.store_at_head).
Proof.
  split.
  - apply (proj1 (commitStage_waits Scripted.idle)). reflexivity.
  - apply (proj1 (proj2 (commitStage_waits (Tomasulo.set_cycle 1 Scripted.store_at_head)))
             3); reflexivity.
Defined.

(** [ADD R2, R1, R3] is issued while the RAT maps R1 to ROB0 and the ROB
    head, slot 0, is done with the value 16. *)
Lemma arithmetic_late_forwarding_witness :
  ∃ entry,
    Tomasulo.prepareEntry "ADD"
      (Tomasulo.mkInst 9 "ADD" (Tomasulo.PStr "R2") (Tomasulo.PStr "R1") (Tomasulo.PStr "R3"))
      (Tomasulo.PNum (NInt 1)) Scripted.base_in_ROB = Some entry ∧
    Tomasulo.e3 entry = Tomasulo.PNone ∧
    Tomasulo.e5 entry = Tomasulo.PNum (NInt 16).
Proof.
  destruct (arithmetic_late_forwarding "ADD"
              (Tomasulo.mkInst 9 "ADD" (Tomasulo.PStr "R2") (Tomasulo.PStr "R1")
                 (Tomasulo.PStr "R3"))
              (Tomasulo.PNum (NInt 1)) Scripted.base_in_ROB
              (Tomasulo.mkROBEntry 0 (Tomasulo.PStr "R1") (Tomasulo.PNum (NInt 16)) true 0))
    as (entry & Hentry & H1 & _);
    [reflexivity|discriminate|discriminate|reflexivity|reflexivity|].
  exists entry. split; [exact Hentry|].
  apply H1; [reflexivity|discriminate].
Defined.

Lemma checkBranchFU_correct_prediction_witness :
  Tomasulo.checkBranchFU 0 Scripted.idle = Some Scripted.idle.
Proof.
  apply (proj1 (checkBranchFU_correct_prediction 0 Scripted.idle
                  (Tomasulo.mkFU [] []) eq_refl)).
  reflexivity.
Defined.
